(** * gfrn: recursive find-and-replace over a directory tree

    A shallow embedding of the two versions of the program that the
    repository holds: the current one (reverse-order renames, root
    re-targeting, backslash escaping) at the top level of this file, and
    the earlier [main.go] inside [Module Legacy] where it differs.

    Text.  Go strings and byte slices are sequences of bytes.  The
    embedding holds a Go [string] as a Rocq [string] and a [[]byte] as a
    [list ascii]; [string(b)] and [[]byte(s)] are the two conversions of
    the standard library.  Case mapping ([strings.ToLower], the [(?i)]
    flag of the pattern) is modelled on the ASCII letters; text outside
    ASCII is outside the model.

    Library code the program calls ([strings], [regexp], [path/filepath],
    [os], the slice primitives of the language) is modelled next to the
    program, each definition under the name of the Go function it stands
    for. *)

From Stdlib Require Import Ascii String List Arith Lia Bool Permutation.
From stdpp Require Import base gmap strings list.

(** ** Package [strings] *)

Module Strings.

(** [unicode.ToLower] on an ASCII byte. *)
Definition lower_ascii (a : ascii) : ascii :=
  (match a with
  | "A" => "a" | "B" => "b" | "C" => "c" | "D" => "d" | "E" => "e"
  | "F" => "f" | "G" => "g" | "H" => "h" | "I" => "i" | "J" => "j"
  | "K" => "k" | "L" => "l" | "M" => "m" | "N" => "n" | "O" => "o"
  | "P" => "p" | "Q" => "q" | "R" => "r" | "S" => "s" | "T" => "t"
  | "U" => "u" | "V" => "v" | "W" => "w" | "X" => "x" | "Y" => "y"
  | "Z" => "z"
  | _ => a
  end)%char.

Fixpoint ToLower (s : string) : string :=
  match s with
  | EmptyString => EmptyString
  | String a s' => String (lower_ascii a) (ToLower s')
  end.

(** [strings.HasPrefix s prefix]. *)
Fixpoint HasPrefix (s p : string) {struct p} : bool :=
  match p with
  | EmptyString => true
  | String b p' =>
      match s with
      | EmptyString => false
      | String a s' => if Ascii.eqb a b then HasPrefix s' p' else false
      end
  end.

(** The scanning loop of [strings.Replace s old new (-1)] for a non-empty
    [old]: [skip] counts the bytes of a replaced occurrence still to be
    stepped over, so that occurrences are taken left to right without
    overlap. *)
Fixpoint replace_go (old new : string) (skip : nat) (s : string) : string :=
  match s with
  | EmptyString => EmptyString
  | String a s' =>
      match skip with
      | S k => replace_go old new k s'
      | O =>
          if HasPrefix s old
          then new +:+ replace_go old new (String.length old - 1) s'
          else String a (replace_go old new 0 s')
      end
  end.

(** With an empty [old], [strings.Replace] puts [new] in front of every
    character and at the end. *)
Fixpoint replace_empty (new : string) (s : string) : string :=
  match s with
  | EmptyString => new
  | String a s' => new +:+ String a (replace_empty new s')
  end.

(** [strings.Replace s old new (-1)]: every occurrence is replaced. *)
Definition Replace (s old new : string) : string :=
  match old with
  | EmptyString => replace_empty new s
  | String _ _ => replace_go old new 0 s
  end.

(** The loop of [strings.Split s sep] for a non-empty [sep]; [cur] is the
    piece collected so far, in reverse. *)
Fixpoint split_go (sep : string) (skip : nat) (cur : string) (s : string)
  : list string :=
  match s with
  | EmptyString => [String.rev cur]
  | String a s' =>
      match skip with
      | S k => split_go sep k cur s'
      | O =>
          if HasPrefix s sep
          then String.rev cur :: split_go sep (String.length sep - 1) EmptyString s'
          else split_go sep 0 (String a cur) s'
      end
  end.

Fixpoint explode (s : string) : list string :=
  match s with
  | EmptyString => []
  | String a s' => String a EmptyString :: explode s'
  end.

(** [strings.Split s sep]; an empty separator splits after each
    character. *)
Definition Split (s sep : string) : list string :=
  match sep with
  | EmptyString => explode s
  | String _ _ => split_go sep 0 EmptyString s
  end.

End Strings.

(** ** Package [regexp]

    The fragment of the RE2 syntax that the patterns of this program can
    reach with a search term made of plain text, dots, backslashes,
    parentheses and the three repetition operators: literals, [.],
    escaped punctuation, greedy [*], [+] and [?], capturing groups and the
    [(?i:] group that [run] opens.  A pattern with anything else
    (alternation, classes, counted repetition, anchors, escapes followed
    by a letter or digit, other flag groups, non-greedy operators, a
    repetition of a sub-expression that matches the empty string) makes
    [Compile] answer [Unsupported]: the embedding says nothing about it. *)

Module Regexp.

Inductive regex : Type :=
| Empty
| Lit (c : ascii) (fold : bool)
| AnyNotNL
| Cat (r1 r2 : regex)
| Star (r : regex)
| Plus (r : regex)
| Quest (r : regex)
| Capture (i : nat) (r : regex).

(** A compiled expression: the syntax tree and the number of capturing
    groups ([NumSubexp]). *)
Record Regexp : Type := mkRegexp { prog : regex; NumSubexp : nat }.

Inductive parsed (A : Type) : Type :=
| Compiled (a : A)
| SyntaxError
| Unsupported.
Arguments Compiled {A} a.
Arguments SyntaxError {A}.
Arguments Unsupported {A}.

(** *** The parser ([regexp/syntax.Parse] with the Perl flags)

    A stack machine, as in the library: operands are pushed as they are
    read, an opening parenthesis pushes a marker that remembers the group
    number (0 for a group that does not capture) and the flags in force,
    and a closing parenthesis collapses what lies above the marker. *)

Inductive item : Type :=
| IRe (r : regex)
| ILeftParen (cap : nat) (fold : bool).

Record parser : Type := mkParser {
  stack : list item;        (* top of the stack first *)
  foldCase : bool;          (* the (?i) flag *)
  numCap : nat;
  lastRepeat : bool         (* the previous token was a repetition *)
}.

Definition push (it : item) (p : parser) : parser :=
  mkParser (it :: stack p) (foldCase p) (numCap p) false.

(** The operands above the topmost marker, top first, and the rest. *)
Fixpoint operands (st : list item) : list regex * list item :=
  match st with
  | IRe r :: st' => let '(rs, rest) := operands st' in (r :: rs, rest)
  | _ => ([], st)
  end.

(** [collapse]: the concatenation of operands given top first. *)
Definition collapse (rs : list regex) : regex :=
  match rs with
  | [] => Empty
  | r :: rest => fold_left (fun acc x => Cat x acc) rest r
  end.

(** [concat]: replace the operands above the topmost marker by their
    concatenation. *)
Definition concat (st : list item) : list item :=
  let '(rs, rest) := operands st in IRe (collapse rs) :: rest.

Fixpoint nullable (r : regex) : bool :=
  match r with
  | Empty => true
  | Lit _ _ => false
  | AnyNotNL => false
  | Cat r1 r2 => nullable r1 && nullable r2
  | Star _ => true
  | Plus r1 => nullable r1
  | Quest _ => true
  | Capture _ r1 => nullable r1
  end.

Definition isalnum (c : ascii) : bool :=
  let n := nat_of_ascii c in
  (((48 <=? n) && (n <=? 57)) || ((65 <=? n) && (n <=? 90))
   || ((97 <=? n) && (n <=? 122)))%nat.

Definition is_ascii7 (c : ascii) : bool := (nat_of_ascii c <? 128)%nat.

(** [repeat]: apply a repetition operator to the top of the stack. *)
Definition repeat (op : regex -> regex) (p : parser) (after : string)
  : parsed parser :=
  match after with
  | String "?"%char _ => Unsupported
  | _ =>
      if lastRepeat p then SyntaxError
      else match stack p with
           | IRe r :: st' =>
               if nullable r then Unsupported
               else Compiled (mkParser (IRe (op r) :: st') (foldCase p) (numCap p) true)
           | _ => SyntaxError
           end
  end.

(** [parseRightParen]. *)
Definition parseRightParen (p : parser) : parsed parser :=
  match concat (stack p) with
  | IRe r :: ILeftParen cap fl :: st' =>
      let re := match cap with O => r | S _ => Capture cap r end in
      Compiled (mkParser (IRe re :: st') fl (numCap p) false)
  | _ => SyntaxError
  end.

Definition finish (p : parser) : parsed Regexp :=
  match concat (stack p) with
  | [IRe r] => Compiled (mkRegexp r (numCap p))
  | _ => SyntaxError
  end.

Fixpoint parse_go (p : parser) (t : string) {struct t} : parsed Regexp :=
  (match t with
  | EmptyString => finish p
  | String "(" t1 =>
      match t1 with
      | String "?" t2 =>
          match t2 with
          | String "i" (String ":" t4) =>
              parse_go (mkParser (ILeftParen 0 (foldCase p) :: stack p)
                                 true (numCap p) false) t4
          | _ => Unsupported
          end
      | _ =>
          parse_go (mkParser (ILeftParen (S (numCap p)) (foldCase p) :: stack p)
                             (foldCase p) (S (numCap p)) false) t1
      end
  | String ")" t1 =>
      match parseRightParen p with
      | Compiled p' => parse_go p' t1
      | SyntaxError => SyntaxError
      | Unsupported => Unsupported
      end
  | String "." t1 => parse_go (push (IRe AnyNotNL) p) t1
  | String "*" t1 =>
      match repeat Star p t1 with
      | Compiled p' => parse_go p' t1
      | SyntaxError => SyntaxError
      | Unsupported => Unsupported
      end
  | String "+" t1 =>
      match repeat Plus p t1 with
      | Compiled p' => parse_go p' t1
      | SyntaxError => SyntaxError
      | Unsupported => Unsupported
      end
  | String "?" t1 =>
      match repeat Quest p t1 with
      | Compiled p' => parse_go p' t1
      | SyntaxError => SyntaxError
      | Unsupported => Unsupported
      end
  | String "\" t1 =>
      match t1 with
      | EmptyString => SyntaxError
      | String c t2 =>
          if is_ascii7 c && negb (isalnum c)
          then parse_go (push (IRe (Lit c (foldCase p))) p) t2
          else Unsupported
      end
  | String "|" _ | String "[" _ | String "{" _ | String "^" _ | String "$" _ =>
      Unsupported
  | String c t1 => parse_go (push (IRe (Lit c (foldCase p))) p) t1
  end)%char.

(** [regexp.Compile]. *)
Definition Compile (pattern : string) : parsed Regexp :=
  parse_go (mkParser [] false 0 false) pattern.

(** *** Matching

    The library promises the match a backtracking search would find
    first (leftmost, and among those the one preferred by the greedy
    operators).  [m r k s c] runs [r] on the input [s] with the groups
    recorded so far in [c] and hands what is left to the continuation
    [k]; a [None] makes the caller try its next alternative. *)

Abbreviation caps := (gmap nat string).
Definition cont : Type := string -> caps -> option (string * caps).

Definition lit_eq (fold : bool) (c x : ascii) : bool :=
  if fold then Ascii.eqb (Strings.lower_ascii c) (Strings.lower_ascii x)
  else Ascii.eqb c x.

Definition is_newline (x : ascii) : bool := Ascii.eqb x "010"%char.

(** Greedy iteration of [body]: one more round if the round consumes
    input and the rest of the match succeeds, otherwise stop here. *)
Fixpoint star (body : cont -> cont) (k : cont) (fuel : nat) (s : string) (c : caps)
  : option (string * caps) :=
  match fuel with
  | O => k s c
  | S f =>
      match body (fun s' c' =>
                    if String.length s' <? String.length s
                    then star body k f s' c' else None) s c with
      | Some x => Some x
      | None => k s c
      end
  end.

Fixpoint m (r : regex) (k : cont) (s : string) (c : caps) {struct r}
  : option (string * caps) :=
  match r with
  | Empty => k s c
  | Lit a fold =>
      match s with
      | String x s' => if lit_eq fold a x then k s' c else None
      | EmptyString => None
      end
  | AnyNotNL =>
      match s with
      | String x s' => if is_newline x then None else k s' c
      | EmptyString => None
      end
  | Cat r1 r2 => m r1 (m r2 k) s c
  | Star r1 => star (m r1) k (S (String.length s)) s c
  | Plus r1 =>
      m r1 (fun s' c' => star (m r1) k (S (String.length s')) s' c') s c
  | Quest r1 =>
      match m r1 k s c with
      | Some x => Some x
      | None => k s c
      end
  | Capture i r1 =>
      m r1 (fun s' c' =>
              k s' (<[i := String.substring 0 (String.length s - String.length s') s]> c'))
        s c
  end.

(** The texts of a match that started at [s] and stopped at [rest]:
    the whole match, then each group (empty if it took no part). *)
Definition submatches (re : Regexp) (s rest : string) (c : caps) : list string :=
  String.substring 0 (String.length s - String.length rest) s
  :: map (fun i => default EmptyString (c !! i)) (seq 1 (NumSubexp re)).

(** The first element of [FindAllStringSubmatch s n] (and of
    [FindAllSubmatch] on the bytes of [s]) for [n = -1] or [n = 1]: the
    leftmost match, [None] when the result is empty.  The program reads
    no other element. *)
Fixpoint FindSubmatch (re : Regexp) (s : string) : option (list string) :=
  match m (prog re) (fun rest c => Some (rest, c)) s ∅ with
  | Some (rest, c) => Some (submatches re s rest c)
  | None =>
      match s with
      | EmptyString => None
      | String _ s' => FindSubmatch re s'
      end
  end.

End Regexp.

(** ** Paths and the file system

    A path is held as the list of its components: ["a/b/c"] is
    [["a"; "b"; "c"]], and the empty list is [""] or ["."], the directory
    the tree of the model hangs from.  All paths are clean and relative to
    that directory. *)

Definition path : Type := list string.

Module Filepath.

Definition join_step (p : path) (e : string) : path :=
  if decide (e = EmptyString) then p
  else if decide (e = ".") then p
  else if decide (e = "..") then removelast p
  else p ++ [e].

(** [filepath.Join d elem] for a clean [d]: the components of [elem] are
    appended one by one, [Clean] dropping the empty and [.] ones and
    letting [..] take the last component away (the model has nothing
    above the directory its tree hangs from: there [..] stays in
    place). *)
Definition Join (d : path) (elem : string) : path :=
  fold_left join_step (Strings.Split elem "/") d.

(** The text of a path: its components with [/] between them, [.] for
    the empty path. *)
Definition to_string (p : path) : string :=
  match p with
  | [] => "."
  | c :: cs => fold_left (fun acc x => acc +:+ "/" +:+ x) cs c
  end.

(** [filepath.Dir]: all but the last component. *)
Definition Dir (p : path) : path := removelast p.

(** [filepath.Base], the [Name()] of the entry a path leads to. *)
Definition Base (p : path) : string := List.last p ".".

(** [filepath.Ext name]: the suffix that starts at the last dot, empty if
    there is none. *)
Fixpoint Ext (name : string) : string :=
  match name with
  | EmptyString => EmptyString
  | String a s' =>
      match Ext s' with
      | EmptyString => if Ascii.eqb a "."%char then name else EmptyString
      | e => e
      end
  end.

End Filepath.

Module Os.

(** A file system entry: a regular file with its bytes, or a directory
    with its entries. *)
#[local] Unset Elimination Schemes.
Inductive node : Type :=
| File (contents : list ascii)
| Dir (entries : list (string * node)).
#[local] Set Elimination Schemes.

Record FileInfo : Type := mkFileInfo { Name : string; IsDir : bool }.

Definition isDir (n : node) : bool :=
  match n with Dir _ => true | File _ => false end.

Inductive errno : Type := ENOENT | EEXIST | ENOTDIR | EISDIR | EINVAL | ENOTEMPTY.

Fixpoint assoc (es : list (string * node)) (c : string) : option node :=
  match es with
  | [] => None
  | (c', n) :: es' => if decide (c' = c) then Some n else assoc es' c
  end.

(** [Lstat]: the entry a path leads to. *)
Fixpoint lookup (n : node) (p : path) : option node :=
  match p with
  | [] => Some n
  | c :: p' =>
      match n with
      | Dir es => match assoc es c with
                  | Some ch => lookup ch p'
                  | None => None
                  end
      | File _ => None
      end
  end.

Fixpoint remove_entry (c : string) (es : list (string * node))
  : list (string * node) :=
  match es with
  | [] => []
  | (c', n) :: es' =>
      if decide (c' = c) then remove_entry c es'
      else (c', n) :: remove_entry c es'
  end.

(** Entries are listed in name order, the order in which a directory is
    read for a walk; a new name takes its place in that order and an
    existing one is overwritten where it stands. *)
Fixpoint put_entry (c : string) (n : node) (es : list (string * node))
  : list (string * node) :=
  match es with
  | [] => [(c, n)]
  | (c', n') :: es' =>
      if decide (c' = c) then (c, n) :: es'
      else if String.ltb c c' then (c, n) :: (c', n') :: es'
      else (c', n') :: put_entry c n es'
  end.

Fixpoint alter_entry (c : string) (f : node -> node) (es : list (string * node))
  : list (string * node) :=
  match es with
  | [] => []
  | (c', n) :: es' =>
      if decide (c' = c) then (c', f n) :: es' else (c', n) :: alter_entry c f es'
  end.

(** The tree without the entry at [p]. *)
Fixpoint detach (p : path) (n : node) : node :=
  match p, n with
  | [c], Dir es => Dir (remove_entry c es)
  | c :: p', Dir es => Dir (alter_entry c (detach p') es)
  | _, _ => n
  end.

(** The tree with [new] as the entry at [p]. *)
Fixpoint attach (p : path) (new : node) (n : node) : node :=
  match p, n with
  | [c], Dir es => Dir (put_entry c new es)
  | c :: p', Dir es => Dir (alter_entry c (attach p' new) es)
  | _, _ => n
  end.

Fixpoint is_prefix (p q : path) : bool :=
  match p, q with
  | [], _ => true
  | c :: p', d :: q' => if decide (c = d) then is_prefix p' q' else false
  | _ :: _, [] => false
  end.

(** [os.Rename] on Unix.  The library first refuses a new name that is
    an existing directory, whatever the old one is; otherwise the system
    call moves the entry, over an existing file if there is one. *)
Definition Rename (old new : path) (fs : node) : node + errno :=
  match lookup fs new with
  | Some (Dir _) =>
      match lookup fs old with
      | None => inr ENOENT
      | Some _ => inr EEXIST
      end
  | newst =>
      match lookup fs old with
      | None => inr ENOENT
      | Some n =>
          if decide (old = new) then inl fs
          else if isDir n && is_prefix old new then inr EINVAL
          else
            match lookup fs (Filepath.Dir new) with
            | None => inr ENOENT
            | Some (File _) => inr ENOTDIR
            | Some (Dir _) =>
                match n, newst with
                | Dir _, Some (File _) => inr ENOTDIR
                | _, _ => inl (attach new n (detach old fs))
                end
            end
      end
  end.

(** [os.ReadFile]. *)
Definition ReadFile (p : path) (fs : node) : list ascii + errno :=
  match p with
  | [] => inr ENOENT
  | _ => match lookup fs p with
         | Some (File b) => inl b
         | Some (Dir _) => inr EISDIR
         | None => inr ENOENT
         end
  end.

(** [os.Remove]: a file or an empty directory. *)
Definition Remove (p : path) (fs : node) : node + errno :=
  match p with
  | [] => inr ENOENT
  | _ => match lookup fs p with
         | Some (File _) => inl (detach p fs)
         | Some (Dir []) => inl (detach p fs)
         | Some (Dir (_ :: _)) => inr ENOTEMPTY
         | None => inr ENOENT
         end
  end.

(** [os.WriteFile]: create or truncate, then write. *)
Definition WriteFile (p : path) (data : list ascii) (fs : node) : node + errno :=
  match p with
  | [] => inr ENOENT
  | _ => match lookup fs p with
         | Some (Dir _) => inr EISDIR
         | _ =>
             match lookup fs (Filepath.Dir p) with
             | Some (Dir _) => inl (attach p (File data) fs)
             | Some (File _) => inr ENOTDIR
             | None => inr ENOENT
             end
         end
  end.

End Os.

(** ** Slices

    A slice is a window on a backing array: [elems] are the elements
    below its length, [capacity] is how far the window may be stretched.
    Every slice of this program is grown by [append] from an empty
    literal, so the array holds zero values between length and
    capacity. *)

Module Slice.

Class GoType (A : Type) : Type := { zero : A; sizeof : nat }.

(** What the runtime decides for the program: when [append] finds the
    array full, the new capacity, from the element size, the old capacity
    and the length needed; and the order in which a channel hands over
    what several goroutines have sent on it, which is some order of what
    was sent. *)
Class Runtime : Type := {
  growslice : nat -> nat -> nat -> nat;
  deliver : forall A : Type, list A -> list A;
  deliver_perm : forall (A : Type) (l : list A), Permutation (deliver A l) l
}.

Record slice (A : Type) : Type := mkSlice { elems : list A; capacity : nat }.
Arguments mkSlice {A} elems capacity.
Arguments elems {A} s.
Arguments capacity {A} s.

(** The literal [[]T{}]. *)
Definition empty {A : Type} : slice A := mkSlice [] 0.

Definition len {A : Type} (s : slice A) : nat := length (elems s).

Definition append {A : Type} {rt : Runtime} {gt : GoType A} (s : slice A) (x : A)
  : slice A :=
  if len s <? capacity s
  then mkSlice (elems s ++ [x]) (capacity s)
  else mkSlice (elems s ++ [x]) (growslice sizeof (capacity s) (S (len s))).

(** The backing array as the slice sees it, zero values included. *)
Definition backing {A : Type} {gt : GoType A} (s : slice A) : list A :=
  elems s ++ replicate (capacity s - len s) zero.

(** [s[lo:hi]]: the bounds are checked against the capacity, not the
    length; [None] is the run-time panic. *)
Definition sub {A : Type} {gt : GoType A} (s : slice A) (lo hi : nat)
  : option (slice A) :=
  if (lo <=? hi) && (hi <=? capacity s)
  then Some (mkSlice (take (hi - lo) (drop lo (backing s))) (capacity s - lo))
  else None.

(** The growth rule of the Go runtime ([nextslicecap]) for an [append] of
    one element, before the allocation is rounded up to a size class.
    For the 16-byte strings of a path list the capacities it gives up to
    512 (1, 2, 4, ..., 256, 512) are size classes themselves. *)
Definition nextslicecap (oldCap newLen : nat) : nat :=
  if oldCap + oldCap <? newLen then newLen
  else if oldCap <? 256 then oldCap + oldCap
  else oldCap + (oldCap + 768) / 4.

(** The runtime of the examples: the growth rule above, and a channel
    that hands the results over group after group. *)
Definition go_runtime : Runtime :=
  {| growslice := fun _ => nextslicecap;
     deliver := fun _ l => l;
     deliver_perm := fun _ l => Permutation_refl l |}.

End Slice.

(** ** The program *)

Inductive result (A : Type) : Type :=
| Ok (a : A)
| Panic (msg : string)
| OutOfModel.
Arguments Ok {A} a.
Arguments Panic {A} msg.
Arguments OutOfModel {A}.

#[global] Instance result_ret : MRet result := fun A a => Ok a.
#[global] Instance result_bind : MBind result := fun A B f r =>
  match r with
  | Ok a => f a
  | Panic msg => Panic msg
  | OutOfModel => OutOfModel
  end.

Import Strings Regexp Os Slice.

Definition defaultIgnores : string := ".vs,.git".
Definition GOPROCESSES : nat := 48.

Record RenameOp : Type := mkRenameOp { Old : path; New : path }.
Record ReadOp : Type := mkReadOp { rPath : path; rContents : list ascii }.
Record WriteOp : Type := mkWriteOp { wPath : path; wContents : list ascii }.

#[global] Instance path_gotype : GoType path := {| zero := []; sizeof := 16 |}.
#[global] Instance RenameOp_gotype : GoType RenameOp :=
  {| zero := mkRenameOp [] []; sizeof := 32 |}.
#[global] Instance ReadOp_gotype : GoType ReadOp :=
  {| zero := mkReadOp [] []; sizeof := 40 |}.
#[global] Instance WriteOp_gotype : GoType WriteOp :=
  {| zero := mkWriteOp [] []; sizeof := 40 |}.

(** The error [renameDirs] builds with [fmt.Errorf]. *)
Inductive error : Type :=
| CouldntRename (old new : path) (e : errno).

(** *** [filepath.Walk] *)

Inductive werror : Type := SkipDir | WalkErr (e : errno).

Definition WalkFunc (St : Type) : Type :=
  path -> option FileInfo -> option errno -> St -> result (option werror * St).

(** [walk]: the function is called on the entry, then, for a directory
    on which it answered [nil], on each of its entries in turn.  A
    [SkipDir] from a directory is swallowed by the loop of its parent;
    from a file it ends that loop. *)
Fixpoint walk {St : Type} (fn : WalkFunc St) (p : path) (name : string)
  (n : node) (st : St) {struct n} : result (option werror * St) :=
  match n with
  | File _ => fn p (Some (mkFileInfo name false)) None st
  | Dir es =>
      r ← fn p (Some (mkFileInfo name true)) None st;
      match r with
      | (Some e, st1) => Ok (Some e, st1)
      | (None, st1) =>
          (fix loop (es : list (string * node)) (st : St)
             : result (option werror * St) :=
             match es with
             | [] => Ok (None, st)
             | (c, ch) :: es' =>
                 r' ← walk fn (p ++ [c]) c ch st;
                 match r' with
                 | (None, st') => loop es' st'
                 | (Some SkipDir, st') =>
                     if isDir ch then loop es' st' else Ok (Some SkipDir, st')
                 | (Some e, st') => Ok (Some e, st')
                 end
             end) es st1
      end
  end.

(** [filepath.Walk root fn], as the program calls it: the error it
    returns is dropped, what remains is what [fn] did to its state. *)
Definition Walk {St : Type} (root : path) (fn : WalkFunc St) (st : St) (fs : node)
  : result St :=
  match lookup fs root with
  | None => r ← fn root None (Some ENOENT) st; Ok (snd r)
  | Some n => r ← walk fn root (Filepath.Base root) n st; Ok (snd r)
  end.

Section Program.
Context {rt : Runtime}.

(** [matches[0][1]]: the text of the first group of a match; indexing
    past the groups of the expression is a run-time panic. *)
Definition group1 (match0 : list string) : result string :=
  match match0 !! 1 with
  | Some s => Ok s
  | None => Panic "index out of range"
  end.

Definition splitToMap (str split prefix : string) : gmap string bool :=
  fold_left (fun m s => <[ prefix +:+ ToLower s := true ]> m)
            (Split str split) ∅.

(** [_, ok := m[k]]. *)
Definition has_key (m : gmap string bool) (k : string) : bool :=
  bool_decide (is_Some (m !! k)).

(** The function [renameDirs] hands to the walk: it records a rename for
    every entry whose name matches and touches nothing. *)
Definition renameDirs_visit (replace : string) (reg : Regexp)
  (ignoreMap : gmap string bool) : WalkFunc (slice RenameOp) :=
  fun path info err renames =>
    match err with
    | Some e => Ok (Some (WalkErr e), renames)
    | None =>
        match info with
        | None => Panic "nil pointer dereference"
        | Some info =>
            let lname := ToLower (Name info) in
            if has_key ignoreMap lname && IsDir info
            then Ok (Some SkipDir, renames)
            else
              match FindSubmatch reg (Name info) with
              | None => Ok (None, renames)
              | Some match0 =>
                  let curdir := Filepath.Dir path in
                  s ← group1 match0;
                  let newthisname := Replace (Name info) s replace in
                  let renameTo := Filepath.Join curdir newthisname in
                  Ok (None, append renames (mkRenameOp path renameTo))
              end
        end
    end.

(** [for i := len(renames) - 1; i >= 0; i--]: [rename_loop renames n]
    runs the iterations [i = n - 1] down to [0] and stops at the first
    rename that fails. *)
Fixpoint rename_loop (renames : list RenameOp) (n : nat) (fs : node)
  : node * option error :=
  match n with
  | O => (fs, None)
  | S i =>
      match renames !! i with
      | None => (fs, None)
      | Some value =>
          match Rename (Old value) (New value) fs with
          | inr e => (fs, Some (CouldntRename (Old value) (New value) e))
          | inl fs' => rename_loop renames i fs'
          end
      end
  end.

Definition renameDirs (dir : path) (replace : string) (reg : Regexp)
  (ignoreMap : gmap string bool) (fs : node)
  : result (path * option error * node) :=
  renames ← Walk dir (renameDirs_visit replace reg ignoreMap) Slice.empty fs;
  match rename_loop (elems renames) (len renames) fs with
  | (fs', Some err) => Ok (dir, Some err, fs')
  | (fs', None) =>
      let newpath :=
        match elems renames with
        | r0 :: _ => if decide (Old r0 = dir) then New r0 else dir
        | [] => dir
        end in
      Ok (newpath, None, fs')
  end.

(** The function [replaceContents] hands to the walk: it collects the
    files whose extension is listed. *)
Definition replaceContents_visit (extMap ignoreMap : gmap string bool)
  : WalkFunc (slice path) :=
  fun path info err readPaths =>
    match err with
    | Some e => Ok (Some (WalkErr e), readPaths)
    | None =>
        match info with
        | None => Panic "nil pointer dereference"
        | Some info =>
            let lname := ToLower (Name info) in
            if has_key ignoreMap lname && IsDir info
            then Ok (Some SkipDir, readPaths)
            else if IsDir info then Ok (None, readPaths)
            else
              let ext := Filepath.Ext (ToLower (Name info)) in
              if negb (has_key extMap ext) || (String.length ext =? 0)
              then Ok (None, readPaths)
              else Ok (None, append readPaths path)
        end
    end.

Definition read (items : slice path) (fs : node) : slice ReadOp :=
  fold_left
    (fun readOps path =>
       if decide (path = []) then readOps
       else match ReadFile path fs with
            | inr _ => readOps
            | inl bytes => append readOps (mkReadOp path bytes)
            end)
    (elems items) Slice.empty.

Definition update (items : slice ReadOp) (reg : Regexp) (replace : string)
  : result (slice WriteOp) :=
  fold_left
    (fun acc read =>
       writes ← acc;
       match FindSubmatch reg (string_of_list_ascii (rContents read)) with
       | Some match0 =>
           f ← group1 match0;
           let replaced := Replace (string_of_list_ascii (rContents read)) f replace in
           let write := mkWriteOp (rPath read) (list_ascii_of_string replaced) in
           Ok (append writes write)
       | None => Ok writes
       end)
    (elems items) (Ok Slice.empty).

(** [write]: remove, then write; a failure of either is printed and the
    loop goes on. *)
Definition write (items : slice WriteOp) (fs : node) : node :=
  fold_left
    (fun fs wr =>
       let fs1 := match Remove (wPath wr) fs with
                  | inl fs' => fs'
                  | inr _ => fs
                  end in
       match WriteFile (wPath wr) (wContents wr) fs1 with
       | inl fs' => fs'
       | inr _ => fs1
       end)
    (elems items) fs.

(** The groups [list[i*groupSize : (i+1)*groupSize]] for [i] from [0] to
    [GOPROCESSES - 1], cut in that order by the calling goroutine; the
    first bound beyond the capacity panics. *)
Definition groups {A : Type} {gt : GoType A} (items : slice A)
  : result (list (slice A)) :=
  let groupSize := len items / GOPROCESSES + 1 in
  fold_left
    (fun acc i =>
       gs ← acc;
       match sub items (i * groupSize) ((i + 1) * groupSize) with
       | Some grp => Ok (gs ++ [grp])
       | None => Panic "slice bounds out of range"
       end)
    (seq 0 GOPROCESSES) (Ok []).

(** [for r := range ch { a = append(a, r) }]. *)
Definition drain {A : Type} {gt : GoType A} (received : list A) : slice A :=
  fold_left append received Slice.empty.

Definition pooled {A : Type} (items : slice A) : bool :=
  (GOPROCESSES * 2 <? len items) && (1 <? GOPROCESSES).

(** No two of the paths lie on one another: none is another one, and
    none leads through another one. *)
Fixpoint apart (l : list path) : bool :=
  match l with
  | [] => true
  | p :: rest =>
      forallb (fun q => negb (is_prefix p q) && negb (is_prefix q p)) rest
      && apart rest
  end.

(** The three brokers.  A panic ends the program; the embedding keeps no
    file system for it, as what the workers already started have written
    by then is not fixed.

    On the pooled path of [brokerRead] and [brokerUpdate] the workers send
    their results on a channel, which hands them over in the order the
    runtime decides ([deliver]).  The channel holds [len(list)] results
    and is only emptied once every worker is done: [brokerRead] never
    sends more (the groups hold the paths of the list and empty paths,
    which [read] skips), [brokerUpdate] does when the records beyond the
    length of the list match as well, and then no goroutine can go on. *)
Definition brokerRead (items : slice path) (fs : node) : result (slice ReadOp) :=
  if pooled items then
    gs ← groups items;
    Ok (drain (deliver _ (List.concat (map (fun lst => elems (read lst fs)) gs))))
  else Ok (read items fs).

Definition brokerUpdate (items : slice ReadOp) (reg : Regexp) (replace : string)
  : result (slice WriteOp) :=
  if pooled items then
    gs ← groups items;
    ops ← fold_left
          (fun acc lst => done ← acc; w ← update lst reg replace;
                          Ok (done ++ elems w))
          gs (Ok []);
    if len items <? length ops
    then Panic "all goroutines are asleep - deadlock!"
    else Ok (drain (deliver _ ops))
  else update items reg replace.

(** On the pooled path of [brokerWrite] the workers write at the same
    time.  When the paths of the records lie apart, each worker works on
    files of its own and the files are those of the groups written one
    after another, however the calls of the workers are interleaved
    ([interleaving_sequential]); when two records share a path, or one
    path leads through another, the outcome depends on how the workers
    are interleaved and the embedding says nothing.  (Records without a
    path write nothing.)  The records [replaceContents] makes from the
    files of a tree are of the first kind ([written_paths_apart]). *)
Definition brokerWrite (items : slice WriteOp) (fs : node) : result node :=
  if pooled items then
    gs ← groups items;
    if apart (List.filter (fun p => negb (bool_decide (p = [])))
                (map wPath (elems items)))
    then Ok (fold_left (fun fs lst => write lst fs) gs fs)
    else OutOfModel
  else Ok (write items fs).

Definition replaceContents (dir : path) (replace : string) (reg : Regexp)
  (extMap ignoreMap : gmap string bool) (fs : node)
  : result (option error * node) :=
  readPaths ← Walk dir (replaceContents_visit extMap ignoreMap) Slice.empty fs;
  reads ← brokerRead readPaths fs;
  writes ← brokerUpdate reads reg replace;
  fs' ← brokerWrite writes fs;
  Ok (None, fs').

(** [regexp.MustCompile]. *)
Definition MustCompile (pattern : string) : result Regexp :=
  match Compile pattern with
  | Compiled re => Ok re
  | SyntaxError => Panic "regexp: Compile: error parsing regexp"
  | Unsupported => OutOfModel
  end.

(** The pattern [run] builds from the search term. *)
Definition pattern_of (find : string) : string :=
  let p := Replace find "\" "\\" in
  let p := Replace p "." "\." in
  "(?i:.*(" +:+ ToLower p +:+ ").*)".

Definition run (dir : path) (find replace ignoredirs textExtensions : string)
  (caseSensitive : bool) (fs : node) : result (option error * node) :=
  reg ← MustCompile (pattern_of find);
  let ignores := splitToMap (ToLower ignoredirs) "," "" in
  let extMap := splitToMap textExtensions "," "." in
  r ← renameDirs dir replace reg ignores fs;
  match r with
  | (newpath, Some err, fs') => Ok (Some err, fs')
  | (newpath, None, fs') => replaceContents newpath replace reg extMap ignores fs'
  end.

(** The ignore list [main] hands to [run]. *)
Definition ignore_arg (i : string) : string :=
  if HasPrefix i defaultIgnores then i else defaultIgnores +:+ i.

Inductive exit : Type :=
| ExitUsage                                   (* os.Exit(1) *)
| Finished (err : option error) (fs : node).

(** [main], from the values of the flags on. *)
Definition main (wd f r i exts : string) (c : bool) (fs : node) : result exit :=
  if bool_decide (wd = EmptyString) || bool_decide (f = EmptyString)
     || bool_decide (exts = EmptyString)
  then Ok ExitUsage
  else
    out ← run (Filepath.Join [] wd) f r (ignore_arg i) exts c fs;
    Ok (Finished (fst out) (snd out)).

End Program.

(** ** The earlier version ([main.go])

    It differs from the current one in three places: the pattern escapes
    dots only, the walks do not look at the error they are handed, and
    [renameDirs] renames in discovery order, rewriting the path of each
    entry with the replacement applied to its parent directories.  The
    stages of the content pipeline are the same functions. *)

Module Legacy.
Section Program.
Context {rt : Runtime}.

Definition pattern_of (find : string) : string :=
  let p := Replace find "." "\." in
  "(?i:.*(" +:+ ToLower p +:+ ").*)".

Definition renameDirs_visit (dir : path) (replace : string) (reg : Regexp)
  (ignoreMap : gmap string bool) : WalkFunc (slice RenameOp) :=
  fun path info err renames =>
    match info with
    | None => Panic "nil pointer dereference"
    | Some info =>
        let matches := FindSubmatch reg (Name info) in
        let lname := ToLower (Name info) in
        if has_key ignoreMap lname && IsDir info
        then Ok (Some SkipDir, renames)
        else
          match matches with
          | None => Ok (None, renames)
          | Some match0 =>
              let curdir := Filepath.Dir path in
              s ← group1 match0;
              let relpath :=
                Replace (Filepath.to_string curdir) (Filepath.to_string dir) "" in
              let newpath := Replace relpath s replace in
              let newthisname := Replace (Name info) s replace in
              let old := Filepath.Join (Filepath.Join dir newpath) (Name info) in
              let renameTo := Filepath.Join (Filepath.Join dir newpath) newthisname in
              Ok (None, append renames (mkRenameOp old renameTo))
          end
    end.

(** [for _, value := range renames]. *)
Fixpoint rename_loop (renames : list RenameOp) (fs : node) : node * option error :=
  match renames with
  | [] => (fs, None)
  | value :: rest =>
      match Rename (Old value) (New value) fs with
      | inr e => (fs, Some (CouldntRename (Old value) (New value) e))
      | inl fs' => rename_loop rest fs'
      end
  end.

Definition renameDirs (dir : path) (replace : string) (reg : Regexp)
  (ignoreMap : gmap string bool) (fs : node) : result (option error * node) :=
  renames ← Walk dir (renameDirs_visit dir replace reg ignoreMap) Slice.empty fs;
  let '(fs', err) := rename_loop (elems renames) fs in
  Ok (err, fs').

Definition replaceContents_visit (extMap ignoreMap : gmap string bool)
  : WalkFunc (slice path) :=
  fun path info err readPaths =>
    match info with
    | None => Panic "nil pointer dereference"
    | Some info =>
        let lname := ToLower (Name info) in
        if has_key ignoreMap lname && IsDir info
        then Ok (Some SkipDir, readPaths)
        else if IsDir info then Ok (None, readPaths)
        else
          let ext := Filepath.Ext (ToLower (Name info)) in
          if negb (has_key extMap ext) || (String.length ext =? 0)
          then Ok (None, readPaths)
          else Ok (None, append readPaths path)
    end.

Definition replaceContents (dir : path) (replace : string) (reg : Regexp)
  (extMap ignoreMap : gmap string bool) (fs : node)
  : result (option error * node) :=
  readPaths ← Walk dir (replaceContents_visit extMap ignoreMap) Slice.empty fs;
  reads ← brokerRead readPaths fs;
  writes ← brokerUpdate reads reg replace;
  fs' ← brokerWrite writes fs;
  Ok (None, fs').

Definition run (dir : path) (find replace ignoredirs textExtensions : string)
  (caseSensitive : bool) (fs : node) : result (option error * node) :=
  reg ← MustCompile (pattern_of find);
  let ignores := splitToMap (ToLower ignoredirs) "," "" in
  let extMap := splitToMap textExtensions "," "." in
  r ← renameDirs dir replace reg ignores fs;
  match r with
  | (Some err, fs') => Ok (Some err, fs')
  | (None, fs') => replaceContents dir replace reg extMap ignores fs'
  end.

Definition main (wd f r i exts : string) (c : bool) (fs : node) : result exit :=
  if bool_decide (wd = EmptyString) || bool_decide (f = EmptyString)
     || bool_decide (exts = EmptyString)
  then Ok ExitUsage
  else
    out ← run (Filepath.Join [] wd) f r (ignore_arg i) exts c fs;
    Ok (Finished (fst out) (snd out)).

End Program.
End Legacy.

(** * Statements

    Definitions used to state the properties: concrete inputs, and the
    reference notions the program is compared with. *)

Definition bytes (s : string) : list ascii := list_ascii_of_string s.

(** ** Inputs of the examples *)

(** A file called [.git], next to an ordinary file and inside a
    directory that is not ignored. *)
Definition tree_gitfile : node :=
  Dir [("proj", Dir [(".git", File (bytes "see git docs"));
                     ("notes.txt", File (bytes "git"))])].

(** A hundred files [a...af.txt] in one directory, in name order. *)
Fixpoint aname (n : nat) : string :=
  match n with
  | O => "f.txt"
  | S k => String "a"%char (aname k)
  end.

Definition hundred_files : list (string * node) :=
  map (fun i => (aname i, File (bytes "foo"))) (rev (seq 0 100)).

Definition tree_hundred : node := Dir [("root", Dir hundred_files)].

Definition paths_hundred : list path :=
  map (fun e => ["root"; fst e]) hundred_files.

(** A project with a [.git] directory and a [node_modules] directory,
    each holding a file whose name and contents have the search term. *)
Definition tree_vcs : node :=
  Dir [("proj", Dir [(".git", Dir [("foo.txt", File (bytes "foo"))]);
                     ("node_modules", Dir [("foo.txt", File (bytes "foo"))])])].

Definition tree_vcs_after : node :=
  Dir [("proj", Dir [(".git", Dir [("bar.txt", File (bytes "bar"))]);
                     ("node_modules", Dir [("bar.txt", File (bytes "bar"))])])].

(** ** Sequences of renames *)

(** The renames of [ops], in the order of the list, stopping at the first
    one that fails: the state reached and the failure, if any. *)
Fixpoint exec_renames (ops : list RenameOp) (fs : node) : node * option error :=
  match ops with
  | [] => (fs, None)
  | op :: rest =>
      match Rename (Old op) (New op) fs with
      | inr e => (fs, Some (CouldntRename (Old op) (New op) e))
      | inl fs' => exec_renames rest fs'
      end
  end.

(** The state after all the renames of [ops], if every one succeeds. *)
Fixpoint renames_applied (ops : list RenameOp) (fs : node) : option node :=
  match ops with
  | [] => Some fs
  | op :: rest =>
      match Rename (Old op) (New op) fs with
      | inr _ => None
      | inl fs' => renames_applied rest fs'
      end
  end.

(** A directory with a file and a sub-directory whose names both match
    [foo]; with an empty replacement the sub-directory would be renamed
    to nothing. *)
Definition tree_abort : node :=
  Dir [("root", Dir [("a", Dir [("foo", Dir [("xfoo.txt", File (bytes "foo"))])])])].

Definition tree_abort_after : node :=
  Dir [("root", Dir [("a", Dir [("foo", Dir [("x.txt", File (bytes "foo"))])])])].

(** ** Occurrences of a search term *)

(** The characters of the pattern syntax that [run] does not escape. *)
Definition special (c : ascii) : bool :=
  (match c with
   | "(" | ")" | "*" | "+" | "?" | "|" | "[" | "{" | "^" | "$" => true
   | _ => false
   end)%char.

(** A term of plain ASCII text: dots and backslashes allowed, none of the
    other characters of the pattern syntax. *)
Fixpoint literal_term (t : string) : bool :=
  match t with
  | EmptyString => true
  | String c t' => is_ascii7 c && negb (special c) && literal_term t'
  end.

Fixpoint ascii_text (s : string) : bool :=
  match s with
  | EmptyString => true
  | String c s' => is_ascii7 c && ascii_text s'
  end.

(** [t] occurs in [s] at offset [i], letter case apart. *)
Definition occurs_at (t s : string) (i : nat) : Prop :=
  i + String.length t <= String.length s
  /\ ToLower (String.substring i (String.length t) s) = ToLower t.

(** There is a line break in [s] at an offset from [i] up to [j - 1]. *)
Definition newline_between (s : string) (i j : nat) : Prop :=
  exists k, i <= k < j /\ String.get k s = Some "010"%char.

(** The text of the first occurrence of [t] in [s], letter case apart,
    as it stands in [s]. *)
Fixpoint first_occurrence (t s : string) : option string :=
  if HasPrefix (ToLower s) (ToLower t)
  then Some (String.substring 0 (String.length t) s)
  else match s with
       | EmptyString => None
       | String _ s' => first_occurrence t s'
       end.

(** What the two [Replace] calls of [run] do to the term, character by
    character. *)
Fixpoint escape (s : string) : string :=
  match s with
  | EmptyString => EmptyString
  | String c s' =>
      (if Ascii.eqb c "\"%char then "\\"
       else if Ascii.eqb c "."%char then "\."
       else String c EmptyString) +:+ escape s'
  end.

Fixpoint map_char (a : ascii) (new : string) (s : string) : string :=
  match s with
  | EmptyString => EmptyString
  | String x s' =>
      (if Ascii.eqb x a then new else String x EmptyString) +:+ map_char a new s'
  end.

(** The literals the parser pushes for a term, last character on top. *)
Fixpoint push_lits (t : string) (st : list item) : list item :=
  match t with
  | EmptyString => st
  | String c t' => push_lits t' (IRe (Lit (lower_ascii c) true) :: st)
  end.

Fixpoint lits_acc (t : string) (acc : list regex) : list regex :=
  match t with
  | EmptyString => acc
  | String c t' => lits_acc t' (Lit (lower_ascii c) true :: acc)
  end.

(** The expression [run] compiles for a literal term [t]. *)
Definition literal_prog (t : string) : regex :=
  Cat (Star AnyNotNL) (Cat (Capture 1 (collapse (lits_acc t []))) (Star AnyNotNL)).

(** [s] without its first [n] characters. *)
Fixpoint sdrop (n : nat) (s : string) : string :=
  match n, s with
  | S k, String _ s' => sdrop k s'
  | _, _ => s
  end.

(** The literals of [t], one after the other, then [k]. *)
Fixpoint match_lits (t : string) (k : cont) (s : string) (c : caps)
  : option (string * caps) :=
  match t with
  | EmptyString => k s c
  | String a t' =>
      match s with
      | String x s' =>
          if lit_eq true (lower_ascii a) x then match_lits t' k s' c else None
      | EmptyString => None
      end
  end.

(** The continuation of a whole match: what is left, and the groups. *)
Definition kfin : cont := fun rest c => Some (rest, c).

(** The text of the occurrence of [t] at the head of [s], if there is
    one. *)
Definition here (t s : string) : option string :=
  if HasPrefix (ToLower s) (ToLower t)
  then Some (String.substring 0 (String.length t) s)
  else None.

(** The last occurrence of [t] that starts on the first line of [s]. *)
Fixpoint last_on_line (t s : string) : option string :=
  match s with
  | EmptyString => here t s
  | String x s' =>
      if is_newline x then here t s
      else match last_on_line t s' with
           | Some f => Some f
           | None => here t s
           end
  end.

(** The occurrence the leftmost match captures: the last one on the
    first line that has one. *)
Fixpoint leftmost_match (t s : string) : option string :=
  match last_on_line t s with
  | Some f => Some f
  | None =>
      match s with
      | EmptyString => None
      | String _ s' => leftmost_match t s'
      end
  end.

(** ** What can be observed of a path *)

Inductive kind : Type :=
| KFile (contents : list ascii)
| KDir.

Definition kind_of (n : node) : kind :=
  match n with
  | File b => KFile b
  | Dir _ => KDir
  end.

(** What [Lstat] and [ReadFile] tell of a path: nothing, a directory, or
    a file and its bytes. *)
Definition stat (fs : node) (p : path) : option kind :=
  kind_of <$> lookup fs p.

(** ** The plan of renames, as a function of the tree *)

(** Every directory lists a name once. *)
Fixpoint names_unique (n : node) : bool :=
  match n with
  | File _ => true
  | Dir es =>
      bool_decide (NoDup (map fst es))
      && (fix all (es : list (string * node)) : bool :=
            match es with
            | [] => true
            | (_, ch) :: es' => names_unique ch && all es'
            end) es
  end.

Definition skipped (ignoreMap : gmap string bool) (name : string) (isdir : bool)
  : bool :=
  has_key ignoreMap (ToLower name) && isdir.

(** The name an entry called [name] is renamed to. *)
Definition newname (replace : string) (reg : Regexp) (name : string) : string :=
  match FindSubmatch reg name with
  | Some match0 => Replace name (default EmptyString (match0 !! 1)) replace
  | None => name
  end.

Definition rename_of (replace : string) (reg : Regexp) (p : path) (name : string)
  : list RenameOp :=
  match FindSubmatch reg name with
  | Some _ =>
      [mkRenameOp p (Filepath.Join (Filepath.Dir p) (newname replace reg name))]
  | None => []
  end.

(** The renames a walk of [n], found at [p] under [name], records, in
    the order of discovery. *)
Fixpoint plan (replace : string) (reg : Regexp) (ignoreMap : gmap string bool)
  (p : path) (name : string) (n : node) : list RenameOp :=
  match n with
  | File _ => rename_of replace reg p name
  | Dir es =>
      if skipped ignoreMap name true then []
      else rename_of replace reg p name
           ++ (fix children (es : list (string * node)) : list RenameOp :=
                 match es with
                 | [] => []
                 | (c, ch) :: es' =>
                     plan replace reg ignoreMap (p ++ [c]) c ch ++ children es'
                 end) es
  end.

Fixpoint plan_children (replace : string) (reg : Regexp)
  (ignoreMap : gmap string bool) (p : path) (es : list (string * node))
  : list RenameOp :=
  match es with
  | [] => []
  | (c, ch) :: es' =>
      plan replace reg ignoreMap (p ++ [c]) c ch
      ++ plan_children replace reg ignoreMap p es'
  end.

(** The loop of [walk] over the entries of a directory. *)
Fixpoint walk_entries {St : Type} (fn : WalkFunc St) (p : path)
  (es : list (string * node)) (st : St) : result (option werror * St) :=
  match es with
  | [] => Ok (None, st)
  | (c, ch) :: es' =>
      r' ← walk fn (p ++ [c]) c ch st;
      match r' with
      | (None, st') => walk_entries fn p es' st'
      | (Some SkipDir, st') =>
          if isDir ch then walk_entries fn p es' st' else Ok (Some SkipDir, st')
      | (Some e, st') => Ok (Some e, st')
      end
  end.

(** Every rename of the sequence finds its source in place when its turn
    comes. *)
Fixpoint sources_present (ops : list RenameOp) (fs : node) : Prop :=
  match ops with
  | [] => True
  | op :: rest =>
      is_Some (lookup fs (Old op))
      /\ match Rename (Old op) (New op) fs with
         | inl fs' => sources_present rest fs'
         | inr _ => True
         end
  end.

(** In discovery order, no entry found later is the entry found earlier
    or one of its parents. *)
Fixpoint ordered (l : list RenameOp) : Prop :=
  match l with
  | [] => True
  | x :: rest =>
      Forall (fun y => is_prefix (Old y) (Old x) = false) rest /\ ordered rest
  end.

(** In execution order, no rename moves the source of a later one. *)
Fixpoint exec_ordered (l : list RenameOp) : Prop :=
  match l with
  | [] => True
  | x :: rest =>
      Forall (fun y => is_prefix (Old x) (Old y) = false) rest /\ exec_ordered rest
  end.

(** The source of [op] is a path of [n], seen from [p]. *)
Definition source_in (p : path) (n : node) (op : RenameOp) : Prop :=
  exists rel, Old op = p ++ rel /\ is_Some (lookup n rel).

(** ** The tree after the renames *)

(** The tree with [f] applied to the node at [p]. *)
Fixpoint alter_at (p : path) (f : node -> node) (n : node) : node :=
  match p with
  | [] => f n
  | c :: p' =>
      match n with
      | Dir es => Dir (alter_entry c (alter_at p' f) es)
      | File _ => n
      end
  end.

Definition rm (c : string) (n : node) : node :=
  match n with
  | Dir es => Dir (remove_entry c es)
  | File _ => n
  end.

Definition put (c : string) (new : node) (n : node) : node :=
  match n with
  | Dir es => Dir (put_entry c new es)
  | File _ => n
  end.

(** A name that is one component of a path. *)
Fixpoint no_slash (s : string) : bool :=
  match s with
  | EmptyString => true
  | String a s' => negb (Ascii.eqb a "/"%char) && no_slash s'
  end.

Definition valid_name (c : string) : bool :=
  no_slash c && negb (bool_decide (c = EmptyString))
  && negb (bool_decide (c = ".")) && negb (bool_decide (c = "..")).

Section Renamed.
Variables (replace : string) (reg : Regexp) (ignoreMap : gmap string bool).

(** The name under which an entry is found after the renames. *)
Definition target (c : string) (isdir : bool) : string :=
  if skipped ignoreMap c isdir then c else newname replace reg c.

(** What the renames of one entry, [ch] under the name [c], make of the
    listing [L] of its directory, [ch'] being the entry with its own
    contents renamed. *)
Definition step (c : string) (ch ch' : node) (L : list (string * node))
  : list (string * node) :=
  if skipped ignoreMap c (isDir ch) then L
  else match FindSubmatch reg c with
       | Some _ => put_entry (newname replace reg c) ch' (remove_entry c L)
       | None => alter_entry c (fun _ => ch') L
       end.

(** The contents of an entry after the renames below it: every entry
    that is not skipped carries its new name and holds its own renamed
    contents. *)
Fixpoint renamed (n : node) : node :=
  match n with
  | File b => File b
  | Dir es =>
      Dir ((fix go (todo L : list (string * node)) : list (string * node) :=
              match todo with
              | [] => L
              | (c, ch) :: rest => step c ch (renamed ch) (go rest L)
              end) es es)
  end.

Fixpoint rename_entries (todo L : list (string * node)) : list (string * node) :=
  match todo with
  | [] => L
  | (c, ch) :: rest => step c ch (renamed ch) (rename_entries rest L)
  end.

(** An entry that is renamed gets a name that is a path component and
    that no entry of its directory has. *)
Definition fresh_name (c : string) (ch : node) (names : list string) : bool :=
  if skipped ignoreMap c (isDir ch) then true
  else match FindSubmatch reg c with
       | Some _ => valid_name (newname replace reg c)
                   && bool_decide (newname replace reg c ∉ names)
       | None => true
       end.

(** No two entries of a directory end up under one name, at any depth
    the walk reaches. *)
Fixpoint collision_free (n : node) : bool :=
  match n with
  | File _ => true
  | Dir es =>
      bool_decide (NoDup (map (fun e => target (fst e) (isDir (snd e))) es))
      && (fix all (todo : list (string * node)) : bool :=
            match todo with
            | [] => true
            | (c, ch) :: rest =>
                fresh_name c ch (map fst es)
                && (skipped ignoreMap c (isDir ch) || collision_free ch)
                && all rest
            end) es
  end.

(** What is asked of an entry [ch], listed as [c] in a directory whose
    entries are [L], for its renames to go through. *)
Definition entry_ok (c : string) (ch : node) (L : list (string * node)) : Prop :=
  assoc L c = Some ch
  /\ names_unique ch = true
  /\ (skipped ignoreMap c (isDir ch) = true \/ collision_free ch = true)
  /\ (skipped ignoreMap c (isDir ch) = false -> is_Some (FindSubmatch reg c) ->
      valid_name (newname replace reg c) = true /\ assoc L (newname replace reg c) = None).

(** The renames of a tree, run last-discovered first from a state in
    which the tree is the entry [c] of the directory [d], all succeed and
    change that one directory. *)
Definition entry_goal (ch : node) : Prop :=
  forall d c fs L,
    lookup fs d = Some (Dir L) ->
    entry_ok c ch L ->
    exec_renames (rev (plan replace reg ignoreMap (d ++ [c]) c ch)) fs
    = (alter_at d (fun _ => Dir (step c ch (renamed ch) L)) fs, None).

(** The path under which the entry at [q] below [n] is found after the
    renames. *)
Fixpoint newpath (n : node) (q : path) : path :=
  match q with
  | [] => []
  | c :: q' =>
      match n with
      | Dir es =>
          match assoc es c with
          | Some ch =>
              if skipped ignoreMap c (isDir ch) then c :: q'
              else newname replace reg c :: newpath ch q'
          | None => c :: q'
          end
      | File _ => c :: q'
      end
  end.

End Renamed.

(** Three directories nested in one another, each with the term in its
    name, and a file at the bottom. *)
Definition tree_chain : node :=
  Dir [("top", Dir [("aFoo", Dir [("bfoo", Dir [("cFOO", Dir [("foo.txt", File (bytes "foo"))])])])])].

Definition regexp_foo : Regexp :=
  mkRegexp (literal_prog "foo") 1.

(** A directory and a file in it whose names have the term in different
    letter case. *)
Definition tree_mixed : node :=
  Dir [("root", Dir [("Foo", Dir [("foo.txt", File (bytes "x"))])])].

(** ** The stages of the content pipeline, record by record *)

(** What [read] makes of one path. *)
Definition read_one (fs : node) (p : path) : option ReadOp :=
  if decide (p = []) then None
  else match ReadFile p fs with
       | inl b => Some (mkReadOp p b)
       | inr _ => None
       end.

(** What [update] makes of one record, when its contents match. *)
Definition write_for (reg : Regexp) (replace : string) (r : ReadOp) : option WriteOp :=
  match FindSubmatch reg (string_of_list_ascii (rContents r)) with
  | Some match0 =>
      Some (mkWriteOp (rPath r)
              (list_ascii_of_string
                 (Replace (string_of_list_ascii (rContents r))
                          (default EmptyString (match0 !! 1)) replace)))
  | None => None
  end.

(** Two files, one with the term in its contents and one without. *)
Definition tree_two_files : node :=
  Dir [("root", Dir [("a.txt", File (bytes "Hello OldName, oldname"));
                     ("b.txt", File (bytes "nothing here"))])].

(** ** The names a walk looks at *)




(** A file whose name has the term twice, in two letter cases. *)
Definition tree_twice : node :=
  Dir [("root", Dir [("fooFOO.txt", File (bytes "fooFOO"))])].


Definition tree_twice_twice : node :=
  Dir [("root", Dir [("xx.txt", File (bytes "xx"))])].

(** ** The groups of the pooled path *)

(** The [i]-th group of a list cut into groups of [k]. *)
Definition chunk {A : Type} {gt : GoType A} (items : slice A) (k i : nat) : slice A :=
  mkSlice (take k (drop (i * k) (backing items))) (capacity items - i * k).

(** Two hundred paths, as a walk over two hundred files collects them. *)
Definition paths_two_hundred : list path :=
  map (fun i => ["root"; aname i]) (rev (seq 0 200)).

(** A regular file called [.git] and, after it, a text file whose name
    has the term. *)
Definition tree_gitfile_sibling : node :=
  Dir [("proj", Dir [(".git", File (bytes "foo")); ("zfoo.txt", File (bytes "foo"))])].

(** ** The files a run reads *)

(** [s] has a dot. *)
Fixpoint has_dot (s : string) : bool :=
  match s with
  | EmptyString => false
  | String a s' => Ascii.eqb a "."%char || has_dot s'
  end.

(** The test [replaceContents] makes on the name of a file: its
    extension, in lower case, is a key of the map and is not empty. *)
Definition listed (extMap : gmap string bool) (name : string) : bool :=
  let ext := Filepath.Ext (ToLower name) in
  has_key extMap ext && negb (String.length ext =? 0).

(** The paths the walk of [replaceContents] collects from [n], found at
    [p] under [name], in the order of discovery. *)
Fixpoint files_of (extMap ignoreMap : gmap string bool) (p : path) (name : string)
  (n : node) : list path :=
  match n with
  | File _ => if listed extMap name then [p] else []
  | Dir es =>
      if skipped ignoreMap name true then []
      else (fix children (es : list (string * node)) : list path :=
              match es with
              | [] => []
              | (c, ch) :: es' =>
                  files_of extMap ignoreMap (p ++ [c]) c ch ++ children es'
              end) es
  end.

Fixpoint files_of_children (extMap ignoreMap : gmap string bool) (p : path)
  (es : list (string * node)) : list path :=
  match es with
  | [] => []
  | (c, ch) :: es' =>
      files_of extMap ignoreMap (p ++ [c]) c ch ++ files_of_children extMap ignoreMap p es'
  end.

(** The walk from [n], found under [name], gets to the entry at [rel]:
    no directory on the way, [n] included, is one it is told to skip. *)
Fixpoint reached (ignoreMap : gmap string bool) (name : string) (n : node)
  (rel : path) : bool :=
  match rel with
  | [] => true
  | c :: rel' =>
      match n with
      | Dir es =>
          negb (skipped ignoreMap name true)
          && match assoc es c with
             | Some ch => reached ignoreMap c ch rel'
             | None => false
             end
      | File _ => false
      end
  end.

(** The contents [update] gives a file whose bytes are [b]. *)
Definition rewritten (reg : Regexp) (replace : string) (b : list ascii) : list ascii :=
  match FindSubmatch reg (string_of_list_ascii b) with
  | Some match0 =>
      list_ascii_of_string
        (Replace (string_of_list_ascii b) (default EmptyString (match0 !! 1)) replace)
  | None => b
  end.

(** ** The array of a list built by [append] *)



(** ** Names *)

(** Every name listed in [n], at any depth, is free of [/]. *)
Fixpoint names_plain (n : node) : bool :=
  match n with
  | File _ => true
  | Dir es =>
      (fix all (es : list (string * node)) : bool :=
         match es with
         | [] => true
         | (c, ch) :: es' => no_slash c && names_plain ch && all es'
         end) es
  end.

(** A rename of an entry below [d] in the directory the entry is in:
    its new path is what [filepath.Join] makes of that directory and a new
    name free of [/]. *)
Definition renames_in_place (d : path) (op : RenameOp) : Prop :=
  exists rel nm c',
    Old op = d ++ rel ++ [nm]
    /\ no_slash c' = true
    /\ New op = Filepath.join_step (d ++ rel) c'.

(** ** The system calls of the writers *)

(** Two file systems show the same at every path. *)
Definition same_files (a b : node) : Prop := forall q, stat a q = stat b q.

(** The two calls [write] makes for a record. *)
Inductive syscall : Type :=
| SysRemove (p : path)
| SysWriteFile (p : path) (data : list ascii).

Definition path_of (op : syscall) : path :=
  match op with
  | SysRemove p => p
  | SysWriteFile p _ => p
  end.

(** A call as [write] makes it: a failure is printed and changes
    nothing. *)
Definition call (op : syscall) (fs : node) : node :=
  match op with
  | SysRemove p =>
      match Remove p fs with
      | inl fs' => fs'
      | inr _ => fs
      end
  | SysWriteFile p data =>
      match WriteFile p data fs with
      | inl fs' => fs'
      | inr _ => fs
      end
  end.

Definition calls_of (l : list WriteOp) : list syscall :=
  flat_map (fun w => [SysRemove (wPath w); SysWriteFile (wPath w) (wContents w)]) l.

Definition run_calls (tr : list syscall) (fs : node) : node :=
  fold_left (fun fs op => call op fs) tr fs.

(** [tr] is one way for workers to run side by side: every call of every
    worker, each worker's calls in its own order. *)
Inductive interleaving : list (list syscall) -> list syscall -> Prop :=
| interleaving_done (ls : list (list syscall)) :
    Forall (fun l => l = []) ls -> interleaving ls []
| interleaving_step (l1 : list (list syscall)) (op : syscall) (t : list syscall)
    (l2 : list (list syscall)) (tr : list syscall) :
    interleaving (l1 ++ t :: l2) tr ->
    interleaving (l1 ++ (op :: t) :: l2) (op :: tr).

(** What a call needs to change anything, and what it then leaves at and
    below its path. *)
Definition enabled (op : syscall) (fs : node) : Prop :=
  path_of op <> []
  /\ match op with
     | SysRemove p => forall c, stat fs (p ++ [c]) = None
     | SysWriteFile p _ =>
         stat fs p <> Some KDir /\ stat fs (Filepath.Dir p) = Some KDir
     end.

Definition effect (op : syscall) (q : path) : option kind :=
  match op with
  | SysRemove _ => None
  | SysWriteFile p data => stat (File data) (drop (length p) q)
  end.

(** Two paths of which one is empty or neither leads to the other. *)
Definition indep (p q : path) : Prop :=
  p = [] \/ q = [] \/ (is_prefix p q = false /\ is_prefix q p = false).

(** The calls of different workers are on paths that lie apart. *)
Definition workers_apart (ls : list (list syscall)) : Prop :=
  ForallOrdPairs
    (fun a b => forall x y, x ∈ a -> y ∈ b -> indep (path_of x) (path_of y)) ls.

(** * Properties *)

(** ** The case-sensitive flag *)

(** C9: the result of a run is the same whatever the value of the
    case-sensitive flag, in the current version and in the earlier one,
    from [main] or from [run]: the flag is handed to [run], which never
    reads it, and the pattern always opens with the [(?i:] group. *)
Theorem caseSensitive_flag_has_no_effect :
  forall (rt : Runtime) (wd : string) (dir : path)
         (find replace ignoredirs exts : string) (c1 c2 : bool) (fs : node),
    run dir find replace ignoredirs exts c1 fs
    = run dir find replace ignoredirs exts c2 fs
    /\ main wd find replace ignoredirs exts c1 fs
       = main wd find replace ignoredirs exts c2 fs
    /\ Legacy.run dir find replace ignoredirs exts c1 fs
       = Legacy.run dir find replace ignoredirs exts c2 fs
    /\ Legacy.main wd find replace ignoredirs exts c1 fs
       = Legacy.main wd find replace ignoredirs exts c2 fs
    /\ String.substring 0 4 (pattern_of find) = "(?i:"
    /\ String.substring 0 4 (Legacy.pattern_of find) = "(?i:".
Proof.
  intros. repeat split; reflexivity.
Qed.

(** ** The ignore set and files *)

Lemma walk_skipped_dir {St : Type} (fn : WalkFunc St) p name es st :
  fn p (Some (mkFileInfo name true)) None st = Ok (Some SkipDir, st) ->
  walk fn p name (Dir es) st = Ok (Some SkipDir, st).
Proof. intros Hfn. simpl. rewrite Hfn. reflexivity. Qed.

(** C10: a name of the ignore set is only skipped when it is the name of
    a directory.  On a regular file with such a name the two walks, in the
    current version and in the earlier one, answer what they answer on any
    file and never [SkipDir]: [renameDirs] records a rename if the name
    matches and nothing otherwise, [replaceContents] queues the file if
    its extension is listed and nothing otherwise, and the walk goes on
    to the entries that follow.  On a directory all four answer [SkipDir]
    and the walk does not enter it.  In a directory with a file [.git]
    and a file [zfoo.txt], with [.git] ignored, a run for [foo] rewrites
    the file [.git] and renames and rewrites [zfoo.txt]; a run for [git]
    renames the file [.git]. *)
Theorem ignore_set_applies_to_directories_only :
  forall (rt : Runtime) (replace : string) (reg : Regexp)
         (extMap ignoreMap : gmap string bool) (dir p : path) (name : string)
         (err : option errno)
         (renames : slice RenameOp) (readPaths : slice path),
    has_key ignoreMap (ToLower name) = true ->
    (forall match0 s,
        FindSubmatch reg name = Some match0 -> match0 !! 1 = Some s ->
        renameDirs_visit replace reg ignoreMap p (Some (mkFileInfo name false)) None renames
        = Ok (None, append renames
                      (mkRenameOp p (Filepath.Join (Filepath.Dir p) (Replace name s replace)))))
    /\ (has_key extMap (Filepath.Ext (ToLower name)) = true ->
        Filepath.Ext (ToLower name) <> EmptyString ->
        replaceContents_visit extMap ignoreMap p (Some (mkFileInfo name false)) None readPaths
        = Ok (None, append readPaths p))
    /\ (forall es,
        walk (renameDirs_visit replace reg ignoreMap) p name (Dir es) renames
        = Ok (Some SkipDir, renames)
        /\ walk (replaceContents_visit extMap ignoreMap) p name (Dir es) readPaths
           = Ok (Some SkipDir, readPaths))
    /\ (forall b,
        walk (renameDirs_visit replace reg ignoreMap) p name (File b) renames
        = match FindSubmatch reg name with
          | None => Ok (None, renames)
          | Some match0 =>
              s ← group1 match0;
              Ok (None, append renames
                          (mkRenameOp p (Filepath.Join (Filepath.Dir p)
                                           (Replace name s replace))))
          end)
    /\ (forall b,
        walk (replaceContents_visit extMap ignoreMap) p name (File b) readPaths
        = Ok (None, if listed extMap name then append readPaths p else readPaths))
    /\ (forall b,
        walk (Legacy.renameDirs_visit dir replace reg ignoreMap) p name (File b) renames
        = match FindSubmatch reg name with
          | None => Ok (None, renames)
          | Some match0 =>
              s ← group1 match0;
              let below :=
                Filepath.Join dir
                  (Replace (Replace (Filepath.to_string (Filepath.Dir p))
                                    (Filepath.to_string dir) "") s replace) in
              Ok (None, append renames
                          (mkRenameOp (Filepath.Join below name)
                                      (Filepath.Join below (Replace name s replace))))
          end)
    /\ (forall b,
        walk (Legacy.replaceContents_visit extMap ignoreMap) p name (File b) readPaths
        = Ok (None, if listed extMap name then append readPaths p else readPaths))
    /\ Legacy.renameDirs_visit dir replace reg ignoreMap p
         (Some (mkFileInfo name false)) err renames
       = Legacy.renameDirs_visit dir replace reg ∅ p
           (Some (mkFileInfo name false)) err renames
    /\ Legacy.replaceContents_visit extMap ignoreMap p
         (Some (mkFileInfo name false)) err readPaths
       = Legacy.replaceContents_visit extMap ∅ p
           (Some (mkFileInfo name false)) err readPaths
    /\ renameDirs_visit replace reg ignoreMap p
         (Some (mkFileInfo name false)) None renames
       = renameDirs_visit replace reg ∅ p (Some (mkFileInfo name false)) None renames
    /\ replaceContents_visit extMap ignoreMap p
         (Some (mkFileInfo name false)) None readPaths
       = replaceContents_visit extMap ∅ p (Some (mkFileInfo name false)) None readPaths
    /\ (forall es,
        walk (Legacy.renameDirs_visit dir replace reg ignoreMap) p name (Dir es) renames
        = Ok (Some SkipDir, renames)
        /\ walk (Legacy.replaceContents_visit extMap ignoreMap) p name (Dir es) readPaths
           = Ok (Some SkipDir, readPaths))
    /\ run (rt := go_runtime) ["proj"] "foo" "bar" ".git" "git,txt" false tree_gitfile_sibling
       = Ok (None, Dir [("proj", Dir [(".git", File (bytes "bar"));
                                      ("zbar.txt", File (bytes "bar"))])])
    /\ Legacy.run (rt := go_runtime) ["proj"] "foo" "bar" ".git" "git,txt" false tree_gitfile_sibling
       = Ok (None, Dir [("proj", Dir [(".git", File (bytes "bar"));
                                      ("zbar.txt", File (bytes "bar"))])])
    /\ run (rt := go_runtime) ["proj"] "git" "hub" ".git" "git,txt" false tree_gitfile_sibling
       = Ok (None, Dir [("proj", Dir [(".hub", File (bytes "foo"));
                                      ("zfoo.txt", File (bytes "foo"))])])
    /\ Legacy.run (rt := go_runtime) ["proj"] "git" "hub" ".git" "git,txt" false tree_gitfile_sibling
       = Ok (None, Dir [("proj", Dir [(".hub", File (bytes "foo"));
                                      ("zfoo.txt", File (bytes "foo"))])]).
Proof.
  intros rt replace reg extMap ignoreMap dir p name err renames readPaths Hkey.
  assert (Hq : forall m : gmap string bool,
             has_key m (ToLower name) && false = false)
    by (intros m; apply andb_false_r).
  assert (Hlisted : forall A (x y : A),
             (if negb (has_key extMap (Filepath.Ext (ToLower name)))
                 || (String.length (Filepath.Ext (ToLower name)) =? 0)
              then y else x)
             = (if listed extMap name then x else y)).
  { intros A x y. unfold listed.
    destruct (has_key extMap (Filepath.Ext (ToLower name)));
      destruct (String.length (Filepath.Ext (ToLower name)) =? 0); reflexivity. }
  split; [|split; [|split]].
  - intros match0 s Hm Hs. unfold renameDirs_visit. simpl.
    rewrite Hkey, Hm. simpl. unfold group1. rewrite Hs. reflexivity.
  - intros Hext Hne. unfold replaceContents_visit. simpl.
    rewrite Hkey, Hext. simpl.
    destruct (Filepath.Ext (ToLower name)) eqn:E; [congruence|reflexivity].
  - intros es. split; apply walk_skipped_dir; simpl;
      unfold renameDirs_visit, replaceContents_visit; simpl;
      rewrite Hkey; reflexivity.
  - split; [|split; [|split; [|split]]].
    + intros b. cbn [walk]. unfold renameDirs_visit. cbn [Name IsDir].
      rewrite Hq. reflexivity.
    + intros b. cbn [walk]. unfold replaceContents_visit. cbn [Name IsDir].
      rewrite Hq. cbv zeta. rewrite <- Hlisted.
      destruct (negb _ || _); reflexivity.
    + intros b. cbn [walk]. unfold Legacy.renameDirs_visit. cbn [Name IsDir].
      rewrite Hq. reflexivity.
    + intros b. cbn [walk]. unfold Legacy.replaceContents_visit. cbn [Name IsDir].
      rewrite Hq. cbv zeta. rewrite <- Hlisted.
      destruct (negb _ || _); reflexivity.
    + split; [|split; [|split; [|split]]].
      * unfold Legacy.renameDirs_visit. cbn [Name IsDir]. rewrite !Hq. reflexivity.
      * unfold Legacy.replaceContents_visit. cbn [Name IsDir]. rewrite !Hq. reflexivity.
      * unfold renameDirs_visit. cbn [Name IsDir]. rewrite !Hq. reflexivity.
      * unfold replaceContents_visit. cbn [Name IsDir]. rewrite !Hq. reflexivity.
      * split.
        { intros es. split; apply walk_skipped_dir;
            unfold Legacy.renameDirs_visit, Legacy.replaceContents_visit;
            cbn [Name IsDir]; rewrite Hkey; reflexivity. }
        repeat split; vm_compute; reflexivity.
Qed.

Lemma ignore_set_applies_to_directories_only_witness :
  has_key (splitToMap (ToLower defaultIgnores) "," "") (ToLower ".git") = true
  /\ renameDirs_visit (rt := go_runtime) "hub" (mkRegexp (Capture 1 (Lit "g" true)) 1)
       (splitToMap (ToLower defaultIgnores) "," "") ["proj"; ".git"]
       (Some (mkFileInfo ".git" false)) None Slice.empty
     = Ok (None, append (rt := go_runtime) Slice.empty
                   (mkRenameOp ["proj"; ".git"] ["proj"; ".hubit"])).
Proof.
  split; [vm_compute; reflexivity|].
  destruct (ignore_set_applies_to_directories_only go_runtime "hub"
              (mkRegexp (Capture 1 (Lit "g" true)) 1) ∅
              (splitToMap (ToLower defaultIgnores) "," "") ["proj"] ["proj"; ".git"]
              ".git" None
              Slice.empty Slice.empty ltac:(vm_compute; reflexivity)) as [Hfile _].
  rewrite (Hfile ["g"; "g"] "g") by (vm_compute; reflexivity).
  vm_compute. reflexivity.
Defined.

(** ** The ignore list *)

(** C5 fails on the code: [main] glues the user's list to the built-in
    one without a comma.  With [-i node_modules] the list handed to [run]
    is [.vs,.gitnode_modules], so neither [.git] nor [node_modules] is in
    the ignore set, and both directories are entered and rewritten; a
    list that merely starts with the built-in text, such as [.vs,.github],
    is taken as it is and has no [.git] either. *)
Theorem ignore_list_join_drops_git :
  ignore_arg "node_modules" = ".vs,.gitnode_modules"
  /\ (let ignores := splitToMap (ToLower (ignore_arg "node_modules")) "," "" in
      ignores !! ".git" = None /\ ignores !! "node_modules" = None
      /\ ignores !! ".vs" = Some true /\ ignores !! ".gitnode_modules" = Some true)
  /\ (let ignores := splitToMap (ToLower (ignore_arg ".vs,.github")) "," "" in
      ignores !! ".git" = None /\ ignores !! ".github" = Some true)
  /\ main (rt := go_runtime) "proj" "foo" "bar" "node_modules" "txt" false tree_vcs
     = Ok (Finished None tree_vcs_after)
  /\ Legacy.main (rt := go_runtime) "proj" "foo" "bar" "node_modules" "txt" false tree_vcs
     = Ok (Finished None tree_vcs_after).
Proof. vm_compute. repeat split; reflexivity. Qed.

(** ** Special characters in the search term *)

(** C7 fails on the code: [run] escapes the backslash and the dot (the
    earlier version the dot only) and hands every other character to the
    pattern compiler as it is.  In the pattern built for the term
    [a+b] the plus sign is a repetition: the pattern does not match the
    name [a+b.txt] and does match [aab.txt]; the term [c++] does not compile and the program
    panics. *)
Theorem metacharacters_reach_the_pattern :
  pattern_of "a+b" = "(?i:.*(a+b).*)"
  /\ Legacy.pattern_of "a+b" = "(?i:.*(a+b).*)"
  /\ (exists re, MustCompile (pattern_of "a+b") = Ok re
                 /\ FindSubmatch re "a+b.txt" = None
                 /\ FindSubmatch re "aab.txt" = Some ["aab.txt"; "ab"])
  /\ MustCompile (pattern_of "c++") = Panic "regexp: Compile: error parsing regexp"
  /\ MustCompile (Legacy.pattern_of "c++") = Panic "regexp: Compile: error parsing regexp"
  /\ (forall (rt : Runtime) dir replace ignoredirs exts c fs,
         run dir "c++" replace ignoredirs exts c fs
         = Panic "regexp: Compile: error parsing regexp").
Proof.
  split; [reflexivity|]. split; [reflexivity|].
  split; [eexists; repeat split; vm_compute; reflexivity|].
  repeat split; reflexivity.
Qed.

(** ** The worker pool *)

(** C3 fails on the code: the groups are cut as
    [list[i*groupSize : (i+1)*groupSize]] with
    [groupSize = len(list)/48 + 1], so the 48 groups reach past the
    length of the list and are only in range while [48 * groupSize] fits
    the capacity.  A hundred paths appended one by one sit in an array of
    128; [groupSize] is 3 and the 43rd group, [list[126:129]], is out of
    range: [brokerRead] panics, and so does a run over a hundred eligible
    files. *)
Theorem pooled_partition_out_of_range :
  let readPaths := drain (rt := go_runtime) paths_hundred in
  len readPaths = 100 /\ capacity readPaths = 128
  /\ pooled readPaths = true
  /\ sub readPaths (42 * (100 / GOPROCESSES + 1)) (43 * (100 / GOPROCESSES + 1)) = None
  /\ (forall fs, brokerRead (rt := go_runtime) readPaths fs
                 = Panic "slice bounds out of range")
  /\ run (rt := go_runtime) ["root"] "foo" "bar" defaultIgnores "txt" false tree_hundred
     = Panic "slice bounds out of range"
  /\ Legacy.run (rt := go_runtime) ["root"] "foo" "bar" defaultIgnores "txt" false tree_hundred
     = Panic "slice bounds out of range".
Proof.
  cbv zeta.
  split; [vm_compute; reflexivity|]. split; [vm_compute; reflexivity|].
  split; [vm_compute; reflexivity|]. split; [vm_compute; reflexivity|].
  split.
  - intros fs. unfold brokerRead.
    replace (pooled (drain paths_hundred)) with true by (vm_compute; reflexivity).
    replace (groups (drain paths_hundred))
      with (@Panic (list (slice path)) "slice bounds out of range")
      by (vm_compute; reflexivity).
    reflexivity.
  - split; vm_compute; reflexivity.
Qed.

(** ** Failure of a rename *)

Lemma rename_loop_exec (l : list RenameOp) (n : nat) (fs : node) :
  n <= length l ->
  rename_loop l n fs = exec_renames (rev (take n l)) fs.
Proof.
  revert fs. induction n as [|i IH]; intros fs Hn; [reflexivity|].
  destruct (lookup_lt_is_Some_2 l i ltac:(lia)) as [value Hv].
  rewrite (take_S_r _ _ _ Hv), rev_unit. simpl. rewrite Hv.
  destruct (Rename (Old value) (New value) fs); [|reflexivity].
  apply IH. lia.
Qed.

Lemma rename_loop_all (l : list RenameOp) (fs : node) :
  rename_loop l (length l) fs = exec_renames (rev l) fs.
Proof. rewrite rename_loop_exec by lia. rewrite firstn_all. reflexivity. Qed.

Lemma legacy_rename_loop_exec (l : list RenameOp) (fs : node) :
  Legacy.rename_loop l fs = exec_renames l fs.
Proof.
  revert fs. induction l as [|op l IH]; intros fs; [reflexivity|].
  simpl. destruct (Rename (Old op) (New op) fs); [apply IH|reflexivity].
Qed.

Lemma exec_renames_stops (done rest : list RenameOp) (value : RenameOp)
  (fs fs1 : node) (e : errno) :
  renames_applied done fs = Some fs1 ->
  Rename (Old value) (New value) fs1 = inr e ->
  exec_renames (done ++ value :: rest) fs
  = (fs1, Some (CouldntRename (Old value) (New value) e)).
Proof.
  revert fs. induction done as [|op done IH]; intros fs Hd Hr; simpl in *.
  - injection Hd as ->. rewrite Hr. reflexivity.
  - destruct (Rename (Old op) (New op) fs); [|discriminate]. apply IH; assumption.
Qed.

Lemma exec_renames_applied (ops : list RenameOp) (fs fs' : node) :
  renames_applied ops fs = Some fs' <-> exec_renames ops fs = (fs', None).
Proof.
  revert fs. induction ops as [|op ops IH]; intros fs; simpl.
  - split; intros H; injection H as ->; reflexivity.
  - destruct (Rename (Old op) (New op) fs); [apply IH|].
    split; discriminate.
Qed.

(** C8: when a rename fails, the run stops there.  The renames are
    executed last-discovered first; if those before the failing one
    succeed and lead to the state [fs1], then [renameDirs] returns the
    failure with the original directory, and [run] returns that failure
    with the state [fs1]: the renames already applied stay applied, the
    remaining ones are not attempted and the contents are not touched. *)
Theorem rename_failure_aborts_the_run :
  forall (rt : Runtime) (dir : path) (find replace ignoredirs exts : string)
         (c : bool) (fs : node) (reg : Regexp) (renames : slice RenameOp)
         (done rest : list RenameOp) (value : RenameOp) (fs1 : node) (e : errno),
    MustCompile (pattern_of find) = Ok reg ->
    Walk dir (renameDirs_visit replace reg (splitToMap (ToLower ignoredirs) "," ""))
         Slice.empty fs = Ok renames ->
    rev (elems renames) = done ++ value :: rest ->
    renames_applied done fs = Some fs1 ->
    Rename (Old value) (New value) fs1 = inr e ->
    renameDirs dir replace reg (splitToMap (ToLower ignoredirs) "," "") fs
    = Ok (dir, Some (CouldntRename (Old value) (New value) e), fs1)
    /\ run dir find replace ignoredirs exts c fs
       = Ok (Some (CouldntRename (Old value) (New value) e), fs1).
Proof.
  intros rt dir find replace ignoredirs exts c fs reg renames done rest value
         fs1 e Hreg Hwalk Hrev Hdone Hfail.
  assert (Hrd : renameDirs dir replace reg (splitToMap (ToLower ignoredirs) "," "") fs
                = Ok (dir, Some (CouldntRename (Old value) (New value) e), fs1)).
  { unfold renameDirs. rewrite Hwalk. simpl. unfold len.
    rewrite rename_loop_all, Hrev.
    rewrite (exec_renames_stops done rest value fs fs1 e Hdone Hfail).
    reflexivity. }
  split; [exact Hrd|].
  unfold run. rewrite Hreg. simpl. rewrite Hrd. reflexivity.
Qed.

Lemma rename_failure_aborts_the_run_witness :
  run (rt := go_runtime) ["root"] "foo" "" defaultIgnores "txt" false tree_abort
  = Ok (Some (CouldntRename ["root"; "a"; "foo"] ["root"; "a"] EEXIST),
        tree_abort_after).
Proof.
  refine (proj2 (rename_failure_aborts_the_run go_runtime ["root"] "foo" ""
            defaultIgnores "txt" false tree_abort
            (mkRegexp (Cat (Star AnyNotNL)
                        (Cat (Capture 1 (Cat (Lit "f" true)
                                           (Cat (Lit "o" true) (Lit "o" true))))
                             (Star AnyNotNL))) 1)
            (mkSlice [mkRenameOp ["root"; "a"; "foo"] ["root"; "a"];
                      mkRenameOp ["root"; "a"; "foo"; "xfoo.txt"]
                                 ["root"; "a"; "foo"; "x.txt"]] 2)
            [mkRenameOp ["root"; "a"; "foo"; "xfoo.txt"] ["root"; "a"; "foo"; "x.txt"]]
            [] (mkRenameOp ["root"; "a"; "foo"] ["root"; "a"])
            tree_abort_after EEXIST _ _ _ _ _)); vm_compute; reflexivity.
Defined.

(** The earlier version stops in the same way, on its own order. *)
Lemma legacy_rename_failure_aborts_the_run :
  forall (rt : Runtime) (dir : path) (find replace ignoredirs exts : string)
         (c : bool) (fs : node) (reg : Regexp) (renames : slice RenameOp)
         (done rest : list RenameOp) (value : RenameOp) (fs1 : node) (e : errno),
    MustCompile (Legacy.pattern_of find) = Ok reg ->
    Walk dir (Legacy.renameDirs_visit dir replace reg
                (splitToMap (ToLower ignoredirs) "," "")) Slice.empty fs = Ok renames ->
    elems renames = done ++ value :: rest ->
    renames_applied done fs = Some fs1 ->
    Rename (Old value) (New value) fs1 = inr e ->
    Legacy.run dir find replace ignoredirs exts c fs
    = Ok (Some (CouldntRename (Old value) (New value) e), fs1).
Proof.
  intros rt dir find replace ignoredirs exts c fs reg renames done rest value
         fs1 e Hreg Hwalk Hl Hdone Hfail.
  unfold Legacy.run. rewrite Hreg. simpl.
  unfold Legacy.renameDirs. rewrite Hwalk. simpl.
  rewrite legacy_rename_loop_exec, Hl.
  rewrite (exec_renames_stops done rest value fs fs1 e Hdone Hfail).
  reflexivity.
Qed.
(** ** The pattern of a literal term *)

Lemma app_cons (x : ascii) (a b : string) : String x a +:+ b = String x (a +:+ b).
Proof. reflexivity. Qed.

Lemma app_nil_l (b : string) : EmptyString +:+ b = b.
Proof. reflexivity. Qed.

Lemma app_assoc_s (a b c : string) : (a +:+ b) +:+ c = a +:+ (b +:+ c).
Proof.
  induction a as [|x a IH]; [reflexivity|].
  rewrite !app_cons, IH. reflexivity.
Qed.

Lemma ToLower_app (a b : string) : ToLower (a +:+ b) = ToLower a +:+ ToLower b.
Proof.
  induction a as [|x a IH]; [reflexivity|].
  rewrite app_cons. simpl. rewrite IH. reflexivity.
Qed.

Lemma lower_ascii_idem (a : ascii) : lower_ascii (lower_ascii a) = lower_ascii a.
Proof. destruct a as [[] [] [] [] [] [] [] []]; reflexivity. Qed.

Lemma replace_go_char (a : ascii) (new s : string) :
  Strings.replace_go (String a EmptyString) new 0 s = map_char a new s.
Proof.
  induction s as [|x s IH]; [reflexivity|].
  simpl. destruct (Ascii.eqb x a); rewrite IH; reflexivity.
Qed.

Lemma Replace_escape (find : string) :
  Replace (Replace find "\" "\\") "." "\." = escape find.
Proof.
  unfold Replace. rewrite !replace_go_char.
  induction find as [|c find IH]; [reflexivity|].
  cbn [escape map_char]. rewrite <- IH. clear IH.
  destruct (Ascii.eqb c "\"%char) eqn:E1.
  - apply Ascii.eqb_eq in E1. subst c. reflexivity.
  - rewrite app_cons, app_nil_l. cbn [map_char].
    destruct (Ascii.eqb c "."%char) eqn:E2; reflexivity.
Qed.

Lemma pattern_of_escape (find : string) :
  pattern_of find = "(?i:.*(" +:+ ToLower (escape find) +:+ ").*)".
Proof. unfold pattern_of. rewrite Replace_escape. reflexivity. Qed.

(** One plain character of the pattern text is one literal. *)
Lemma parse_go_plain (c : ascii) (p : parser) (t : string) :
  special c = false -> Ascii.eqb c "\"%char = false -> Ascii.eqb c "."%char = false ->
  parse_go p (String (lower_ascii c) t)
  = parse_go (push (IRe (Lit (lower_ascii c) (foldCase p))) p) t.
Proof.
  destruct c as [[] [] [] [] [] [] [] []]; intros H1 H2 H3;
    try discriminate H1; try discriminate H2; try discriminate H3; reflexivity.
Qed.

Lemma parse_go_literal (find : string) :
  literal_term find = true ->
  forall (st : list item) (n : nat) (lr : bool) (rest : string),
  exists lr',
    parse_go (mkParser st true n lr) (ToLower (escape find) +:+ rest)
    = parse_go (mkParser (push_lits find st) true n lr') rest.
Proof.
  induction find as [|c find IH]; intros Hlit st n lr rest.
  - exists lr. reflexivity.
  - simpl in Hlit. apply andb_prop in Hlit as [Hc Hlit].
    apply andb_prop in Hc as [_ Hsp]. apply negb_true_iff in Hsp.
    specialize (IH Hlit).
    cbn [escape push_lits].
    destruct (Ascii.eqb c "\"%char) eqn:E1.
    { apply Ascii.eqb_eq in E1. subst c.
      change (lower_ascii "\"%char) with "\"%char.
      destruct (IH (IRe (Lit "\"%char true) :: st) n false rest) as [lr' IH'].
      exists lr'. rewrite <- IH'. reflexivity. }
    destruct (Ascii.eqb c "."%char) eqn:E2.
    { apply Ascii.eqb_eq in E2. subst c.
      change (lower_ascii "."%char) with "."%char.
      destruct (IH (IRe (Lit "."%char true) :: st) n false rest) as [lr' IH'].
      exists lr'. rewrite <- IH'. reflexivity. }
    destruct (IH (IRe (Lit (lower_ascii c) true) :: st) n false rest) as [lr' IH'].
    exists lr'. rewrite <- IH'.
    rewrite app_cons, app_nil_l. cbn [ToLower]. rewrite app_cons.
    rewrite (parse_go_plain c _ _ Hsp E1 E2). reflexivity.
Qed.

Lemma operands_push_lits (find : string) (st : list item) :
  operands (push_lits find st)
  = (lits_acc find (fst (operands st)), snd (operands st)).
Proof.
  revert st. induction find as [|c find IH]; intros st.
  - simpl. destruct (operands st); reflexivity.
  - cbn [push_lits lits_acc]. rewrite IH. simpl.
    destruct (operands st); reflexivity.
Qed.

Lemma first_char_not_quest (find rest : string) :
  literal_term find = true ->
  exists x t, ToLower (escape find) +:+ String ")" rest = String x t
              /\ Ascii.eqb x "?"%char = false.
Proof.
  destruct find as [|c find]; intros Hlit.
  - eexists _, _. split; reflexivity.
  - simpl in Hlit. apply andb_prop in Hlit as [Hc _].
    apply andb_prop in Hc as [_ Hsp]. apply negb_true_iff in Hsp.
    cbn [escape].
    destruct (Ascii.eqb c "\"%char) eqn:E1; [eexists _, _; split; reflexivity|].
    destruct (Ascii.eqb c "."%char) eqn:E2; [eexists _, _; split; reflexivity|].
    rewrite app_cons, app_nil_l. cbn [ToLower]. rewrite app_cons.
    eexists _, _. split; [reflexivity|].
    destruct c as [[] [] [] [] [] [] [] []]; try discriminate Hsp; reflexivity.
Qed.

(** The pattern of a literal term compiles, to [literal_prog]. *)
Lemma Compile_literal (find : string) :
  literal_term find = true ->
  Compile (pattern_of find) = Compiled (mkRegexp (literal_prog find) 1).
Proof.
  intros Hlit. rewrite pattern_of_escape. unfold Compile.
  destruct (first_char_not_quest find ".*)" Hlit) as (x & t & Hx & Hq).
  change ("(?i:.*(" +:+ ToLower (escape find) +:+ ").*)")
    with (String "(" (String "?" (String "i" (String ":" (String "." (String "*"
           (String "(" (ToLower (escape find) +:+ String ")" ".*)")))))))).
  rewrite Hx.
  transitivity (parse_go (mkParser [IRe (Star AnyNotNL); ILeftParen 0 false] true 0 true)
                  (String "(" (String x t))); [reflexivity|].
  assert (Hstep : forall p, parse_go p (String "(" (String x t))
            = parse_go (mkParser (ILeftParen (S (numCap p)) (foldCase p) :: stack p)
                          (foldCase p) (S (numCap p)) false) (String x t)).
  { intros p. destruct x as [[] [] [] [] [] [] [] []]; try discriminate Hq; reflexivity. }
  rewrite Hstep. cbn [numCap foldCase stack]. rewrite <- Hx.
  destruct (parse_go_literal find Hlit
              [ILeftParen 1 true; IRe (Star AnyNotNL); ILeftParen 0 false] 1 false
              (String ")" ".*)")) as [lr' ->].
  cbn [parse_go]. unfold parseRightParen, concat. cbn [stack].
  rewrite operands_push_lits. cbn. reflexivity.
Qed.
(** ** How the literal pattern matches *)

Lemma m_fold_cat (rest : list regex) :
  forall (acc : regex) (k : cont) (s : string) (c : caps),
    m (fold_left (fun acc x => Cat x acc) rest acc) k s c
    = fold_left (fun kk r => m r kk) rest (m acc k) s c.
Proof.
  induction rest as [|x rest IH]; intros acc k s c; [reflexivity|].
  simpl. rewrite IH. reflexivity.
Qed.

Lemma m_collapse (rs : list regex) (k : cont) (s : string) (c : caps) :
  m (collapse rs) k s c = fold_left (fun kk r => m r kk) rs k s c.
Proof.
  destruct rs as [|r rest]; [reflexivity|].
  unfold collapse. rewrite m_fold_cat. reflexivity.
Qed.

Lemma m_lits_acc (t : string) :
  forall (acc : list regex) (k : cont) (s : string) (c : caps),
    fold_left (fun kk r => m r kk) (lits_acc t acc) k s c
    = fold_left (fun kk r => m r kk) acc (match_lits t k) s c.
Proof.
  induction t as [|a t IH]; intros acc k s c; [reflexivity|].
  cbn [lits_acc]. rewrite IH. reflexivity.
Qed.

Lemma m_literals (t : string) (k : cont) (s : string) (c : caps) :
  m (collapse (lits_acc t [])) k s c = match_lits t k s c.
Proof. rewrite m_collapse, m_lits_acc. reflexivity. Qed.

Lemma lit_eq_fold (a x : ascii) :
  lit_eq true (lower_ascii a) x = Ascii.eqb (lower_ascii x) (lower_ascii a).
Proof. unfold lit_eq. rewrite lower_ascii_idem. apply Ascii.eqb_sym. Qed.

Lemma match_lits_prefix (t : string) :
  forall (k : cont) (s : string) (c : caps),
    match_lits t k s c
    = if HasPrefix (ToLower s) (ToLower t)
      then k (sdrop (String.length t) s) c else None.
Proof.
  induction t as [|a t IH]; intros k s c; [destruct s; reflexivity|].
  destruct s as [|x s]; [reflexivity|].
  cbn [match_lits ToLower HasPrefix String.length sdrop].
  rewrite lit_eq_fold. destruct (Ascii.eqb _ _); [apply IH|reflexivity].
Qed.

Lemma star_any_step (k : cont) (s : string) (c : caps) :
  star (m AnyNotNL) k (S (String.length s)) s c
  = match s with
    | EmptyString => k s c
    | String x s' =>
        if is_newline x then k s c
        else match star (m AnyNotNL) k (S (String.length s')) s' c with
             | Some r => Some r
             | None => k s c
             end
    end.
Proof.
  destruct s as [|x s']; [reflexivity|].
  cbn [star m]. destruct (is_newline x); [reflexivity|].
  cbn [String.length].
  replace (String.length s' <? S (String.length s')) with true
    by (symmetry; apply Nat.ltb_lt; lia).
  reflexivity.
Qed.
Lemma star_any_final (s : string) (c : caps) :
  exists rest, star (m AnyNotNL) kfin (S (String.length s)) s c = Some (rest, c).
Proof.
  induction s as [|x s IH]; [exists EmptyString; reflexivity|].
  rewrite star_any_step. destruct (is_newline x); [eexists; reflexivity|].
  destruct IH as [rest ->]. eexists; reflexivity.
Qed.

Lemma length_sdrop (n : nat) (s : string) :
  String.length (sdrop n s) = String.length s - n.
Proof.
  revert s. induction n as [|n IH]; intros s; destruct s as [|x s]; simpl; auto.
Qed.

Lemma length_ToLower (s : string) : String.length (ToLower s) = String.length s.
Proof. induction s as [|x s IH]; simpl; auto. Qed.

Lemma HasPrefix_length (s p : string) :
  HasPrefix s p = true -> String.length p <= String.length s.
Proof.
  revert s. induction p as [|b p IH]; intros s H; simpl; [lia|].
  destruct s as [|a s]; simpl in H; [discriminate|].
  destruct (Ascii.eqb a b); [|discriminate]. apply IH in H. simpl. lia.
Qed.

Lemma substring_0_length (s : string) : String.substring 0 (String.length s) s = s.
Proof. induction s as [|x s IH]; simpl; [reflexivity|]. rewrite IH. reflexivity. Qed.

(** An occurrence at the head of [s] is a prefix of the lowered texts. *)
Lemma HasPrefix_occurs (t s : string) :
  HasPrefix (ToLower s) (ToLower t) = true <-> occurs_at t s 0.
Proof.
  unfold occurs_at. revert s. induction t as [|a t IH]; intros s.
  - simpl. split; [|reflexivity]. intros _. split; [lia|].
    destruct s; reflexivity.
  - destruct s as [|x s]; simpl.
    + split; [discriminate|]. intros [H _]. lia.
    + destruct (Ascii.eqb (lower_ascii x) (lower_ascii a)) eqn:E.
      * apply Ascii.eqb_eq in E. rewrite IH. simpl.
        split.
        -- intros [H1 H2]. split; [lia|]. rewrite E, H2. reflexivity.
        -- intros [H1 H2]. split; [lia|]. congruence.
      * apply Ascii.eqb_neq in E. split; [discriminate|].
        intros [_ H]. congruence.
Qed.

Lemma here_spec (t s : string) :
  match here t s with
  | Some f => f = String.substring 0 (String.length t) s /\ occurs_at t s 0
  | None => ~ occurs_at t s 0
  end.
Proof.
  unfold here. destruct (HasPrefix (ToLower s) (ToLower t)) eqn:E.
  - split; [reflexivity|]. apply HasPrefix_occurs. exact E.
  - intros H. apply HasPrefix_occurs in H. congruence.
Qed.

Lemma m_capture_then_any (r : regex) (k : cont) (s : string) (c : caps) :
  m (Cat (Capture 1 r) (Star AnyNotNL)) k s c
  = m r (fun s' c' =>
           star (m AnyNotNL) k (S (String.length s')) s'
                (<[1 := String.substring 0 (String.length s - String.length s') s]> c'))
      s c.
Proof. reflexivity. Qed.

Lemma m_literal_prog (t : string) (k : cont) (s : string) (c : caps) :
  m (literal_prog t) k s c
  = star (m AnyNotNL)
         (m (Cat (Capture 1 (collapse (lits_acc t []))) (Star AnyNotNL)) k)
         (S (String.length s)) s c.
Proof. reflexivity. Qed.

(** The capture and what follows it, at a given point of the input. *)
Lemma capture_here (t s : string) (c : caps) :
  match here t s with
  | Some f =>
      exists rest,
        m (Cat (Capture 1 (collapse (lits_acc t []))) (Star AnyNotNL)) kfin s c
        = Some (rest, <[1 := f]> c)
  | None =>
      m (Cat (Capture 1 (collapse (lits_acc t []))) (Star AnyNotNL)) kfin s c = None
  end.
Proof.
  rewrite m_capture_then_any, m_literals, match_lits_prefix. unfold here.
  destruct (HasPrefix (ToLower s) (ToLower t)) eqn:E; [|reflexivity].
  apply HasPrefix_length in E. rewrite !length_ToLower in E.
  rewrite length_sdrop.
  replace (String.length s - (String.length s - String.length t))
    with (String.length t) by lia.
  destruct (star_any_final (sdrop (String.length t) s)
              (<[1 := String.substring 0 (String.length t) s]> c)) as [rest Hr].
  exists rest. rewrite length_sdrop in Hr. exact Hr.
Qed.

Lemma greedy_last_on_line (t s : string) (c : caps) :
  match last_on_line t s with
  | Some f => exists rest, m (literal_prog t) kfin s c = Some (rest, <[1 := f]> c)
  | None => m (literal_prog t) kfin s c = None
  end.
Proof.
  rewrite m_literal_prog.
  induction s as [|x s IH].
  - rewrite star_any_step. cbn [last_on_line]. apply capture_here.
  - rewrite star_any_step. cbn [last_on_line].
    destruct (is_newline x); [apply capture_here|].
    destruct (last_on_line t s) as [f|].
    + destruct IH as [rest IH]. exists rest. rewrite IH. reflexivity.
    + rewrite IH. apply capture_here.
Qed.

Lemma FindSubmatch_leftmost (t s : string) :
  match leftmost_match t s with
  | Some f => exists whole, FindSubmatch (mkRegexp (literal_prog t) 1) s = Some [whole; f]
  | None => FindSubmatch (mkRegexp (literal_prog t) 1) s = None
  end.
Proof.
  induction s as [|x s IH]; cbn [leftmost_match FindSubmatch prog].
  - pose proof (greedy_last_on_line t EmptyString ∅) as H. unfold kfin in H.
    destruct (last_on_line t EmptyString) as [f|].
    + destruct H as [rest ->]. eexists. unfold submatches. cbn [NumSubexp seq map].
      rewrite lookup_insert_eq. reflexivity.
    + rewrite H. reflexivity.
  - pose proof (greedy_last_on_line t (String x s) ∅) as H. unfold kfin in H.
    destruct (last_on_line t (String x s)) as [f|].
    + destruct H as [rest ->]. eexists. unfold submatches. cbn [NumSubexp seq map].
      rewrite lookup_insert_eq. reflexivity.
    + rewrite H. exact IH.
Qed.
(** ** Which occurrence is captured *)

Lemma occurs_at_S (t s : string) (x : ascii) (j : nat) :
  occurs_at t (String x s) (S j) <-> occurs_at t s j.
Proof. unfold occurs_at. simpl. split; intros [H1 H2]; (split; [lia|exact H2]). Qed.

Lemma newline_between_S (s : string) (x : ascii) (i j : nat) :
  newline_between (String x s) (S i) (S j) <-> newline_between s i j.
Proof.
  unfold newline_between. split.
  - intros (k & Hk & Hg). destruct k as [|k]; [lia|].
    exists k. split; [lia|exact Hg].
  - intros (k & Hk & Hg). exists (S k). split; [lia|exact Hg].
Qed.

Lemma newline_between_0S (s : string) (x : ascii) (j : nat) :
  is_newline x = false ->
  newline_between (String x s) 0 (S j) <-> newline_between s 0 j.
Proof.
  intros Hx. unfold newline_between. split.
  - intros (k & Hk & Hg). destruct k as [|k].
    + simpl in Hg. injection Hg as ->. discriminate Hx.
    + exists k. split; [lia|exact Hg].
  - intros (k & Hk & Hg). exists (S k). split; [lia|exact Hg].
Qed.

Lemma newline_between_empty (s : string) (i : nat) : ~ newline_between s i i.
Proof. intros (k & Hk & _). lia. Qed.

Lemma substring_S (x : ascii) (s : string) (i n : nat) :
  String.substring (S i) n (String x s) = String.substring i n s.
Proof. reflexivity. Qed.

(** [last_on_line] picks the last of the occurrences that no line break
    separates from the start. *)
Lemma last_on_line_spec (t s : string) :
  match last_on_line t s with
  | Some f =>
      exists i, f = String.substring i (String.length t) s
                /\ occurs_at t s i
                /\ ~ newline_between s 0 i
                /\ forall j, occurs_at t s j -> j <= i \/ newline_between s 0 j
  | None => forall j, occurs_at t s j -> newline_between s 0 j
  end.
Proof.
  induction s as [|x s IH]; cbn [last_on_line].
  - pose proof (here_spec t EmptyString) as H.
    destruct (here t EmptyString) as [f|].
    + destruct H as [-> Ho]. exists 0. repeat split; try apply Ho.
      * apply newline_between_empty.
      * intros j [Hj _]. simpl in Hj. left. lia.
    + intros j Ho. destruct j as [|j]; [contradiction|].
      destruct Ho as [Hj _]. simpl in Hj. lia.
  - destruct (is_newline x) eqn:Hx.
    + pose proof (here_spec t (String x s)) as H.
      assert (Hnl : forall j, 0 < j -> newline_between (String x s) 0 j).
      { intros j Hj. exists 0. split; [lia|]. simpl.
        unfold is_newline in Hx. apply Ascii.eqb_eq in Hx. subst x. reflexivity. }
      destruct (here t (String x s)) as [f|].
      * destruct H as [-> Ho]. exists 0. repeat split; try apply Ho.
        -- apply newline_between_empty.
        -- intros j _. destruct j as [|j]; [left; lia|right; apply Hnl; lia].
      * intros j Ho. destruct j as [|j]; [contradiction|]. apply Hnl. lia.
    + destruct (last_on_line t s) as [f|].
      * destruct IH as (i & -> & Ho & Hn & Hmax).
        exists (S i). split; [reflexivity|]. split; [apply occurs_at_S; exact Ho|].
        split; [rewrite (newline_between_0S s x i Hx); exact Hn|].
        intros j Hj. destruct j as [|j]; [left; lia|].
        apply occurs_at_S in Hj. destruct (Hmax j Hj) as [Hle|Hnl].
        -- left. lia.
        -- right. apply (newline_between_0S s x j Hx). exact Hnl.
      * pose proof (here_spec t (String x s)) as H.
        destruct (here t (String x s)) as [f|].
        -- destruct H as [-> Ho]. exists 0. repeat split; try apply Ho.
           ++ apply newline_between_empty.
           ++ intros j Hj. destruct j as [|j]; [left; lia|].
              apply occurs_at_S in Hj. right.
              apply (newline_between_0S s x j Hx). apply IH. exact Hj.
        -- intros j Hj. destruct j as [|j]; [contradiction|].
           apply occurs_at_S in Hj.
           apply (newline_between_0S s x j Hx). apply IH. exact Hj.
Qed.

(** The occurrence the leftmost match captures: no occurrence starts
    before it on an earlier line, none starts after it on its line. *)
Lemma leftmost_match_spec (t s : string) :
  match leftmost_match t s with
  | Some f =>
      exists i, f = String.substring i (String.length t) s
                /\ occurs_at t s i
                /\ forall j, occurs_at t s j ->
                             (i < j -> newline_between s i j)
                             /\ (j < i -> ~ newline_between s j i)
  | None => forall j, ~ occurs_at t s j
  end.
Proof.
  induction s as [|x s IH]; cbn [leftmost_match];
    pose proof (last_on_line_spec t) as Hl.
  - specialize (Hl EmptyString). destruct (last_on_line t EmptyString) as [f|].
    + destruct Hl as (i & -> & Ho & Hn & Hmax). exists i.
      split; [reflexivity|]. split; [exact Ho|].
      intros j Hj. destruct Hj as [Hj _], Ho as [Hi _]. simpl in Hj, Hi.
      split; intros; lia.
    + intros j Hj. destruct (Hl j Hj) as (k & _ & Hg). discriminate Hg.
  - specialize (Hl (String x s)). destruct (last_on_line t (String x s)) as [f|].
    + destruct Hl as (i & -> & Ho & Hn & Hmax). exists i.
      split; [reflexivity|]. split; [exact Ho|].
      intros j Hj. split; intros Hij.
      * destruct (Hmax j Hj) as [Hle|(k & Hk & Hg)]; [lia|].
        exists k. split; [|exact Hg].
        destruct (le_lt_dec i k); [lia|]. exfalso. apply Hn. exists k. split; [lia|exact Hg].
      * intros (k & Hk & Hg). apply Hn. exists k. split; [lia|exact Hg].
    + assert (H0 : ~ occurs_at t (String x s) 0).
      { intros H. apply Hl in H. exact (newline_between_empty _ _ H). }
      destruct (leftmost_match t s) as [f|].
      * destruct IH as (i & -> & Ho & Hsel). exists (S i).
        split; [reflexivity|]. split; [apply occurs_at_S; exact Ho|].
        intros j Hj. destruct j as [|j]; [contradiction|].
        apply occurs_at_S in Hj. destruct (Hsel j Hj) as [Ha Hb]. split; intros Hij.
        -- apply newline_between_S. apply Ha. lia.
        -- rewrite newline_between_S. apply Hb. lia.
      * intros j Hj. destruct j as [|j]; [contradiction|].
        apply occurs_at_S in Hj. exact (IH j Hj).
Qed.
Lemma MustCompile_literal (find : string) :
  literal_term find = true ->
  MustCompile (pattern_of find) = Ok (mkRegexp (literal_prog find) 1).
Proof. intros H. unfold MustCompile. rewrite (Compile_literal find H). reflexivity. Qed.

Lemma update_one {rt : Runtime} (p : path) (s f whole replace : string) (reg : Regexp) :
  FindSubmatch reg s = Some [whole; f] ->
  update (mkSlice [mkReadOp p (list_ascii_of_string s)] 1) reg replace
  = Ok (append Slice.empty
          (mkWriteOp p (list_ascii_of_string (Replace s f replace)))).
Proof.
  intros H. unfold update. cbn [elems fold_left rContents rPath].
  rewrite string_of_list_ascii_of_string.
  change (Ok Slice.empty ≫= _) with
    (match FindSubmatch reg s with
     | Some match0 =>
         f ← group1 match0;
         Ok (append Slice.empty
               (mkWriteOp p (list_ascii_of_string (Replace s f replace))))
     | None => Ok (Slice.empty : slice WriteOp)
     end).
  rewrite H. reflexivity.
Qed.

(** C1, as the code has it: for a search term of plain text and a
    candidate (a name, or the contents of a file) in which the term
    occurs, letter case apart, the match succeeds and the substring it
    hands to the substitution is an occurrence of the term, taken as it
    stands in the candidate; it is the last occurrence on the first line
    that has one (no occurrence after it without a line break in
    between, none before it beyond a line break), which in a name of
    one line is the last occurrence, not the first.  All occurrences of
    that exact substring are then replaced, with [strings.Replace], in
    the name and in the contents.  A candidate without an occurrence
    does not match. *)
Theorem matched_substring_is_last_on_first_line :
  forall (rt : Runtime) (find replace s : string),
    literal_term find = true ->
    ascii_text s = true ->
    exists reg,
      MustCompile (pattern_of find) = Ok reg
      /\ ((forall j, ~ occurs_at find s j) -> FindSubmatch reg s = None)
      /\ (forall j0, occurs_at find s j0 ->
          exists whole f i,
            FindSubmatch reg s = Some [whole; f]
            /\ f = String.substring i (String.length find) s
            /\ occurs_at find s i
            /\ (forall j, occurs_at find s j ->
                          (i < j -> newline_between s i j)
                          /\ (j < i -> ~ newline_between s j i))
            /\ (forall ignoreMap p isdir renames,
                   has_key ignoreMap (ToLower s) && isdir = false ->
                   renameDirs_visit replace reg ignoreMap p
                     (Some (mkFileInfo s isdir)) None renames
                   = Ok (None,
                         append renames
                           (mkRenameOp p (Filepath.Join (Filepath.Dir p)
                                            (Replace s f replace)))))
            /\ (forall p,
                   update (mkSlice [mkReadOp p (list_ascii_of_string s)] 1) reg replace
                   = Ok (append Slice.empty
                           (mkWriteOp p (list_ascii_of_string (Replace s f replace)))))).
Proof.
  intros rt find replace s Hlit _.
  exists (mkRegexp (literal_prog find) 1).
  split; [apply MustCompile_literal; exact Hlit|].
  pose proof (FindSubmatch_leftmost find s) as HF.
  pose proof (leftmost_match_spec find s) as HS.
  destruct (leftmost_match find s) as [f|].
  - destruct HF as [whole HF]. destruct HS as (i & Hf & Ho & Hsel).
    split.
    + intros Hno. exfalso. exact (Hno i Ho).
    + intros j0 _. exists whole, f, i.
      split; [exact HF|]. split; [exact Hf|]. split; [exact Ho|].
      split; [exact Hsel|]. split.
      * intros ignoreMap p isdir renames Hskip. unfold renameDirs_visit.
        cbn [Name IsDir]. rewrite Hskip, HF. reflexivity.
      * intros p. apply (update_one p s f whole replace _ HF).
  - split; [intros _; exact HF|].
    intros j0 Hj0. exfalso. exact (HS j0 Hj0).
Qed.

Lemma matched_substring_is_last_on_first_line_witness :
  exists reg,
    MustCompile (pattern_of "Foo.Bar") = Ok reg
    /\ exists whole f i,
         FindSubmatch reg "foo.bar FOO.BAR" = Some [whole; f]
         /\ f = String.substring i (String.length "Foo.Bar") "foo.bar FOO.BAR".
Proof.
  destruct (matched_substring_is_last_on_first_line go_runtime "Foo.Bar" "x"
              "foo.bar FOO.BAR" eq_refl eq_refl) as (reg & Hreg & _ & Hocc).
  exists reg. split; [exact Hreg|].
  destruct (Hocc 0 ltac:(split; [vm_compute; lia|reflexivity]))
    as (whole & f & i & HF & Hf & _).
  exists whole, f, i. split; [exact HF|exact Hf].
Defined.

(** C1 as stated fails: in the name [fooFOO] the first occurrence of
    [foo] is [foo], the match captures [FOO], and the name becomes
    [foox], not [xFOO]. *)
Lemma matched_substring_is_not_the_first_occurrence :
  ~ (forall (find s : string) (reg : Regexp),
        MustCompile (pattern_of find) = Ok reg ->
        FindSubmatch reg s ≫= (fun match0 => match0 !! 1) = first_occurrence find s).
Proof.
  intros H.
  specialize (H "foo" "fooFOO" _ eq_refl). vm_compute in H. discriminate H.
Qed.
(** ** The file system *)

Lemma assoc_remove_eq (c : string) (es : list (string * node)) :
  assoc (remove_entry c es) c = None.
Proof.
  induction es as [|[c' n] es IH]; [reflexivity|].
  simpl. destruct (decide (c' = c)) as [->|Hne]; [exact IH|].
  simpl. rewrite decide_False by exact Hne. exact IH.
Qed.

Lemma assoc_remove_ne (c d : string) (es : list (string * node)) :
  c <> d -> assoc (remove_entry c es) d = assoc es d.
Proof.
  intros Hcd. induction es as [|[c' n] es IH]; [reflexivity|].
  simpl. destruct (decide (c' = c)) as [->|Hne].
  - rewrite decide_False by exact Hcd. exact IH.
  - simpl. rewrite IH. reflexivity.
Qed.

Lemma assoc_put_eq (c : string) (n : node) (es : list (string * node)) :
  assoc (put_entry c n es) c = Some n.
Proof.
  induction es as [|[c' n'] es IH]; simpl.
  - rewrite decide_True by reflexivity. reflexivity.
  - destruct (decide (c' = c)) as [->|Hne].
    + simpl. rewrite decide_True by reflexivity. reflexivity.
    + destruct (String.ltb c c'); simpl.
      * rewrite decide_True by reflexivity. reflexivity.
      * rewrite decide_False by exact Hne. exact IH.
Qed.

Lemma assoc_put_ne (c d : string) (n : node) (es : list (string * node)) :
  c <> d -> assoc (put_entry c n es) d = assoc es d.
Proof.
  intros Hcd. induction es as [|[c' n'] es IH]; simpl.
  - rewrite decide_False by exact Hcd. reflexivity.
  - destruct (decide (c' = c)) as [->|Hne].
    + simpl. rewrite !decide_False by exact Hcd. reflexivity.
    + destruct (String.ltb c c'); simpl.
      * rewrite decide_False by exact Hcd. reflexivity.
      * rewrite IH. reflexivity.
Qed.

Lemma assoc_alter_eq (c : string) (f : node -> node) (es : list (string * node)) :
  assoc (alter_entry c f es) c = f <$> assoc es c.
Proof.
  induction es as [|[c' n] es IH]; [reflexivity|].
  simpl. destruct (decide (c' = c)) as [->|Hne]; simpl.
  - rewrite decide_True by reflexivity. reflexivity.
  - rewrite decide_False by exact Hne. exact IH.
Qed.

Lemma assoc_alter_ne (c d : string) (f : node -> node) (es : list (string * node)) :
  c <> d -> assoc (alter_entry c f es) d = assoc es d.
Proof.
  intros Hcd. induction es as [|[c' n] es IH]; [reflexivity|].
  simpl. destruct (decide (c' = c)) as [->|Hne]; simpl.
  - rewrite !decide_False by exact Hcd. reflexivity.
  - rewrite IH. reflexivity.
Qed.

Lemma lookup_app (p q : path) (fs : node) :
  lookup fs (p ++ q) = lookup fs p ≫= fun n => lookup n q.
Proof.
  revert fs. induction p as [|c p IH]; intros fs; [reflexivity|].
  simpl. destruct fs as [b|es]; [reflexivity|].
  destruct (assoc es c) as [ch|]; [apply IH|reflexivity].
Qed.

Lemma stat_file_below (b : list ascii) (c : string) (q : path) :
  stat (File b) (c :: q) = None.
Proof. reflexivity. Qed.

Lemma is_prefix_spec (p q : path) :
  is_prefix p q = true <-> exists r, q = p ++ r.
Proof.
  revert q. induction p as [|c p IH]; intros q; simpl.
  - split; [intros _; exists q; reflexivity|reflexivity].
  - destruct q as [|d q]; [split; [discriminate|intros [r Hr]; discriminate]|].
    destruct (decide (c = d)) as [->|Hne].
    + rewrite IH. split; intros [r Hr]; exists r; [rewrite Hr; reflexivity|].
      injection Hr as ->. reflexivity.
    + split; [discriminate|]. intros [r Hr]. injection Hr as -> _. contradiction.
Qed.

Lemma is_prefix_refl (p : path) : is_prefix p p = true.
Proof. apply is_prefix_spec. exists []. rewrite app_nil_r. reflexivity. Qed.

Lemma is_prefix_trans (p q r : path) :
  is_prefix p q = true -> is_prefix q r = true -> is_prefix p r = true.
Proof.
  rewrite !is_prefix_spec. intros [a ->] [b ->]. exists (a ++ b).
  rewrite app_assoc. reflexivity.
Qed.

(** Removing the entry at [p] takes away what is at or below [p], and
    nothing else. *)
Lemma stat_detach (p : path) :
  p <> [] ->
  forall (fs : node) (q : path),
    stat (detach p fs) q = if is_prefix p q then None else stat fs q.
Proof.
  induction p as [|c p IH]; [congruence|]. intros _ fs q.
  destruct fs as [b|es].
  { assert (detach (c :: p) (File b) = File b) as -> by (destruct p; reflexivity).
    destruct (is_prefix (c :: p) q) eqn:E; [|reflexivity].
    apply is_prefix_spec in E as [r ->]. reflexivity. }
  destruct p as [|c2 p].
  - cbn [detach]. destruct q as [|d q]; [reflexivity|].
    cbn [is_prefix]. unfold stat. cbn [lookup].
    destruct (decide (c = d)) as [->|Hne].
    + rewrite assoc_remove_eq. reflexivity.
    + rewrite assoc_remove_ne by exact Hne. reflexivity.
  - cbn [detach]. destruct q as [|d q]; [reflexivity|].
    change (is_prefix (c :: c2 :: p) (d :: q))
      with (if decide (c = d) then is_prefix (c2 :: p) q else false).
    unfold stat. cbn [lookup].
    destruct (decide (c = d)) as [->|Hne].
    + rewrite assoc_alter_eq. destruct (assoc es d) as [ch|].
      * apply (IH ltac:(discriminate) ch q).
      * destruct (is_prefix (c2 :: p) q); reflexivity.
    + rewrite assoc_alter_ne by exact Hne. reflexivity.
Qed.

(** Placing [n] at [p], in a directory that exists, shows [n] at and
    below [p] and changes nothing else. *)
Lemma stat_attach (p : path) (n : node) :
  p <> [] ->
  forall (fs : node) (q : path),
    stat fs (Filepath.Dir p) = Some KDir ->
    stat (attach p n fs) q
    = if is_prefix p q then stat n (drop (length p) q) else stat fs q.
Proof.
  induction p as [|c p IH]; [congruence|]. intros _ fs q Hdir.
  destruct fs as [b|es].
  { destruct p; discriminate Hdir. }
  destruct p as [|c2 p].
  - cbn [attach]. destruct q as [|d q]; [reflexivity|].
    cbn [is_prefix length drop]. unfold stat. cbn [lookup].
    destruct (decide (c = d)) as [->|Hne].
    + rewrite assoc_put_eq. reflexivity.
    + rewrite assoc_put_ne by exact Hne. reflexivity.
  - cbn [attach]. destruct q as [|d q]; [reflexivity|].
    change (is_prefix (c :: c2 :: p) (d :: q))
      with (if decide (c = d) then is_prefix (c2 :: p) q else false).
    change (Filepath.Dir (c :: c2 :: p)) with (c :: Filepath.Dir (c2 :: p)) in Hdir.
    unfold stat in Hdir |- *. cbn [lookup] in Hdir |- *.
    destruct (decide (c = d)) as [->|Hne].
    + rewrite assoc_alter_eq. destruct (assoc es d) as [ch|]; [|discriminate Hdir].
      apply (IH ltac:(discriminate) ch q Hdir).
    + rewrite assoc_alter_ne by exact Hne. reflexivity.
Qed.
(** ** The walk and the plan *)

Lemma node_ind' (P : node -> Prop) :
  (forall b, P (File b)) ->
  (forall es, Forall (fun e => P (snd e)) es -> P (Dir es)) ->
  forall n, P n.
Proof.
  intros Hf Hd. fix IH 1. intros [b|es]; [apply Hf|].
  apply Hd. induction es as [|[c ch] es IHes]; constructor; [apply IH|exact IHes].
Qed.

Lemma plan_dir replace reg ignoreMap p name es :
  plan replace reg ignoreMap p name (Dir es)
  = if skipped ignoreMap name true then []
    else rename_of replace reg p name ++ plan_children replace reg ignoreMap p es.
Proof.
  cbn [plan]. destruct (skipped ignoreMap name true); [reflexivity|]. f_equal.
  induction es as [|[c ch] es IH]; [reflexivity|].
  cbn [plan_children]. rewrite <- IH. reflexivity.
Qed.

Lemma walk_dir {St : Type} (fn : WalkFunc St) p name es st :
  walk fn p name (Dir es) st
  = r ← fn p (Some (mkFileInfo name true)) None st;
    match r with
    | (Some e, st1) => Ok (Some e, st1)
    | (None, st1) => walk_entries fn p es st1
    end.
Proof.
  cbn [walk]. destruct (fn p (Some (mkFileInfo name true)) None st) as [[r st1]| |];
    try reflexivity.
  cbn. destruct r as [e|]; [reflexivity|].
  revert st1. induction es as [|[c ch] es IH]; intros st1; [reflexivity|].
  cbn [walk_entries]. destruct (walk fn (p ++ [c]) c ch st1) as [[r' st']| |];
    try reflexivity.
  cbn. destruct r' as [[|e]|]; try reflexivity; [|apply IH].
  destruct (isDir ch); [apply IH|reflexivity].
Qed.

Lemma elems_append {A : Type} {rt : Runtime} {gt : GoType A} (s : slice A) (x : A) :
  elems (append s x) = elems s ++ [x].
Proof. unfold append. destruct (len s <? capacity s); reflexivity. Qed.

Section WalkPlan.
Context {rt : Runtime}.
Variables (replace : string) (reg : Regexp) (ignoreMap : gmap string bool).

Lemma renameDirs_visit_spec p name isdir st r st' :
  renameDirs_visit replace reg ignoreMap p (Some (mkFileInfo name isdir)) None st
  = Ok (r, st') ->
  (skipped ignoreMap name isdir = true /\ r = Some SkipDir /\ st' = st)
  \/ (skipped ignoreMap name isdir = false /\ r = None
      /\ elems st' = elems st ++ rename_of replace reg p name).
Proof.
  unfold renameDirs_visit, skipped, rename_of, newname. cbn [Name IsDir].
  destruct (has_key ignoreMap (ToLower name) && isdir).
  - intros [= <- <-]. left. auto.
  - destruct (FindSubmatch reg name) as [match0|].
    + unfold group1. destruct (match0 !! 1) as [s|]; [|discriminate].
      cbn. intros [= <- <-]. right. rewrite elems_append. auto.
    + intros [= <- <-]. right. rewrite app_nil_r. auto.
Qed.

Lemma walk_plan (n : node) :
  forall p name st r st',
    walk (renameDirs_visit replace reg ignoreMap) p name n st = Ok (r, st') ->
    elems st' = elems st ++ plan replace reg ignoreMap p name n
    /\ (r = None \/ (r = Some SkipDir /\ isDir n = true)).
Proof.
  induction n as [b|es IH] using node_ind'; intros p name st r st' Hw.
  - cbn [walk] in Hw. apply renameDirs_visit_spec in Hw.
    destruct Hw as [(Hs & _)|(_ & -> & He)].
    + unfold skipped in Hs. rewrite andb_false_r in Hs. discriminate.
    + split; [exact He|left; reflexivity].
  - rewrite walk_dir in Hw. rewrite plan_dir.
    destruct (renameDirs_visit replace reg ignoreMap p
                (Some (mkFileInfo name true)) None st) as [[r1 st1]| |] eqn:Hv;
      try discriminate Hw.
    apply renameDirs_visit_spec in Hv.
    destruct Hv as [(Hs & -> & ->)|(Hs & -> & He)]; rewrite Hs.
    + cbn in Hw. injection Hw as <- <-. rewrite app_nil_r. auto.
    + cbn in Hw. rewrite app_assoc, <- He. clear He Hs st.
      revert st1 r st' Hw IH.
      induction es as [|[c ch] es IHes]; intros st1 r st' Hw IH.
      * injection Hw as <- <-. rewrite app_nil_r. auto.
      * cbn [walk_entries] in Hw. cbn [plan_children].
        apply Forall_cons in IH as [IHch IH]. cbn [snd] in IHch.
        destruct (walk (renameDirs_visit replace reg ignoreMap) (p ++ [c]) c ch st1)
          as [[r' st2]| |] eqn:Hc; try discriminate Hw.
        apply IHch in Hc as [He Hr].
        rewrite app_assoc, <- He. cbn in Hw.
        destruct Hr as [->|[-> Hd]].
        -- apply (IHes _ _ _ Hw IH).
        -- rewrite Hd in Hw. apply (IHes _ _ _ Hw IH).
Qed.

Lemma Walk_plan dir fs renames t :
  lookup fs dir = Some t ->
  Walk dir (renameDirs_visit replace reg ignoreMap) Slice.empty fs = Ok renames ->
  elems renames = plan replace reg ignoreMap dir (Filepath.Base dir) t.
Proof.
  intros Ht. unfold Walk. rewrite Ht.
  destruct (walk _ dir (Filepath.Base dir) t Slice.empty) as [[r st]| |] eqn:Hw;
    try discriminate.
  cbn. intros [= <-]. apply walk_plan in Hw as [He _]. exact He.
Qed.

End WalkPlan.
(** ** What a rename changes *)

Lemma stat_is_Some (fs : node) (p : path) :
  is_Some (stat fs p) <-> is_Some (lookup fs p).
Proof. unfold stat. rewrite fmap_is_Some. reflexivity. Qed.

Lemma stat_dir_iff (fs : node) (p : path) :
  stat fs p = Some KDir <-> exists es, lookup fs p = Some (Dir es).
Proof.
  unfold stat. destruct (lookup fs p) as [[b|es]|]; cbn.
  - split; [discriminate|intros [es H]; discriminate].
  - split; [eauto|reflexivity].
  - split; [discriminate|intros [es H]; discriminate].
Qed.

Lemma lookup_prefix (fs : node) (p r : path) :
  is_Some (lookup fs (p ++ r)) -> is_Some (lookup fs p).
Proof.
  rewrite lookup_app. destruct (lookup fs p); [eauto|]. intros [x Hx]. discriminate.
Qed.

Lemma lookup_below_file (fs : node) (p r : path) (b : list ascii) :
  lookup fs p = Some (File b) -> is_Some (lookup fs (p ++ r)) -> r = [].
Proof.
  intros Hp. rewrite lookup_app, Hp. cbn.
  destruct r; [reflexivity|]. intros [x Hx]. discriminate.
Qed.

Lemma Dir_prefix (p : path) : p <> [] -> exists c, p = Filepath.Dir p ++ [c].
Proof.
  intros Hp. unfold Filepath.Dir. exists (List.last p EmptyString).
  apply app_removelast_last. exact Hp.
Qed.

(** A rename that succeeds: either it names the entry onto itself and
    changes nothing, or the entry is found at the new path with all that
    is below it, nothing is left at the old path, and the rest of the
    tree is as before. *)
Lemma Rename_inl (old new : path) (fs fs' : node) :
  Rename old new fs = inl fs' ->
  (old = new /\ fs' = fs)
  \/ (old <> new /\ old <> [] /\ new <> []
      /\ exists n, lookup fs old = Some n
         /\ (forall es, lookup fs new <> Some (Dir es))
         /\ stat fs (Filepath.Dir new) = Some KDir
         /\ forall q, stat fs' q
                      = if is_prefix new q then stat n (drop (length new) q)
                        else if is_prefix old q then None else stat fs q).
Proof.
  unfold Rename. intros H.
  assert (Hnd : forall es, lookup fs new <> Some (Dir es)).
  { intros es E. rewrite E in H. destruct (lookup fs old); discriminate H. }
  assert (H' : match lookup fs old with
               | None => inr ENOENT
               | Some n =>
                   if decide (old = new) then inl fs
                   else if isDir n && is_prefix old new then inr EINVAL
                   else match lookup fs (Filepath.Dir new) with
                        | None => inr ENOENT
                        | Some (File _) => inr ENOTDIR
                        | Some (Dir _) =>
                            match n, lookup fs new with
                            | Dir _, Some (File _) => inr ENOTDIR
                            | _, _ => inl (attach new n (detach old fs))
                            end
                        end
               end = inl fs').
  { destruct (lookup fs new) as [[b|es]|]; [exact H| |exact H].
    exfalso. exact (Hnd es eq_refl). }
  clear H. destruct (lookup fs old) as [n|] eqn:Hold; [|discriminate H'].
  destruct (decide (old = new)) as [->|Hne].
  { injection H' as <-. left. auto. }
  right. split; [exact Hne|].
  destruct (isDir n && is_prefix old new) eqn:Hinv; [discriminate H'|].
  destruct (lookup fs (Filepath.Dir new)) as [[b|pes]|] eqn:Hpar; try discriminate H'.
  assert (Hfs' : fs' = attach new n (detach old fs)).
  { destruct n as [b|es]; [injection H' as <-; reflexivity|].
    destruct (lookup fs new) as [[b|es']|]; try discriminate H';
      injection H' as <-; reflexivity. }
  clear H'.
  assert (Hold0 : old <> []).
  { intros ->. cbn in Hold. injection Hold as <-.
    destruct fs as [b|es].
    - destruct new as [|c new]; [congruence|].
      destruct (Dir_prefix (c :: new) ltac:(discriminate)) as [c' Hc'].
      destruct (Filepath.Dir (c :: new)) as [|d ds] eqn:Hd.
      + cbn in Hpar. discriminate Hpar.
      + cbn in Hpar. discriminate Hpar.
    - cbn in Hinv. discriminate Hinv. }
  assert (Hnew0 : new <> []).
  { intros ->. cbn in Hpar. injection Hpar as ->. exact (Hnd pes eq_refl). }
  split; [exact Hold0|]. split; [exact Hnew0|].
  exists n. split; [reflexivity|]. split; [exact Hnd|].
  assert (HparK : stat fs (Filepath.Dir new) = Some KDir).
  { unfold stat. rewrite Hpar. reflexivity. }
  split; [exact HparK|].
  assert (Hnp : is_prefix old (Filepath.Dir new) = false).
  { destruct (is_prefix old (Filepath.Dir new)) eqn:E; [|reflexivity].
    apply is_prefix_spec in E as [r Hr].
    destruct n as [b|es].
    - assert (r = []) as ->.
      { apply (lookup_below_file fs old r b Hold). rewrite <- Hr, Hpar. eauto. }
      rewrite app_nil_r in Hr. rewrite Hr, Hold in Hpar. discriminate Hpar.
    - cbn in Hinv. destruct (Dir_prefix new Hnew0) as [c Hc].
      assert (is_prefix old new = true); [|congruence].
      apply is_prefix_spec. exists (r ++ [c]). rewrite app_assoc, <- Hr. exact Hc. }
  intros q. subst fs'.
  rewrite (stat_attach new n Hnew0).
  - destruct (is_prefix new q); [reflexivity|]. apply (stat_detach old Hold0).
  - rewrite (stat_detach old Hold0), Hnp. exact HparK.
Qed.

(** A rename leaves in place every path that is not at or below its
    source. *)
Lemma Rename_preserves (old new : path) (fs fs' : node) (s : path) :
  Rename old new fs = inl fs' ->
  is_Some (lookup fs s) ->
  is_prefix old s = false ->
  is_Some (lookup fs' s).
Proof.
  intros HR Hs Hp. apply Rename_inl in HR.
  destruct HR as [[_ ->]|(Hne & Ho & Hn & n & Hold & Hnd & Hpar & Hst)]; [exact Hs|].
  apply stat_is_Some. rewrite Hst, Hp.
  destruct (is_prefix new s) eqn:E; [|apply stat_is_Some; exact Hs].
  apply is_prefix_spec in E as [r ->].
  destruct (lookup fs new) as [[b|es]|] eqn:Hnew.
  - assert (r = []) as -> by (apply (lookup_below_file fs new r b Hnew Hs)).
    rewrite app_nil_r, drop_all. cbn. eauto.
  - exfalso. exact (Hnd es eq_refl).
  - apply lookup_prefix in Hs. rewrite Hnew in Hs. destruct Hs as [x Hx]. discriminate.
Qed.

Lemma sources_present_ordered (ops : list RenameOp) :
  forall fs,
    exec_ordered ops ->
    Forall (fun op => is_Some (lookup fs (Old op))) ops ->
    sources_present ops fs.
Proof.
  induction ops as [|op rest IH]; intros fs Hord Hex; [exact I|].
  cbn [sources_present]. destruct Hord as [Hhead Hord].
  apply Forall_cons in Hex as [Hop Hex]. split; [exact Hop|].
  destruct (Rename (Old op) (New op) fs) as [fs'|e] eqn:HR; [|exact I].
  apply IH; [exact Hord|].
  rewrite Forall_forall in Hex, Hhead |- *. intros y Hy.
  apply (Rename_preserves _ _ _ _ _ HR (Hex y Hy) (Hhead y Hy)).
Qed.

Lemma exec_ordered_snoc (l : list RenameOp) (x : RenameOp) :
  exec_ordered l ->
  Forall (fun a => is_prefix (Old a) (Old x) = false) l ->
  exec_ordered (l ++ [x]).
Proof.
  induction l as [|a l IH]; intros Hl Hx; cbn.
  - split; [constructor|exact I].
  - destruct Hl as [Ha Hl]. apply Forall_cons in Hx as [Hax Hx].
    split; [|apply IH; assumption].
    apply Forall_app. split; [exact Ha|]. constructor; [exact Hax|constructor].
Qed.

Lemma ordered_rev (l : list RenameOp) : ordered l -> exec_ordered (rev l).
Proof.
  induction l as [|x l IH]; intros Hl; [exact I|].
  destruct Hl as [Hx Hl]. cbn [rev]. apply exec_ordered_snoc; [apply IH; exact Hl|].
  rewrite Forall_forall in Hx |- *. intros a Ha. apply Hx.
  apply list_elem_of_In. apply list_elem_of_In in Ha. apply in_rev. exact Ha.
Qed.

Lemma ordered_app (a b : list RenameOp) :
  ordered a -> ordered b ->
  Forall (fun x => Forall (fun y => is_prefix (Old y) (Old x) = false) b) a ->
  ordered (a ++ b).
Proof.
  induction a as [|x a IH]; intros Ha Hb Hab; [exact Hb|].
  destruct Ha as [Hx Ha]. apply Forall_cons in Hab as [Hxb Hab].
  cbn. split; [apply Forall_app; split; assumption|apply IH; assumption].
Qed.
(** ** The sources of the plan *)

Lemma names_unique_dir (es : list (string * node)) :
  names_unique (Dir es) = true
  <-> NoDup (map fst es) /\ Forall (fun e => names_unique (snd e) = true) es.
Proof.
  cbn [names_unique]. rewrite andb_true_iff, bool_decide_eq_true.
  apply and_iff_compat_l.
  induction es as [|[c ch] es IH]; [split; [constructor|reflexivity]|].
  rewrite andb_true_iff, IH, Forall_cons. reflexivity.
Qed.

Lemma assoc_first (es : list (string * node)) (c : string) (ch : node) :
  NoDup (map fst es) -> In (c, ch) es -> assoc es c = Some ch.
Proof.
  induction es as [|[c' n] es IH]; intros Hnd Hin; [contradiction|].
  cbn in Hnd. apply NoDup_cons in Hnd as [Hc' Hnd]. cbn.
  destruct Hin as [[= -> ->]|Hin].
  - rewrite decide_True by reflexivity. reflexivity.
  - destruct (decide (c' = c)) as [->|Hne]; [|apply IH; assumption].
    exfalso. apply Hc'. apply list_elem_of_In. apply (in_map fst _ _ Hin).
Qed.

Lemma is_prefix_longer (p r : path) (c : string) : is_prefix (p ++ c :: r) p = false.
Proof.
  destruct (is_prefix (p ++ c :: r) p) eqn:E; [|reflexivity].
  apply is_prefix_spec in E as [r' Hr]. apply (f_equal length) in Hr.
  rewrite !length_app in Hr. cbn in Hr. lia.
Qed.

Lemma is_prefix_diverge (p r1 r2 : path) (c d : string) :
  c <> d -> is_prefix (p ++ c :: r1) (p ++ d :: r2) = false.
Proof.
  intros Hne. destruct (is_prefix (p ++ c :: r1) (p ++ d :: r2)) eqn:E; [|reflexivity].
  apply is_prefix_spec in E as [r' Hr]. rewrite <- app_assoc in Hr.
  apply app_inv_head in Hr. injection Hr as Hr _. congruence.
Qed.

Section PlanSources.
Variables (replace : string) (reg : Regexp) (ignoreMap : gmap string bool).

Lemma rename_of_source p name n :
  Forall (source_in p n) (rename_of replace reg p name).
Proof.
  unfold rename_of. destruct (FindSubmatch reg name); constructor; [|constructor].
  exists []. rewrite app_nil_r. cbn. eauto.
Qed.

Lemma plan_sources (n : node) :
  forall p name,
    names_unique n = true ->
    Forall (source_in p n) (plan replace reg ignoreMap p name n).
Proof.
  induction n as [b|es IH] using node_ind'; intros p name Hu.
  - apply rename_of_source.
  - rewrite plan_dir. destruct (skipped ignoreMap name true); [constructor|].
    apply Forall_app. split; [apply rename_of_source|].
    apply names_unique_dir in Hu as [Hnd Hu].
    assert (Haux : forall todo, (forall e, In e todo -> In e es) ->
              Forall (source_in p (Dir es)) (plan_children replace reg ignoreMap p todo));
      [|apply Haux; auto].
    intros todo. induction todo as [|[c ch] todo IHt]; intros Hsub; [constructor|].
    cbn [plan_children]. apply Forall_app. split.
    + assert (Hin : In (c, ch) es) by (apply Hsub; left; reflexivity).
      rewrite Forall_forall in IH, Hu.
      specialize (IH (c, ch) ltac:(apply list_elem_of_In; exact Hin)
                     (p ++ [c]) c
                     (Hu (c, ch) ltac:(apply list_elem_of_In; exact Hin))).
      cbn [snd] in IH. eapply Forall_impl; [exact IH|].
      intros op (rel & Ho & Hl). exists (c :: rel). split.
      * rewrite Ho, <- app_assoc. reflexivity.
      * cbn [lookup]. rewrite (assoc_first es c ch Hnd Hin). exact Hl.
    + apply IHt. intros e He. apply Hsub. right. exact He.
Qed.

Lemma plan_below (n : node) p name :
  Forall (fun op => exists rel, Old op = p ++ rel) (plan replace reg ignoreMap p name n).
Proof.
  revert p name. induction n as [b|es IH] using node_ind'; intros p name.
  - cbn [plan]. unfold rename_of. destruct (FindSubmatch reg name); constructor;
      [|constructor]. exists []. rewrite app_nil_r. reflexivity.
  - rewrite plan_dir. destruct (skipped ignoreMap name true); [constructor|].
    apply Forall_app. split.
    + unfold rename_of. destruct (FindSubmatch reg name); constructor; [|constructor].
      exists []. rewrite app_nil_r. reflexivity.
    + induction es as [|[c ch] es IHes]; [constructor|].
      apply Forall_cons in IH as [IHch IH]. cbn [plan_children snd] in *.
      apply Forall_app. split; [|apply IHes; exact IH].
      eapply Forall_impl; [apply IHch|]. intros op [rel Ho].
      exists (c :: rel). rewrite Ho, <- app_assoc. reflexivity.
Qed.

Lemma plan_children_below p es :
  Forall (fun op => exists c rel, In c (map fst es) /\ Old op = p ++ c :: rel)
         (plan_children replace reg ignoreMap p es).
Proof.
  induction es as [|[c ch] es IH]; [constructor|].
  cbn [plan_children]. apply Forall_app. split.
  - eapply Forall_impl; [apply plan_below|]. intros op [rel Ho].
    exists c, rel. split; [left; reflexivity|]. rewrite Ho, <- app_assoc. reflexivity.
  - eapply Forall_impl; [exact IH|]. intros op (d & rel & Hd & Ho).
    exists d, rel. split; [right; exact Hd|exact Ho].
Qed.

Lemma rename_of_ordered p name (l : list RenameOp) :
  Forall (fun op => exists c rel, Old op = p ++ c :: rel) l ->
  ordered l ->
  ordered (rename_of replace reg p name ++ l).
Proof.
  intros Hl Ho. unfold rename_of. destruct (FindSubmatch reg name); [|exact Ho].
  cbn. split; [|exact Ho]. eapply Forall_impl; [exact Hl|].
  intros op (c & rel & ->). cbn. apply is_prefix_longer.
Qed.

Lemma plan_ordered (n : node) :
  forall p name, names_unique n = true -> ordered (plan replace reg ignoreMap p name n).
Proof.
  induction n as [b|es IH] using node_ind'; intros p name Hu.
  - cbn [plan]. unfold rename_of. destruct (FindSubmatch reg name); cbn; auto.
  - rewrite plan_dir. destruct (skipped ignoreMap name true); [exact I|].
    apply names_unique_dir in Hu as [Hnd Hu].
    apply rename_of_ordered.
    { eapply Forall_impl; [apply plan_children_below|].
      intros op (c & rel & _ & Ho). eauto. }
    induction es as [|[c ch] es IHes]; [exact I|].
    apply Forall_cons in IH as [IHch IH]. apply Forall_cons in Hu as [Huc Hu].
    cbn in Hnd. apply NoDup_cons in Hnd as [Hc Hnd].
    cbn [plan_children snd] in *. apply ordered_app.
    + apply IHch. exact Huc.
    + apply IHes; assumption.
    + eapply Forall_impl; [apply plan_below|]. intros x [r1 Hx].
      eapply Forall_impl; [apply plan_children_below|].
      intros y (d & r2 & Hd & Hy). rewrite Hx, Hy, <- app_assoc. cbn.
      apply is_prefix_diverge. intros ->. apply Hc. apply list_elem_of_In. exact Hd.
Qed.

End PlanSources.
(** ** Renames as changes of one directory *)

Lemma alter_entry_ext (c : string) (f g : node -> node) (es : list (string * node)) :
  (forall x, f x = g x) -> alter_entry c f es = alter_entry c g es.
Proof.
  intros H. induction es as [|[c' n] es IH]; [reflexivity|].
  cbn. destruct (decide (c' = c)); [rewrite H|rewrite IH]; reflexivity.
Qed.

Lemma alter_entry_compose (c : string) (f g : node -> node) (es : list (string * node)) :
  alter_entry c g (alter_entry c f es) = alter_entry c (fun x => g (f x)) es.
Proof.
  induction es as [|[c' n] es IH]; [reflexivity|].
  cbn. destruct (decide (c' = c)) as [->|Hne]; cbn.
  - rewrite decide_True by reflexivity. reflexivity.
  - rewrite decide_False by exact Hne. rewrite IH. reflexivity.
Qed.

Lemma alter_entry_const (c : string) (f : node -> node) (es : list (string * node))
  (ch : node) :
  assoc es c = Some ch -> alter_entry c f es = alter_entry c (fun _ => f ch) es.
Proof.
  induction es as [|[c' n] es IH]; [reflexivity|].
  cbn. destruct (decide (c' = c)) as [->|Hne].
  - intros [= ->]. reflexivity.
  - intros H. rewrite (IH H). reflexivity.
Qed.

Lemma alter_entry_id (c : string) (es : list (string * node)) (ch : node) :
  assoc es c = Some ch -> alter_entry c (fun _ => ch) es = es.
Proof.
  induction es as [|[c' n] es IH]; [reflexivity|].
  cbn. destruct (decide (c' = c)) as [->|Hne].
  - intros [= ->]. reflexivity.
  - intros H. rewrite (IH H). reflexivity.
Qed.

Lemma remove_alter_entry (c : string) (f : node -> node) (es : list (string * node)) :
  remove_entry c (alter_entry c f es) = remove_entry c es.
Proof.
  induction es as [|[c' n] es IH]; [reflexivity|].
  cbn. destruct (decide (c' = c)) as [->|Hne]; cbn.
  - rewrite decide_True by reflexivity. reflexivity.
  - rewrite decide_False by exact Hne. rewrite IH. reflexivity.
Qed.

Lemma alter_at_ext (p : path) (f g : node -> node) :
  (forall x, f x = g x) -> forall n, alter_at p f n = alter_at p g n.
Proof.
  intros H. induction p as [|c p IH]; intros n; [apply H|].
  cbn. destruct n as [b|es]; [reflexivity|]. f_equal.
  apply alter_entry_ext. exact IH.
Qed.

Lemma alter_at_compose (p : path) (f g : node -> node) :
  forall n, alter_at p g (alter_at p f n) = alter_at p (fun x => g (f x)) n.
Proof.
  induction p as [|c p IH]; intros n; [reflexivity|].
  cbn. destruct n as [b|es]; [reflexivity|]. f_equal.
  rewrite alter_entry_compose. apply alter_entry_ext. exact IH.
Qed.

Lemma alter_at_app (p q : path) (f : node -> node) :
  forall n, alter_at (p ++ q) f n = alter_at p (alter_at q f) n.
Proof.
  induction p as [|c p IH]; intros n; [reflexivity|].
  cbn. destruct n as [b|es]; [reflexivity|]. f_equal.
  apply alter_entry_ext. exact IH.
Qed.

Lemma alter_at_const (p : path) (f : node -> node) :
  forall n x, lookup n p = Some x -> alter_at p f n = alter_at p (fun _ => f x) n.
Proof.
  induction p as [|c p IH]; intros n x; [intros [= ->]; reflexivity|].
  cbn. destruct n as [b|es]; [reflexivity|].
  destruct (assoc es c) as [ch|] eqn:Hc; [|discriminate]. intros Hl. f_equal.
  rewrite (alter_entry_const c _ es ch Hc).
  rewrite (alter_entry_const c (alter_at p (fun _ => f x)) es ch Hc).
  rewrite (IH ch x Hl). reflexivity.
Qed.

Lemma alter_at_id (p : path) :
  forall n x, lookup n p = Some x -> alter_at p (fun _ => x) n = n.
Proof.
  induction p as [|c p IH]; intros n x; [intros [= ->]; reflexivity|].
  cbn. destruct n as [b|es]; [reflexivity|].
  destruct (assoc es c) as [ch|] eqn:Hc; [|discriminate]. intros Hl. f_equal.
  rewrite (alter_entry_const c _ es ch Hc), (IH ch x Hl).
  apply alter_entry_id. exact Hc.
Qed.

Lemma lookup_alter_at (p : path) (f : node -> node) :
  forall n x, lookup n p = Some x -> lookup (alter_at p f n) p = Some (f x).
Proof.
  induction p as [|c p IH]; intros n x; [intros [= ->]; reflexivity|].
  cbn. destruct n as [b|es]; [discriminate|].
  rewrite assoc_alter_eq. destruct (assoc es c) as [ch|]; [|discriminate].
  cbn. apply IH.
Qed.

Lemma detach_alter_at (d : path) (c : string) :
  forall n, detach (d ++ [c]) n = alter_at d (rm c) n.
Proof.
  induction d as [|c0 d IH]; intros n.
  - destruct n; reflexivity.
  - destruct n as [b|es]; [destruct d; reflexivity|].
    cbn [alter_at]. rewrite <- (alter_entry_ext c0 _ _ es IH).
    destruct d; reflexivity.
Qed.

Lemma attach_alter_at (d : path) (c : string) (new : node) :
  forall n, attach (d ++ [c]) new n = alter_at d (put c new) n.
Proof.
  induction d as [|c0 d IH]; intros n.
  - destruct n; reflexivity.
  - destruct n as [b|es]; [destruct d; reflexivity|].
    cbn [alter_at]. rewrite <- (alter_entry_ext c0 _ _ es IH).
    destruct d; reflexivity.
Qed.

Lemma Dir_snoc (d : path) (c : string) : Filepath.Dir (d ++ [c]) = d.
Proof. unfold Filepath.Dir. apply removelast_last. Qed.

(** The rename of an entry inside its directory, to a name that is
    free. *)
Lemma Rename_local (d : path) (c c' : string) (fs : node)
  (L : list (string * node)) (ch : node) :
  lookup fs d = Some (Dir L) ->
  assoc L c = Some ch ->
  assoc L c' = None ->
  Rename (d ++ [c]) (d ++ [c']) fs
  = inl (alter_at d (fun _ => Dir (put_entry c' ch (remove_entry c L))) fs).
Proof.
  intros Hd Hc Hc'.
  assert (Hne : c <> c') by congruence.
  unfold Rename. rewrite !lookup_app, Hd. cbn [mbind option_bind lookup].
  rewrite Hc, Hc'.
  rewrite decide_False by (intros E; apply app_inv_head in E; congruence).
  replace (is_prefix (d ++ [c]) (d ++ [c'])) with false
    by (symmetry; apply is_prefix_diverge; exact Hne).
  rewrite andb_false_r, Dir_snoc, Hd.
  assert (attach (d ++ [c']) ch (detach (d ++ [c]) fs)
          = alter_at d (fun _ => Dir (put_entry c' ch (remove_entry c L))) fs) as E.
  { rewrite attach_alter_at, detach_alter_at, alter_at_compose.
    rewrite (alter_at_const d _ fs (Dir L) Hd). reflexivity. }
  rewrite <- E. destruct ch; reflexivity.
Qed.

Lemma exec_renames_app (a b : list RenameOp) (fs fs1 : node) :
  exec_renames a fs = (fs1, None) ->
  exec_renames (a ++ b) fs = exec_renames b fs1.
Proof.
  revert fs. induction a as [|op a IH]; intros fs; cbn.
  - intros [= ->]. reflexivity.
  - destruct (Rename (Old op) (New op) fs); [apply IH|discriminate].
Qed.
(** ** The renames of a tree, entry by entry *)

Lemma split_go_no_slash (s : string) :
  forall cur, no_slash s = true ->
              Strings.split_go "/" 0 cur s = [String.rev_app cur s].
Proof.
  induction s as [|a s IH]; intros cur Hs; [reflexivity|].
  cbn in Hs. apply andb_prop in Hs as [Ha Hs]. apply negb_true_iff in Ha.
  cbn [Strings.split_go HasPrefix]. rewrite Ha. rewrite (IH _ Hs). reflexivity.
Qed.

Lemma Join_valid (d : path) (c : string) :
  valid_name c = true -> Filepath.Join d c = d ++ [c].
Proof.
  unfold valid_name. rewrite !andb_true_iff, !negb_true_iff, !bool_decide_eq_false.
  intros [[[Hs H1] H2] H3]. unfold Filepath.Join, Split.
  rewrite (split_go_no_slash c EmptyString Hs). cbn.
  unfold Filepath.join_step. rewrite !decide_False by assumption. reflexivity.
Qed.

Section Entries.
Variables (replace : string) (reg : Regexp) (ignoreMap : gmap string bool).

Local Abbreviation plan_ := (plan replace reg ignoreMap).
Local Abbreviation plan_children_ := (plan_children replace reg ignoreMap).
Local Abbreviation newname_ := (newname replace reg).
Local Abbreviation step_ := (step replace reg ignoreMap).
Local Abbreviation renamed_ := (renamed replace reg ignoreMap).
Local Abbreviation rename_entries_ := (rename_entries replace reg ignoreMap).
Local Abbreviation target_ := (target replace reg ignoreMap).
Local Abbreviation collision_free_ := (collision_free replace reg ignoreMap).
Local Abbreviation fresh_name_ := (fresh_name replace reg ignoreMap).
Local Abbreviation skipped_ := (skipped ignoreMap).
Local Abbreviation entry_ok_ := (entry_ok replace reg ignoreMap).
Local Abbreviation entry_goal_ := (entry_goal replace reg ignoreMap).

Lemma renamed_dir (es : list (string * node)) :
  renamed_ (Dir es) = Dir (rename_entries_ es es).
Proof.
  reflexivity.
Qed.

Lemma collision_free_dir (es : list (string * node)) :
  collision_free_ (Dir es) = true
  <-> NoDup (map (fun e => target_ (fst e) (isDir (snd e))) es)
      /\ Forall (fun e => fresh_name_ (fst e) (snd e) (map fst es) = true
                          /\ (skipped_ (fst e) (isDir (snd e)) = true
                              \/ collision_free_ (snd e) = true)) es.
Proof.
  cbn [collision_free]. rewrite andb_true_iff, bool_decide_eq_true.
  apply and_iff_compat_l. generalize (map fst es) as names. intros names.
  induction es as [|[c ch] es IH]; [split; [constructor|reflexivity]|].
  rewrite !andb_true_iff, IH, Forall_cons, orb_true_iff. cbn [fst snd]. tauto.
Qed.

Lemma assoc_step_other (c x : string) (ch ch' : node) (L : list (string * node)) :
  x <> c ->
  (skipped_ c (isDir ch) = false -> is_Some (FindSubmatch reg c) -> newname_ c <> x) ->
  assoc (step_ c ch ch' L) x = assoc L x.
Proof.
  intros Hx Hn. unfold step.
  destruct (skipped_ c (isDir ch)); [reflexivity|].
  destruct (FindSubmatch reg c) eqn:E.
  - rewrite assoc_put_ne by (apply Hn; eauto).
    apply assoc_remove_ne. congruence.
  - apply assoc_alter_ne. congruence.
Qed.

Lemma assoc_rename_entries_other (rest L : list (string * node)) (x : string) :
  ~ In x (map fst rest) ->
  Forall (fun e => skipped_ (fst e) (isDir (snd e)) = false ->
                   is_Some (FindSubmatch reg (fst e)) -> newname_ (fst e) <> x) rest ->
  assoc (rename_entries_ rest L) x = assoc L x.
Proof.
  induction rest as [|[c ch] rest IH]; intros Hx Hn; [reflexivity|].
  apply Forall_cons in Hn as [Hc Hn]. cbn [rename_entries].
  rewrite assoc_step_other.
  - apply IH; [|exact Hn]. intros H. apply Hx. right. exact H.
  - intros ->. apply Hx. left. reflexivity.
  - exact Hc.
Qed.

Lemma exec_children (todo : list (string * node)) :
  Forall (fun e => entry_goal_ (snd e)) todo ->
  forall P fs L,
    lookup fs P = Some (Dir L) ->
    NoDup (map fst todo) ->
    NoDup (map (fun e => target_ (fst e) (isDir (snd e))) todo) ->
    Forall (fun e => entry_ok_ (fst e) (snd e) L
                     /\ (skipped_ (fst e) (isDir (snd e)) = false ->
                         is_Some (FindSubmatch reg (fst e)) ->
                         ~ In (newname_ (fst e)) (map fst todo))) todo ->
    exec_renames (rev (plan_children_ P todo)) fs
    = (alter_at P (fun _ => Dir (rename_entries_ todo L)) fs, None).
Proof.
  induction todo as [|[c ch] rest IH]; intros Hgoal P fs L HP Hnd Hnt Hok.
  - cbn. rewrite (alter_at_id P fs (Dir L) HP). reflexivity.
  - apply Forall_cons in Hgoal as [Hch Hgoal]. cbn [snd] in Hch.
    apply Forall_cons in Hok as [[Hc Hcn] Hok]. cbn [fst snd] in Hc, Hcn.
    cbn [map fst snd] in Hnd, Hnt.
    apply NoDup_cons in Hnd as [Hc1 Hnd]. apply NoDup_cons in Hnt as [Ht1 Hnt].
    cbn [plan_children rename_entries]. rewrite rev_app_distr.
    assert (Hrest : Forall (fun e => entry_ok_ (fst e) (snd e) L
                     /\ (skipped_ (fst e) (isDir (snd e)) = false ->
                         is_Some (FindSubmatch reg (fst e)) ->
                         ~ In (newname_ (fst e)) (map fst rest))) rest).
    { eapply Forall_impl; [exact Hok|]. intros e [He Hn]. split; [exact He|].
      intros H1 H2 H3. apply (Hn H1 H2). right. exact H3. }
    rewrite (exec_renames_app _ _ _ _ (IH Hgoal P fs L HP Hnd Hnt Hrest)).
    set (L1 := rename_entries_ rest L).
    assert (Hother : forall x, ~ In x (map fst rest) ->
              (forall e, In e rest -> skipped_ (fst e) (isDir (snd e)) = false ->
                         is_Some (FindSubmatch reg (fst e)) -> newname_ (fst e) <> x) ->
              assoc L1 x = assoc L x).
    { intros x Hx Hn. apply assoc_rename_entries_other; [exact Hx|].
      apply Forall_forall. intros e He. apply Hn. apply list_elem_of_In. exact He. }
    destruct Hc as (Hass & Hu & Hcf & Hfresh).
    assert (Hc1' : ~ In c (map fst rest)).
    { intros H. apply Hc1. apply list_elem_of_In. exact H. }
    assert (Hok1 : entry_ok_ c ch L1).
    { split; [|split; [exact Hu|split; [exact Hcf|]]].
      - rewrite Hother; [exact Hass|exact Hc1'|].
        intros e He Hs Hm E. rewrite Forall_forall in Hok.
        destruct (Hok e ltac:(apply list_elem_of_In; exact He)) as [_ Hn].
        apply (Hn Hs Hm). left. symmetry. exact E.
      - intros Hs Hm. destruct (Hfresh Hs Hm) as [Hv Hnone]. split; [exact Hv|].
        rewrite Hother; [exact Hnone| |].
        + intros H. apply (Hcn Hs Hm). right. exact H.
        + intros e He Hs' Hm' E. apply Ht1. apply list_elem_of_In.
          apply in_map_iff. exists e. split; [|exact He].
          unfold target. rewrite Hs, Hs'. exact E. }
    assert (HP1 : lookup (alter_at P (fun _ => Dir L1) fs) P = Some (Dir L1))
      by (rewrite (lookup_alter_at P _ fs (Dir L) HP); reflexivity).
    rewrite (Hch P c _ L1 HP1 Hok1). rewrite alter_at_compose. reflexivity.
Qed.

Lemma exec_entry (ch : node) : entry_goal_ ch.
Proof.
  induction ch as [b|es IH] using node_ind'; intros d c fs L Hd Hok.
  - destruct Hok as (Hass & _ & _ & Hfresh).
    cbn [plan]. unfold rename_of, step, skipped. cbn [isDir renamed].
    rewrite andb_false_r.
    destruct (FindSubmatch reg c) as [match0|] eqn:Hm.
    + destruct (Hfresh ltac:(unfold skipped; apply andb_false_r) ltac:(eauto))
        as [Hv Hnone].
      cbn [rev app exec_renames Old New]. rewrite Dir_snoc, (Join_valid d _ Hv).
      rewrite (Rename_local d c _ fs L (File b) Hd Hass Hnone). reflexivity.
    + cbn. rewrite (alter_entry_id c L (File b) Hass).
      rewrite (alter_at_id d fs (Dir L) Hd). reflexivity.
  - destruct Hok as (Hass & Hu & Hcf & Hfresh).
    rewrite plan_dir. unfold step. cbn [isDir] in *.
    destruct (skipped ignoreMap c true) eqn:Hs.
    { cbn. rewrite (alter_at_id d fs (Dir L) Hd). reflexivity. }
    destruct Hcf as [Hcf|Hcf]; [discriminate Hcf|].
    apply collision_free_dir in Hcf as [Hnt Hfr].
    apply names_unique_dir in Hu as [Hnd Hu].
    rewrite rev_app_distr.
    assert (HP : lookup fs (d ++ [c]) = Some (Dir es)).
    { rewrite lookup_app, Hd. cbn. rewrite Hass. reflexivity. }
    assert (Hall : Forall (fun e => entry_ok_ (fst e) (snd e) es
                     /\ (skipped_ (fst e) (isDir (snd e)) = false ->
                         is_Some (FindSubmatch reg (fst e)) ->
                         ~ In (newname_ (fst e)) (map fst es))) es).
    { rewrite Forall_forall in Hfr, Hu |- *. intros [c1 ch1] He.
      destruct (Hfr _ He) as [Hf1 Hc1]. cbn [fst snd] in *.
      assert (Hin : ~ (skipped_ c1 (isDir ch1) = false /\
                       is_Some (FindSubmatch reg c1)) \/
                    (valid_name (newname_ c1) = true
                     /\ ~ In (newname_ c1) (map fst es))).
      { unfold fresh_name in Hf1. destruct (skipped ignoreMap c1 (isDir ch1)).
        - left. intros [H _]. discriminate H.
        - destruct (FindSubmatch reg c1) as [m0|].
          + right. apply andb_prop in Hf1 as [Hv Hn]. split; [exact Hv|].
            apply bool_decide_eq_true in Hn. intros H. apply Hn.
            apply list_elem_of_In. exact H.
          + left. intros [_ [x Hx]]. discriminate Hx. }
      split; [split; [|split; [|split]]|].
      - apply assoc_first; [exact Hnd|apply list_elem_of_In; exact He].
      - exact (Hu _ He).
      - exact Hc1.
      - intros H1 H2. destruct Hin as [Hin|[Hv Hn]]; [exfalso; apply Hin; auto|].
        split; [exact Hv|].
        destruct (assoc es (newname_ c1)) as [x|] eqn:Ex; [|reflexivity].
        exfalso. apply Hn. clear -Ex.
        induction es as [|[c' n'] es IHes]; [discriminate Ex|].
        cbn in Ex |- *. destruct (decide (c' = newname_ c1)); [left; assumption|].
        right. apply IHes. exact Ex.
      - intros H1 H2. destruct Hin as [Hin|[Hv Hn]]; [exfalso; apply Hin; auto|].
        exact Hn. }
    rewrite (exec_renames_app _ _ _ _
               (exec_children es IH (d ++ [c]) fs es HP Hnd Hnt Hall)).
    rewrite <- renamed_dir.
    assert (Hfs1 : alter_at (d ++ [c]) (fun _ => renamed_ (Dir es)) fs
                   = alter_at d (fun _ => Dir (alter_entry c (fun _ => renamed_ (Dir es)) L)) fs).
    { rewrite alter_at_app. rewrite (alter_at_const d _ fs (Dir L) Hd). reflexivity. }
    rewrite Hfs1. unfold rename_of.
    destruct (FindSubmatch reg c) as [match0|] eqn:Hm; [|reflexivity].
    destruct (Hfresh eq_refl ltac:(eauto)) as [Hv Hnone].
    cbn [rev app exec_renames Old New]. rewrite Dir_snoc, (Join_valid d _ Hv).
    assert (Hne : newname_ c <> c) by congruence.
    erewrite (Rename_local d c (newname_ c) _ _ (renamed_ (Dir es))).
    + rewrite alter_at_compose, remove_alter_entry. reflexivity.
    + erewrite lookup_alter_at by exact Hd. reflexivity.
    + rewrite assoc_alter_eq, Hass. reflexivity.
    + rewrite assoc_alter_ne by congruence. exact Hnone.
Qed.

Lemma assoc_In (es : list (string * node)) (c : string) (ch : node) :
  assoc es c = Some ch -> In (c, ch) es.
Proof.
  induction es as [|[c' n] es IH]; [discriminate|].
  cbn. destruct (decide (c' = c)) as [->|Hne].
  - intros [= ->]. left. reflexivity.
  - intros H. right. apply IH. exact H.
Qed.

Lemma newname_unmatched (c : string) :
  FindSubmatch reg c = None -> newname_ c = c.
Proof. unfold newname. intros ->. reflexivity. Qed.

(** After the renames of a directory every entry is listed under its
    target name and holds its renamed contents. *)
Lemma assoc_rename_entries_target (todo : list (string * node)) :
  forall L,
    NoDup (map fst todo) ->
    NoDup (map (fun e => target_ (fst e) (isDir (snd e))) todo) ->
    Forall (fun e => assoc L (fst e) = Some (snd e)
                     /\ (skipped_ (fst e) (isDir (snd e)) = false ->
                         is_Some (FindSubmatch reg (fst e)) ->
                         ~ In (newname_ (fst e)) (map fst todo))) todo ->
    Forall (fun e => assoc (rename_entries_ todo L) (target_ (fst e) (isDir (snd e)))
                     = Some (if skipped_ (fst e) (isDir (snd e)) then snd e
                             else renamed_ (snd e))) todo.
Proof.
  induction todo as [|[c ch] rest IH]; intros L Hnd Hnt Hok; [constructor|].
  cbn [map fst snd] in Hnd, Hnt.
  apply NoDup_cons in Hnd as [Hc1 Hnd]. apply NoDup_cons in Hnt as [Ht1 Hnt].
  apply Forall_cons in Hok as [[Hass Hcn] Hok]. cbn [fst snd] in Hass, Hcn.
  assert (Hrest : Forall (fun e => assoc L (fst e) = Some (snd e)
                     /\ (skipped_ (fst e) (isDir (snd e)) = false ->
                         is_Some (FindSubmatch reg (fst e)) ->
                         ~ In (newname_ (fst e)) (map fst rest))) rest).
  { eapply Forall_impl; [exact Hok|]. intros e [He Hn]. split; [exact He|].
    intros H1 H2 H3. apply (Hn H1 H2). right. exact H3. }
  specialize (IH L Hnd Hnt Hrest).
  cbn [rename_entries]. set (L1 := rename_entries_ rest L) in *.
  assert (HL1c : assoc L1 c = Some ch).
  { unfold L1. rewrite assoc_rename_entries_other; [exact Hass| |].
    - intros H. apply Hc1. apply list_elem_of_In. exact H.
    - eapply Forall_impl; [exact Hok|]. intros e [_ Hn] Hs Hm E.
      apply (Hn Hs Hm). left. symmetry. exact E. }
  constructor.
  - cbn [fst snd]. unfold target, step.
    destruct (skipped ignoreMap c (isDir ch)) eqn:Hs; [exact HL1c|].
    destruct (FindSubmatch reg c) as [m0|] eqn:Hm.
    + apply assoc_put_eq.
    + rewrite (newname_unmatched c Hm), assoc_alter_eq, HL1c. reflexivity.
  - rewrite Forall_forall in IH, Hok |- *. intros e He.
    rewrite assoc_step_other; [apply IH; exact He| |].
    + destruct (Hok e He) as [_ Hn]. unfold target.
      destruct (skipped ignoreMap e.1 (isDir e.2)) eqn:Hs.
      * intros E. apply Hc1. rewrite <- E. apply list_elem_of_In.
        apply in_map. apply list_elem_of_In. exact He.
      * destruct (FindSubmatch reg e.1) as [m0|] eqn:Hm.
        -- intros E. apply (Hn eq_refl ltac:(eauto)). left. symmetry. exact E.
        -- rewrite (newname_unmatched _ Hm). intros E. apply Hc1. rewrite <- E.
           apply list_elem_of_In. apply in_map. apply list_elem_of_In. exact He.
    + intros Hs Hm E. apply Ht1. unfold target at 1. rewrite Hs, E.
      apply list_elem_of_In.
      apply (in_map (fun e => target_ e.1 (isDir e.2))). apply list_elem_of_In. exact He.
Qed.

Lemma kind_of_renamed (n : node) : kind_of (renamed_ n) = kind_of n.
Proof. destruct n; reflexivity. Qed.

(** An entry of the tree is found, after the renames, at the path made
    of the new names, as it was: a file with the same bytes, or a
    directory. *)
Lemma stat_renamed (q : path) :
  forall n,
    names_unique n = true -> collision_free_ n = true ->
    is_Some (lookup n q) ->
    stat (renamed_ n) (newpath replace reg ignoreMap n q) = stat n q.
Proof.
  induction q as [|c q IH]; intros n Hu Hcf Hq.
  - unfold stat. cbn. rewrite kind_of_renamed. reflexivity.
  - destruct n as [b|es]; [destruct Hq as [x Hx]; discriminate Hx|].
    cbn [lookup] in Hq. cbn [newpath].
    destruct (assoc es c) as [ch|] eqn:Hc; [|destruct Hq as [x Hx]; discriminate Hx].
    apply assoc_In in Hc as Hin.
    apply names_unique_dir in Hu as [Hnd Hu].
    apply collision_free_dir in Hcf as [Hnt Hfr].
    assert (Hok : Forall (fun e => assoc es (fst e) = Some (snd e)
                     /\ (skipped_ (fst e) (isDir (snd e)) = false ->
                         is_Some (FindSubmatch reg (fst e)) ->
                         ~ In (newname_ (fst e)) (map fst es))) es).
    { rewrite Forall_forall in Hfr |- *. intros [c1 ch1] He.
      destruct (Hfr _ He) as [Hf1 _]. cbn [fst snd] in *. split.
      - apply assoc_first; [exact Hnd|apply list_elem_of_In; exact He].
      - intros Hs [m0 Hm]. unfold fresh_name in Hf1. rewrite Hs, Hm in Hf1.
        apply andb_prop in Hf1 as [_ Hn]. apply bool_decide_eq_true in Hn.
        intros H. apply Hn. apply list_elem_of_In. exact H. }
    pose proof (assoc_rename_entries_target es es Hnd Hnt Hok) as Ht.
    rewrite Forall_forall in Ht, Hu, Hfr.
    specialize (Ht (c, ch) ltac:(apply list_elem_of_In; exact Hin)).
    specialize (Hu (c, ch) ltac:(apply list_elem_of_In; exact Hin)).
    destruct (Hfr (c, ch) ltac:(apply list_elem_of_In; exact Hin)) as [_ Hcfc].
    cbn [fst snd] in Ht, Hu, Hcfc. unfold target in Ht.
    rewrite renamed_dir. unfold stat.
    destruct (skipped ignoreMap c (isDir ch)) eqn:Hs.
    + cbn [lookup]. rewrite Ht, Hc. reflexivity.
    + destruct Hcfc as [Hcfc|Hcfc]; [discriminate Hcfc|].
      cbn [lookup]. rewrite Ht, Hc. apply (IH ch Hu Hcfc Hq).
Qed.

End Entries.
(** ** The renames of a run *)

Lemma Base_snoc (d : path) (c : string) : Filepath.Base (d ++ [c]) = c.
Proof. unfold Filepath.Base. apply last_last. Qed.

Lemma newroot_of_plan replace reg ignoreMap (d : path) (c : string) (t : node) :
  (skipped ignoreMap c (isDir t) = false -> is_Some (FindSubmatch reg c) ->
   valid_name (newname replace reg c) = true) ->
  match plan replace reg ignoreMap (d ++ [c]) c t with
  | r0 :: _ => if decide (Old r0 = d ++ [c]) then New r0 else d ++ [c]
  | [] => d ++ [c]
  end = d ++ [target replace reg ignoreMap c (isDir t)].
Proof.
  intros Hv. unfold target.
  assert (Hself : forall l,
            (skipped ignoreMap c (isDir t) = false) ->
            Forall (fun op => exists c' rel, Old op = (d ++ [c]) ++ c' :: rel) l ->
            match rename_of replace reg (d ++ [c]) c ++ l with
            | r0 :: _ => if decide (Old r0 = d ++ [c]) then New r0 else d ++ [c]
            | [] => d ++ [c]
            end = d ++ [newname replace reg c]).
  { intros l Hs Hl. unfold rename_of.
    destruct (FindSubmatch reg c) as [m0|] eqn:Hm.
    - cbn. rewrite decide_True by reflexivity.
      rewrite Dir_snoc. apply Join_valid. apply Hv; [exact Hs|eauto].
    - unfold newname. rewrite Hm. cbn. destruct l as [|r0 l]; [reflexivity|].
      apply Forall_cons in Hl as [(c' & rel & Hr0) _].
      rewrite decide_False; [reflexivity|].
      rewrite Hr0. intros E. apply (f_equal length) in E.
      rewrite !length_app in E. cbn in E. lia. }
  destruct t as [b|es].
  - cbn [plan isDir]. unfold skipped at 1. rewrite andb_false_r.
    rewrite <- (app_nil_r (rename_of _ _ _ _)).
    apply Hself; [unfold skipped; apply andb_false_r|constructor].
  - rewrite plan_dir. cbn [isDir] in *.
    destruct (skipped ignoreMap c true) eqn:Hs; [reflexivity|].
    apply Hself; [reflexivity|].
    eapply Forall_impl; [apply plan_children_below|].
    intros op (c' & rel & _ & Ho). eauto.
Qed.

Lemma assoc_step_target replace reg ignoreMap (c : string) (t : node)
  (L : list (string * node)) :
  assoc L c = Some t ->
  assoc (step replace reg ignoreMap c t (renamed replace reg ignoreMap t) L)
        (target replace reg ignoreMap c (isDir t))
  = Some (if skipped ignoreMap c (isDir t) then t
          else renamed replace reg ignoreMap t).
Proof.
  intros Hc. unfold step, target.
  destruct (skipped ignoreMap c (isDir t)); [exact Hc|].
  destruct (FindSubmatch reg c) as [m0|] eqn:Hm.
  - apply assoc_put_eq.
  - unfold newname. rewrite Hm, assoc_alter_eq, Hc. reflexivity.
Qed.

(** The current version ([part_000]): the renames planned by the walk are
    executed in the reverse of the order of discovery; every one of them
    finds its source in place when its turn comes, whatever the tree; and
    when no entry is renamed
    onto a name taken in its directory, all of them succeed, the run goes
    on from the renamed root, and every entry of the tree is found under
    the new names of its parents, a file with its bytes and a directory
    as a directory. *)
Theorem renames_run_deepest_first :
  forall (rt : Runtime) (fs : node) (d : path) (c : string)
         (L : list (string * node)) (t : node)
         (replace : string) (reg : Regexp) (ignoreMap : gmap string bool)
         (renames : slice RenameOp),
    lookup fs d = Some (Dir L) ->
    assoc L c = Some t ->
    names_unique t = true ->
    Walk (d ++ [c]) (renameDirs_visit replace reg ignoreMap) Slice.empty fs
    = Ok renames ->
    rename_loop (elems renames) (len renames) fs
    = exec_renames (rev (elems renames)) fs
    /\ sources_present (rev (elems renames)) fs
    /\ (entry_ok replace reg ignoreMap c t L ->
        let fs' := alter_at d (fun _ => Dir (step replace reg ignoreMap c t
                                               (renamed replace reg ignoreMap t) L)) fs in
        let root' := d ++ [target replace reg ignoreMap c (isDir t)] in
        renameDirs (d ++ [c]) replace reg ignoreMap fs = Ok (root', None, fs')
        /\ forall q, is_Some (lookup t q) ->
                     stat fs' (root' ++ (if skipped ignoreMap c (isDir t) then q
                                         else newpath replace reg ignoreMap t q))
                     = stat fs ((d ++ [c]) ++ q)).
Proof.
  intros rt fs d c L t replace reg ignoreMap renames Hd Hc Hu Hwalk.
  assert (Ht : lookup fs (d ++ [c]) = Some t).
  { rewrite lookup_app, Hd. cbn. rewrite Hc. reflexivity. }
  pose proof (Walk_plan replace reg ignoreMap _ _ _ _ Ht Hwalk) as Hplan.
  rewrite Base_snoc in Hplan.
  split; [apply rename_loop_all|]. split.
  - rewrite Hplan. apply sources_present_ordered.
    + apply ordered_rev. apply plan_ordered. exact Hu.
    + apply Forall_rev. eapply Forall_impl; [apply (plan_sources _ _ _ t _ _ Hu)|].
      intros op (rel & -> & Hl). rewrite lookup_app, Ht. exact Hl.
  - intros Hok fs' root'.
    pose proof (exec_entry replace reg ignoreMap t d c fs L Hd Hok) as Hexec.
    split.
    + unfold renameDirs. rewrite Hwalk. cbn [mbind result_bind].
      rewrite rename_loop_all, Hplan, Hexec.
      rewrite newroot_of_plan; [reflexivity|].
      intros Hs Hm. destruct Hok as (_ & _ & _ & Hfresh). apply (Hfresh Hs Hm).
    + intros q Hq. unfold stat.
      rewrite (lookup_app (d ++ [c]) q fs), Ht. cbn [mbind option_bind].
      unfold fs', root'. rewrite <- app_assoc, (lookup_app d).
      rewrite (lookup_alter_at d _ fs (Dir L) Hd). cbn [mbind option_bind lookup app].
      rewrite (assoc_step_target replace reg ignoreMap c t L Hc).
      destruct Hok as (_ & _ & Hcf & _).
      destruct (skipped ignoreMap c (isDir t)); [reflexivity|].
      destruct Hcf as [Hcf|Hcf]; [discriminate Hcf|].
      apply (stat_renamed replace reg ignoreMap q t Hu Hcf Hq).
Qed.

Lemma renames_run_deepest_first_witness :
  renameDirs (rt := go_runtime) ["top"; "aFoo"] "bar" regexp_foo
    (splitToMap (ToLower defaultIgnores) "," "") tree_chain
  = Ok (["top"; "abar"], None,
        Dir [("top", Dir [("abar", Dir [("bbar", Dir [("cbar",
               Dir [("bar.txt", File (bytes "foo"))])])])])])
  /\ stat tree_chain ["top"; "aFoo"; "bfoo"; "cFOO"; "foo.txt"]
     = Some (KFile (bytes "foo")).
Proof.
  pose (ign := splitToMap (ToLower defaultIgnores) "," "").
  pose (L := [("aFoo", Dir [("bfoo", Dir [("cFOO", Dir [("foo.txt", File (bytes "foo"))])])])]).
  assert (Hw : Walk (["top"] ++ ["aFoo"])
                 (renameDirs_visit (rt := go_runtime) "bar" regexp_foo ign)
                 Slice.empty tree_chain
               = Ok (mkSlice
                       [mkRenameOp ["top"; "aFoo"] ["top"; "abar"];
                        mkRenameOp ["top"; "aFoo"; "bfoo"] ["top"; "aFoo"; "bbar"];
                        mkRenameOp ["top"; "aFoo"; "bfoo"; "cFOO"]
                                   ["top"; "aFoo"; "bfoo"; "cbar"];
                        mkRenameOp ["top"; "aFoo"; "bfoo"; "cFOO"; "foo.txt"]
                                   ["top"; "aFoo"; "bfoo"; "cFOO"; "bar.txt"]] 4))
    by (vm_compute; reflexivity).
  destruct (renames_run_deepest_first go_runtime tree_chain ["top"] "aFoo" L
              (Dir [("bfoo", Dir [("cFOO", Dir [("foo.txt", File (bytes "foo"))])])])
              "bar" regexp_foo ign _ eq_refl eq_refl eq_refl Hw) as (_ & _ & Hnest).
  assert (Hok : entry_ok "bar" regexp_foo ign "aFoo"
                  (Dir [("bfoo", Dir [("cFOO", Dir [("foo.txt", File (bytes "foo"))])])]) L).
  { split; [reflexivity|]. split; [reflexivity|].
    split; [right; vm_compute; reflexivity|].
    intros _ _. split; vm_compute; reflexivity. }
  destruct (Hnest Hok) as [Hrun Hstat].
  split.
  - etransitivity; [exact Hrun|]. vm_compute. reflexivity.
  - specialize (Hstat ["bfoo"; "cFOO"; "foo.txt"] ltac:(vm_compute; eauto)).
    etransitivity; [symmetry; exact Hstat|]. vm_compute. reflexivity.
Defined.

(** C2 fails on the earlier version ([main.go]): its loop runs the
    renames in the order of discovery, parents first, and the walk writes
    the source of each rename as if the parents had been renamed already,
    with the text matched in the entry's own name.  For the tree
    [root/Foo/foo.txt] and the term [foo] it records [root/Foo -> root/bar]
    and then [root/Foo/foo.txt -> root/Foo/bar.txt]: after the first
    rename the source of the second is gone, the rename fails with
    [ENOENT] and the run stops with the file under its old name.  The
    same two renames run in the reverse order both succeed, and the
    current version, which runs them so, ends with [root/bar/bar.txt]. *)
Theorem legacy_rename_misses_its_source :
  (forall (rt : Runtime) (dir : path) (replace : string) (reg : Regexp)
          (ignoreMap : gmap string bool) (fs : node) (renames : slice RenameOp),
      Walk dir (Legacy.renameDirs_visit dir replace reg ignoreMap) Slice.empty fs
      = Ok renames ->
      Legacy.renameDirs dir replace reg ignoreMap fs
      = Ok (snd (exec_renames (elems renames) fs),
            fst (exec_renames (elems renames) fs)))
  /\ (exists (re : Regexp) (renames : slice RenameOp),
         MustCompile (Legacy.pattern_of "foo") = Ok re
         /\ Walk ["root"]
              (Legacy.renameDirs_visit (rt := go_runtime) ["root"] "bar" re
                 (splitToMap (ToLower defaultIgnores) "," ""))
              Slice.empty tree_mixed
            = Ok renames
         /\ elems renames
            = [mkRenameOp ["root"; "Foo"] ["root"; "bar"];
               mkRenameOp ["root"; "Foo"; "foo.txt"] ["root"; "Foo"; "bar.txt"]]
         /\ exec_renames (elems renames) tree_mixed
            = (Dir [("root", Dir [("bar", Dir [("foo.txt", File (bytes "x"))])])],
               Some (CouldntRename ["root"; "Foo"; "foo.txt"]
                       ["root"; "Foo"; "bar.txt"] ENOENT))
         /\ exec_renames (rev (elems renames)) tree_mixed
            = (Dir [("root", Dir [("bar", Dir [("bar.txt", File (bytes "x"))])])],
               None))
  /\ Legacy.run (rt := go_runtime) ["root"] "foo" "bar" defaultIgnores "txt" false tree_mixed
     = Ok (Some (CouldntRename ["root"; "Foo"; "foo.txt"] ["root"; "Foo"; "bar.txt"] ENOENT),
           Dir [("root", Dir [("bar", Dir [("foo.txt", File (bytes "x"))])])])
  /\ run (rt := go_runtime) ["root"] "foo" "bar" defaultIgnores "txt" false tree_mixed
     = Ok (None, Dir [("root", Dir [("bar", Dir [("bar.txt", File (bytes "x"))])])]).
Proof.
  split; [|split; [|split]].
  - intros rt dir replace reg ignoreMap fs renames HW.
    unfold Legacy.renameDirs. rewrite HW. cbn [mbind result_bind].
    rewrite legacy_rename_loop_exec.
    destruct (exec_renames (elems renames) fs) as [fs' err]. reflexivity.
  - eexists. eexists. split; [vm_compute; reflexivity|].
    split; [vm_compute; reflexivity|].
    repeat split; vm_compute; reflexivity.
  - vm_compute. reflexivity.
  - vm_compute. reflexivity.
Qed.
(** ** The content pipeline *)

Section Pipeline.
Context {rt : Runtime}.

Lemma read_elems (paths : slice path) (fs : node) :
  elems (read paths fs) = omap (read_one fs) (elems paths).
Proof.
  unfold read.
  assert (H : forall l (acc : slice ReadOp),
             elems (fold_left
                      (fun readOps path =>
                         if decide (path = []) then readOps
                         else match ReadFile path fs with
                              | inr _ => readOps
                              | inl bytes => append readOps (mkReadOp path bytes)
                              end) l acc)
             = elems acc ++ omap (read_one fs) l).
  { induction l as [|p l IH]; intros acc; [symmetry; apply app_nil_r|].
    cbn [fold_left]. rewrite IH. simpl omap. unfold read_one.
    destruct (list_eq_dec p []) as [Hp|Hp].
    { rewrite !decide_True by exact Hp. reflexivity. }
    rewrite !decide_False by exact Hp.
    destruct (ReadFile p fs); [|reflexivity].
    rewrite elems_append, <- app_assoc. reflexivity. }
  apply H.
Qed.

Lemma update_elems (reads : slice ReadOp) (reg : Regexp) (replace : string)
  (writes : slice WriteOp) :
  update reads reg replace = Ok writes ->
  elems writes = omap (write_for reg replace) (elems reads)
  /\ Forall (fun r => forall match0,
                 FindSubmatch reg (string_of_list_ascii (rContents r)) = Some match0 ->
                 is_Some (match0 !! 1)) (elems reads).
Proof.
  unfold update.
  assert (H : forall l (acc : slice WriteOp),
             fold_left
               (fun acc read =>
                  writes ← acc;
                  match FindSubmatch reg (string_of_list_ascii (rContents read)) with
                  | Some match0 =>
                      f ← group1 match0;
                      Ok (append writes
                            (mkWriteOp (rPath read)
                               (list_ascii_of_string
                                  (Replace (string_of_list_ascii (rContents read)) f replace))))
                  | None => Ok writes
                  end) l (Ok acc) = Ok writes ->
             elems writes = elems acc ++ omap (write_for reg replace) l
             /\ Forall (fun r => forall match0,
                   FindSubmatch reg (string_of_list_ascii (rContents r)) = Some match0 ->
                   is_Some (match0 !! 1)) l).
  { induction l as [|r l IH]; intros acc.
    - cbn. intros [= ->]. rewrite app_nil_r. split; [reflexivity|constructor].
    - cbn [fold_left]. simpl omap. unfold write_for.
      cbn [mbind result_bind rPath rContents].
      destruct (FindSubmatch reg (string_of_list_ascii (rContents r))) as [m0|] eqn:Hm.
      + unfold group1. destruct (m0 !! 1) as [f|] eqn:Hf.
        * cbn [mbind result_bind default]. intros Hfold.
          apply IH in Hfold as [He Hall]. rewrite elems_append, <- app_assoc in He.
          split; [exact He|]. constructor; [|exact Hall].
          intros m0' E. assert (m0' = m0) as -> by congruence. eauto.
        * cbn [mbind result_bind]. intros Hfold. exfalso.
          clear -Hfold. induction l as [|r' l IHl]; [discriminate Hfold|].
          apply IHl. exact Hfold.
      + intros Hfold. apply IH in Hfold as [He Hall]. split; [exact He|].
        constructor; [|exact Hall]. intros m0' E. congruence. }
  intros Hu. apply H in Hu as [He Hall]. split; [exact He|exact Hall].
Qed.

Lemma parent_is_dir (fs : node) (p : path) :
  p <> [] -> is_Some (lookup fs p) -> stat fs (Filepath.Dir p) = Some KDir.
Proof.
  intros Hp Hl. destruct (Dir_prefix p Hp) as [c Hc]. rewrite Hc in Hl.
  rewrite lookup_app in Hl. unfold stat.
  destruct (lookup fs (Filepath.Dir p)) as [[b|es]|]; cbn in Hl |- *;
    try reflexivity; destruct Hl as [x Hx]; discriminate Hx.
Qed.

Lemma ReadFile_stat (fs : node) (p : path) (b : list ascii) :
  ReadFile p fs = inl b <-> p <> [] /\ stat fs p = Some (KFile b).
Proof.
  unfold ReadFile, stat. destruct p as [|c p].
  - split; [discriminate|]. intros [H _]. congruence.
  - destruct (lookup fs (c :: p)) as [[b'|es]|]; cbn.
    + split; [intros [= ->]; split; [discriminate|reflexivity]|].
      intros [_ [= ->]]. reflexivity.
    + split; [discriminate|]. intros [_ H]. discriminate H.
    + split; [discriminate|]. intros [_ H]. discriminate H.
Qed.

(** Removing a file and writing it anew changes its bytes and nothing
    else. *)
Lemma write_one_stat (fs : node) (w : WriteOp) (b : list ascii) :
  wPath w <> [] ->
  stat fs (wPath w) = Some (KFile b) ->
  forall q,
    stat (write (mkSlice [w] 1) fs) q
    = if decide (q = wPath w) then Some (KFile (wContents w)) else stat fs q.
Proof.
  intros Hp Hst q. unfold write. cbn [elems fold_left].
  set (p := wPath w) in *.
  assert (Hl : exists b', lookup fs p = Some (File b')).
  { unfold stat in Hst. destruct (lookup fs p) as [[b'|es]|]; try discriminate Hst. eauto. }
  destruct Hl as [b' Hl].
  assert (HR : Remove p fs = inl (detach p fs)).
  { unfold Remove. rewrite Hl. destruct p; [congruence|reflexivity]. }
  rewrite HR.
  assert (Hd : forall q, stat (detach p fs) q
                         = if is_prefix p q then None else stat fs q)
    by (apply stat_detach; exact Hp).
  assert (Hself : lookup (detach p fs) p = None).
  { specialize (Hd p). rewrite is_prefix_refl in Hd. unfold stat in Hd.
    destruct (lookup (detach p fs) p); [discriminate Hd|reflexivity]. }
  assert (Hpar : stat (detach p fs) (Filepath.Dir p) = Some KDir).
  { rewrite Hd.
    destruct (Dir_prefix p Hp) as [c Hc].
    replace (is_prefix p (Filepath.Dir p)) with false.
    - apply parent_is_dir; [exact Hp|rewrite Hl; eauto].
    - symmetry. rewrite Hc at 1. apply is_prefix_longer. }
  assert (HW : WriteFile p (wContents w) (detach p fs)
               = inl (attach p (File (wContents w)) (detach p fs))).
  { unfold WriteFile. rewrite Hself.
    apply stat_dir_iff in Hpar as [es Hes]. rewrite Hes.
    destruct p; [congruence|reflexivity]. }
  rewrite HW. rewrite (stat_attach p _ Hp _ q Hpar), Hd.
  destruct (decide (q = p)) as [->|Hne].
  - rewrite is_prefix_refl, drop_all. reflexivity.
  - destruct (is_prefix p q) eqn:E; [|reflexivity].
    apply is_prefix_spec in E as [r ->].
    destruct r as [|c r]; [rewrite app_nil_r in Hne; congruence|].
    rewrite drop_app_length. unfold stat at 2. rewrite lookup_app, Hl. reflexivity.
Qed.

Lemma write_cons (w : WriteOp) (ws : list WriteOp) (c1 c2 : nat) (fs : node) :
  write (mkSlice (w :: ws) c1) fs = write (mkSlice ws c2) (write (mkSlice [w] 1) fs).
Proof. reflexivity. Qed.

Lemma write_stat (ws : list WriteOp) :
  forall (cap : nat) (fs : node),
    Forall (fun w => wPath w <> [] /\ exists b, stat fs (wPath w) = Some (KFile b)) ws ->
    NoDup (map wPath ws) ->
    (forall w, In w ws -> stat (write (mkSlice ws cap) fs) (wPath w)
                          = Some (KFile (wContents w)))
    /\ (forall q, ~ In q (map wPath ws) -> stat (write (mkSlice ws cap) fs) q = stat fs q).
Proof.
  induction ws as [|w ws IH]; intros cap fs Hok Hnd.
  - split; [intros w []|reflexivity].
  - apply Forall_cons in Hok as [[Hp [b Hb]] Hok].
    cbn [map] in Hnd. apply NoDup_cons in Hnd as [Hw Hnd].
    rewrite (write_cons w ws cap cap).
    pose proof (write_one_stat fs w b Hp Hb) as H1.
    assert (Hok' : Forall (fun w' => wPath w' <> [] /\
                      exists b', stat (write (mkSlice [w] 1) fs) (wPath w')
                                 = Some (KFile b')) ws).
    { rewrite Forall_forall in Hok |- *. intros w' Hw'.
      destruct (Hok w' Hw') as [Hp' [b' Hb']]. split; [exact Hp'|].
      rewrite H1. destruct (decide (wPath w' = wPath w)); eauto. }
    destruct (IH cap _ Hok' Hnd) as [IHin IHout]. split.
    + intros w' [<-|Hin]; [|apply IHin; exact Hin].
      rewrite IHout.
      * rewrite H1, decide_True by reflexivity. reflexivity.
      * intros H. apply Hw. apply list_elem_of_In. exact H.
    + intros q Hq. rewrite IHout by (intros H; apply Hq; right; exact H).
      rewrite H1, decide_False; [reflexivity|].
      intros ->. apply Hq. left. reflexivity.
Qed.

Lemma NoDup_omap {A B C : Type} (f : A -> option B) (g : A -> C) (h : B -> C)
  (l : list A) :
  (forall x y, f x = Some y -> h y = g x) ->
  NoDup (map g l) -> NoDup (map h (omap f l)).
Proof.
  intros Hfg. induction l as [|x l IH]; intros Hnd; [constructor|].
  cbn [map] in Hnd. apply NoDup_cons in Hnd as [Hx Hnd]. simpl omap.
  destruct (f x) as [y|] eqn:Hy; [|apply IH; exact Hnd].
  cbn [map]. apply NoDup_cons. split; [|apply IH; exact Hnd].
  rewrite (Hfg x y Hy). intros Hin. apply Hx.
  apply list_elem_of_In in Hin. apply in_map_iff in Hin as (y' & Hy' & Hin).
  apply list_elem_of_In in Hin. apply list_elem_of_omap in Hin as (x' & Hx' & Hfx).
  apply list_elem_of_In. apply in_map_iff. exists x'. split.
  - rewrite <- (Hfg x' y' Hfx). exact Hy'.
  - apply list_elem_of_In. exact Hx'.
Qed.

End Pipeline.
(** C6: over the files read, the update stage makes one write record
    for each file whose contents match and none for the others; the
    record holds the contents with every occurrence of the matched
    substring replaced ([strings.Replace]); after the write stage a
    matching file has those contents, a file that does not match has the
    bytes it had, and no other path of the tree has changed. *)
Theorem update_writes_exactly_the_matching_files :
  forall (rt : Runtime) (fs : node) (paths : slice path) (reg : Regexp)
         (replace : string) (writes : slice WriteOp),
    NoDup (elems paths) ->
    update (read paths fs) reg replace = Ok writes ->
    elems writes = omap (write_for reg replace) (omap (read_one fs) (elems paths))
    /\ (forall p b,
           In p (elems paths) -> ReadFile p fs = inl b ->
           match FindSubmatch reg (string_of_list_ascii b) with
           | Some match0 =>
               exists f,
                 match0 !! 1 = Some f
                 /\ In (mkWriteOp p (list_ascii_of_string
                                       (Replace (string_of_list_ascii b) f replace)))
                       (elems writes)
                 /\ ReadFile p (write writes fs)
                    = inl (list_ascii_of_string
                             (Replace (string_of_list_ascii b) f replace))
           | None =>
               (forall w, In w (elems writes) -> wPath w <> p)
               /\ ReadFile p (write writes fs) = inl b
           end)
    /\ (forall q, (forall w, In w (elems writes) -> wPath w <> q) ->
                  stat (write writes fs) q = stat fs q).
Proof.
  intros rt fs paths reg replace writes Hnd Hupd.
  apply update_elems in Hupd as [He Hgrp]. rewrite read_elems in He, Hgrp.
  split; [exact He|].
  set (reads := omap (read_one fs) (elems paths)) in *.
  assert (Hreads : forall r, In r reads ->
            In (rPath r) (elems paths) /\ rPath r <> []
            /\ stat fs (rPath r) = Some (KFile (rContents r))).
  { intros r Hr. apply list_elem_of_In, list_elem_of_omap in Hr as (p & Hp & Hrp).
    unfold read_one in Hrp. destruct (decide (p = [])) as [|Hne]; [discriminate|].
    destruct (ReadFile p fs) as [b|] eqn:HR; [|discriminate].
    injection Hrp as <-. cbn. apply ReadFile_stat in HR as [_ HR].
    split; [apply list_elem_of_In; exact Hp|]. split; [exact Hne|exact HR]. }
  assert (Hwf : forall r w, write_for reg replace r = Some w -> wPath w = rPath r).
  { intros r w. unfold write_for. destruct (FindSubmatch _ _); [|discriminate].
    intros [= <-]. reflexivity. }
  assert (Hrf : forall p r, read_one fs p = Some r -> rPath r = p).
  { intros p r. unfold read_one. destruct (decide _); [discriminate|].
    destruct (ReadFile p fs); [|discriminate]. intros [= <-]. reflexivity. }
  assert (Hndw : NoDup (map wPath (elems writes))).
  { rewrite He. apply (NoDup_omap _ rPath wPath _ Hwf).
    apply (NoDup_omap _ id rPath _ Hrf). rewrite map_id. exact Hnd. }
  assert (Hokw : Forall (fun w => wPath w <> [] /\
                    exists b, stat fs (wPath w) = Some (KFile b)) (elems writes)).
  { rewrite He. apply Forall_forall. intros w Hw.
    apply list_elem_of_omap in Hw as (r & Hr & Hrw).
    rewrite (Hwf r w Hrw). apply list_elem_of_In in Hr.
    destruct (Hreads r Hr) as (_ & Hne & Hst). eauto. }
  destruct writes as [ws cap]. cbn [elems] in *.
  destruct (write_stat ws cap fs Hokw Hndw) as [Hin Hout].
  split.
  - intros p b Hp HR.
    assert (Hr : In (mkReadOp p b) reads).
    { apply list_elem_of_In, list_elem_of_omap. exists p.
      split; [apply list_elem_of_In; exact Hp|].
      unfold read_one. rewrite HR.
      apply ReadFile_stat in HR as [Hne _]. rewrite decide_False by exact Hne.
      reflexivity. }
    pose proof HR as HR'. apply ReadFile_stat in HR' as [Hne Hst].
    destruct (FindSubmatch reg (string_of_list_ascii b)) as [m0|] eqn:Hm.
    + rewrite Forall_forall in Hgrp.
      destruct (Hgrp (mkReadOp p b) ltac:(apply list_elem_of_In; exact Hr) m0 Hm)
        as [f Hf].
      exists f. split; [exact Hf|].
      assert (Hw : In (mkWriteOp p (list_ascii_of_string
                         (Replace (string_of_list_ascii b) f replace))) ws).
      { rewrite He. apply list_elem_of_In, list_elem_of_omap.
        exists (mkReadOp p b). split; [apply list_elem_of_In; exact Hr|].
        unfold write_for. cbn [rContents rPath]. rewrite Hm, Hf. reflexivity. }
      split; [exact Hw|]. apply ReadFile_stat. split; [exact Hne|].
      apply (Hin _ Hw).
    + assert (Hnone : forall w, In w ws -> wPath w <> p).
      { intros w Hw E. rewrite He in Hw.
        apply list_elem_of_In, list_elem_of_omap in Hw as (r & Hr' & Hrw).
        pose proof (Hwf r w Hrw) as Hpath.
        assert (r = mkReadOp p b) as ->.
        { apply list_elem_of_In in Hr'.
          destruct (Hreads r Hr') as (_ & _ & Hst').
          rewrite <- Hpath, E, Hst in Hst'. injection Hst' as Hb.
          destruct r as [rp rb]. cbn in *. congruence. }
        unfold write_for in Hrw. cbn [rContents] in Hrw. rewrite Hm in Hrw.
        discriminate Hrw. }
      split; [exact Hnone|]. apply ReadFile_stat. split; [exact Hne|].
      rewrite Hout; [exact Hst|].
      intros H. apply in_map_iff in H as (w & Hwp & Hw). exact (Hnone w Hw Hwp).
  - intros q Hq. apply Hout. intros H.
    apply in_map_iff in H as (w & Hwp & Hw). exact (Hq w Hw Hwp).
Qed.

Lemma update_writes_exactly_the_matching_files_witness :
  exists writes,
    update (rt := go_runtime)
      (read (rt := go_runtime)
         (mkSlice [["root"; "a.txt"]; ["root"; "b.txt"]] 2) tree_two_files)
      (mkRegexp (literal_prog "oldname") 1) "NewName" = Ok writes
    /\ elems writes
       = [mkWriteOp ["root"; "a.txt"] (bytes "Hello OldName, NewName")].
Proof.
  eexists. split; [vm_compute; reflexivity|].
  etransitivity.
  - apply (update_writes_exactly_the_matching_files go_runtime tree_two_files
             (mkSlice [["root"; "a.txt"]; ["root"; "b.txt"]] 2)
             (mkRegexp (literal_prog "oldname") 1) "NewName").
    + apply (bool_decide_unpack (NoDup [["root"; "a.txt"]; ["root"; "b.txt"]])).
      vm_compute. exact I.
    + vm_compute. reflexivity.
  - vm_compute. reflexivity.
Defined.
(** ** The pooled path within and beyond the capacity *)

Lemma elems_drain {A : Type} {rt : Runtime} {gt : GoType A} (l : list A) :
  elems (drain l) = l.
Proof.
  unfold drain.
  assert (H : forall l (acc : slice A), elems (fold_left append l acc) = elems acc ++ l).
  { clear l. induction l as [|x l IH]; intros acc; [symmetry; apply app_nil_r|].
    cbn [fold_left]. rewrite IH, elems_append, <- app_assoc. reflexivity. }
  apply H.
Qed.

Lemma concat_chunks {A : Type} (k : nat) (l : list A) (n : nat) :
  List.concat (map (fun i => take k (drop (i * k) l)) (seq 0 n)) = take (n * k) l.
Proof.
  induction n as [|n IH]; [reflexivity|].
  rewrite seq_S, map_app, concat_app, IH. cbn [map List.concat Nat.add].
  rewrite app_nil_r, take_take_drop. f_equal. lia.
Qed.

Section Groups.
Context {A : Type} {gt : GoType A}.

Lemma sub_chunk (items : slice A) (k i : nat) :
  (i + 1) * k <= capacity items ->
  sub items (i * k) ((i + 1) * k) = Some (chunk items k i).
Proof.
  intros H. unfold sub, chunk.
  replace (i * k <=? (i + 1) * k) with true by (symmetry; apply Nat.leb_le; lia).
  replace ((i + 1) * k <=? capacity items) with true
    by (symmetry; apply Nat.leb_le; exact H).
  cbn [andb]. do 3 f_equal. lia.
Qed.

Lemma sub_beyond (items : slice A) (k i : nat) :
  capacity items < (i + 1) * k -> sub items (i * k) ((i + 1) * k) = None.
Proof.
  intros H. unfold sub.
  replace ((i + 1) * k <=? capacity items) with false
    by (symmetry; apply Nat.leb_gt; exact H).
  rewrite andb_false_r. reflexivity.
Qed.

Lemma groups_in_range (items : slice A) :
  GOPROCESSES * (len items / GOPROCESSES + 1) <= capacity items ->
  groups items
  = Ok (map (chunk items (len items / GOPROCESSES + 1)) (seq 0 GOPROCESSES)).
Proof.
  intros H. unfold groups. set (k := len items / GOPROCESSES + 1) in *.
  assert (Hfold : forall l acc,
            Forall (fun i => (i + 1) * k <= capacity items) l ->
            fold_left
              (fun acc i =>
                 gs ← acc;
                 match sub items (i * k) ((i + 1) * k) with
                 | Some grp => Ok (gs ++ [grp])
                 | None => Panic "slice bounds out of range"
                 end) l (Ok acc)
            = Ok (acc ++ map (chunk items k) l)).
  { induction l as [|i l IH]; intros acc Hl.
    - cbn. rewrite app_nil_r. reflexivity.
    - apply Forall_cons in Hl as [Hi Hl]. cbn [fold_left mbind result_bind].
      rewrite (sub_chunk items k i Hi), (IH _ Hl), <- app_assoc. reflexivity. }
  rewrite (Hfold _ []); [reflexivity|].
  apply Forall_forall. intros i Hi. apply list_elem_of_In, in_seq in Hi. nia.
Qed.

Lemma groups_beyond (items : slice A) :
  capacity items < GOPROCESSES * (len items / GOPROCESSES + 1) ->
  groups items = Panic "slice bounds out of range".
Proof.
  intros H. unfold groups. set (k := len items / GOPROCESSES + 1) in *.
  assert (Hfold : forall l (r : result (list (slice A))),
            r <> OutOfModel ->
            (r = Panic "slice bounds out of range"
             \/ Exists (fun i => capacity items < (i + 1) * k) l) ->
            (forall msg, r = Panic msg -> msg = "slice bounds out of range") ->
            fold_left
              (fun acc i =>
                 gs ← acc;
                 match sub items (i * k) ((i + 1) * k) with
                 | Some grp => Ok (gs ++ [grp])
                 | None => Panic "slice bounds out of range"
                 end) l r
            = Panic "slice bounds out of range").
  { induction l as [|i l IH]; intros r Hr Hex Hmsg.
    - destruct Hex as [->|Hex]; [reflexivity|]. apply Exists_nil in Hex. contradiction.
    - cbn [fold_left]. apply IH.
      + destruct r as [gs|msg|]; cbn [mbind result_bind]; [|discriminate|congruence].
        destruct (sub items (i * k) ((i + 1) * k)); discriminate.
      + destruct r as [gs|msg|]; cbn [mbind result_bind].
        * destruct Hex as [Hex|Hex]; [discriminate Hex|].
          apply Exists_cons in Hex as [Hi|Hex]; [|right; exact Hex].
          left. rewrite (sub_beyond items k i Hi). reflexivity.
        * left. rewrite (Hmsg msg eq_refl). reflexivity.
        * congruence.
      + intros msg. destruct r as [gs|msg'|]; cbn [mbind result_bind].
        * destruct (sub items (i * k) ((i + 1) * k)); [discriminate|].
          intros [= <-]. reflexivity.
        * intros [= <-]. apply Hmsg. reflexivity.
        * discriminate. }
  apply Hfold; [discriminate| |discriminate].
  right. apply Exists_exists. exists (GOPROCESSES - 1). split.
  - apply list_elem_of_In, in_seq. unfold GOPROCESSES. lia.
  - unfold GOPROCESSES in *. lia.
Qed.

Lemma concat_groups (items : slice A) (k : nat) :
  List.concat (map (fun g => elems g) (map (chunk items k) (seq 0 GOPROCESSES)))
  = take (GOPROCESSES * k) (backing items).
Proof. rewrite map_map. cbn [chunk elems]. apply concat_chunks. Qed.

End Groups.

Section Brokers.
Context {rt : Runtime}.

Lemma omap_concat {A B : Type} (f : A -> option B) (ls : list (list A)) :
  List.concat (map (omap f) ls) = omap f (List.concat ls).
Proof.
  induction ls as [|l ls IH]; [reflexivity|].
  cbn [map List.concat]. rewrite IH, omap_app. reflexivity.
Qed.

Lemma omap_replicate_none {A B : Type} (f : A -> option B) (x : A) (n : nat) :
  f x = None -> omap f (replicate n x) = [].
Proof. intros H. induction n as [|n IH]; [reflexivity|]. cbn. rewrite H. exact IH. Qed.

Lemma take_backing {A : Type} {gt : GoType A} (items : slice A) (n : nat) :
  len items <= n ->
  exists z, take n (backing items) = elems items ++ replicate z zero.
Proof.
  intros H. unfold backing. rewrite take_app. unfold len in H.
  rewrite take_ge by exact H. rewrite take_replicate. eauto.
Qed.

(** Within the capacity the pooled [brokerRead] gathers the records the
    sequential path builds, in the order the channel hands them over;
    beyond it the program panics. *)
Lemma brokerRead_in_range (items : slice path) (fs : node) :
  pooled items = true ->
  GOPROCESSES * (len items / GOPROCESSES + 1) <= capacity items ->
  exists a, brokerRead items fs = Ok a
            /\ Permutation (elems a) (elems (read items fs)).
Proof.
  intros Hp Hcap. unfold brokerRead. rewrite Hp, (groups_in_range items Hcap).
  cbn [mbind result_bind]. eexists. split; [reflexivity|].
  rewrite elems_drain, read_elems. etransitivity; [apply deliver_perm|].
  rewrite (map_ext _ (fun g => omap (read_one fs) (elems g)))
    by (intros g; apply read_elems).
  rewrite <- (map_map (fun g => elems g) (omap (read_one fs))).
  rewrite omap_concat, concat_groups.
  destruct (take_backing items (GOPROCESSES * (len items / GOPROCESSES + 1)))
    as [z ->].
  { pose proof (Nat.div_mod_eq (len items) GOPROCESSES) as Hdm.
    pose proof (Nat.mod_upper_bound (len items) GOPROCESSES ltac:(discriminate)).
    nia. }
  rewrite omap_app, omap_replicate_none, app_nil_r; reflexivity.
Qed.

Lemma brokerRead_beyond (items : slice path) (fs : node) :
  pooled items = true ->
  capacity items < GOPROCESSES * (len items / GOPROCESSES + 1) ->
  brokerRead items fs = Panic "slice bounds out of range".
Proof.
  intros Hp Hcap. unfold brokerRead. rewrite Hp, (groups_beyond items Hcap).
  reflexivity.
Qed.

Lemma update_ok (items : slice ReadOp) (reg : Regexp) (replace : string) :
  Forall (fun r => forall match0,
              FindSubmatch reg (string_of_list_ascii (rContents r)) = Some match0 ->
              is_Some (match0 !! 1)) (elems items) ->
  exists w, update items reg replace = Ok w
            /\ elems w = omap (write_for reg replace) (elems items).
Proof.
  intros Hall.
  assert (H : exists w, update items reg replace = Ok w).
  { unfold update. generalize (Slice.empty : slice WriteOp) as acc.
    induction (elems items) as [|r l IH]; intros acc; [cbn; eauto|].
    apply Forall_cons in Hall as [Hr Hall]. cbn [fold_left mbind result_bind].
    destruct (FindSubmatch reg (string_of_list_ascii (rContents r))) as [m0|] eqn:Hm.
    - destruct (Hr m0 eq_refl) as [f Hf]. unfold group1. rewrite Hf.
      cbn [mbind result_bind]. apply IH. exact Hall.
    - apply IH. exact Hall. }
  destruct H as [w Hw]. exists w. split; [exact Hw|].
  apply update_elems in Hw as [He _]. exact He.
Qed.

Lemma update_groups (reg : Regexp) (replace : string) (gs : list (slice ReadOp)) :
  Forall (fun g => Forall (fun r => forall match0,
              FindSubmatch reg (string_of_list_ascii (rContents r)) = Some match0 ->
              is_Some (match0 !! 1)) (elems g)) gs ->
  forall acc,
    fold_left (fun acc lst => done ← acc; w ← update lst reg replace;
                              Ok (done ++ elems w)) gs (Ok acc)
    = Ok (acc ++ List.concat (map (fun g => omap (write_for reg replace) (elems g)) gs)).
Proof.
  induction gs as [|g gs IH]; intros Hall acc.
  - cbn. rewrite app_nil_r. reflexivity.
  - apply Forall_cons in Hall as [Hg Hall].
    destruct (update_ok g reg replace Hg) as (w & Hw & He).
    cbn [fold_left mbind result_bind map List.concat]. rewrite Hw.
    cbn [mbind result_bind]. rewrite (IH Hall), He, <- app_assoc. reflexivity.
Qed.

(** Within the capacity, and when the pattern does not match empty
    contents, the pooled [brokerUpdate] gathers the records of the
    sequential path, in the order the channel hands them over. *)
Lemma brokerUpdate_in_range (items : slice ReadOp) (reg : Regexp) (replace : string)
  (w : slice WriteOp) :
  pooled items = true ->
  GOPROCESSES * (len items / GOPROCESSES + 1) <= capacity items ->
  FindSubmatch reg EmptyString = None ->
  update items reg replace = Ok w ->
  exists a, brokerUpdate items reg replace = Ok a
            /\ Permutation (elems a) (elems w).
Proof.
  intros Hp Hcap Hempty Hupd. apply update_elems in Hupd as [He Hall].
  unfold brokerUpdate. rewrite Hp, (groups_in_range items Hcap).
  cbn [mbind result_bind].
  set (k := len items / GOPROCESSES + 1) in *.
  destruct (take_backing items (GOPROCESSES * k)) as [z Hz].
  { pose proof (Nat.div_mod_eq (len items) GOPROCESSES) as Hdm.
    pose proof (Nat.mod_upper_bound (len items) GOPROCESSES ltac:(discriminate)).
    unfold k. nia. }
  assert (Hzero : write_for reg replace zero = None).
  { unfold write_for.
    change (string_of_list_ascii (rContents zero)) with EmptyString.
    rewrite Hempty. reflexivity. }
  assert (Hback : Forall (fun r => forall match0,
              FindSubmatch reg (string_of_list_ascii (rContents r)) = Some match0 ->
              is_Some (match0 !! 1)) (backing items)).
  { unfold backing. apply Forall_app. split; [exact Hall|].
    apply Forall_forall. intros r Hr. apply elem_of_replicate in Hr as [-> _].
    change (string_of_list_ascii (rContents zero)) with EmptyString.
    rewrite Hempty. discriminate. }
  rewrite update_groups.
  - cbn [app mbind result_bind].
    rewrite <- (map_map (fun g => elems g) (omap (write_for reg replace))).
    rewrite omap_concat, concat_groups, Hz, omap_app.
    rewrite (omap_replicate_none _ _ _ Hzero), app_nil_r, <- He.
    replace (len items <? length (elems w)) with false.
    + eexists. split; [reflexivity|]. rewrite elems_drain. apply deliver_perm.
    + symmetry. apply Nat.ltb_ge. rewrite He. unfold len.
      clear. induction (elems items) as [|r l IH]; [cbn; lia|].
      cbn [omap list_omap]. destruct (write_for reg replace r); cbn [length]; lia.
  - apply Forall_forall. intros g Hg.
    apply list_elem_of_fmap in Hg as (i & -> & _). cbn [chunk elems].
    apply Forall_take, Forall_drop. exact Hback.
Qed.

End Brokers.

(** Two hundred paths sit in an array of 256, which the 48 groups of 5
    fit: the pooled [brokerRead] gives the records the sequential path
    gives. *)
Lemma brokerRead_two_hundred (fs : node) :
  let readPaths := drain (rt := go_runtime) paths_two_hundred in
  len readPaths = 200 /\ capacity readPaths = 256
  /\ exists a, brokerRead (rt := go_runtime) readPaths fs = Ok a
               /\ Permutation (elems a)
                    (elems (read (rt := go_runtime) readPaths fs)).
Proof.
  cbv zeta. split; [vm_compute; reflexivity|]. split; [vm_compute; reflexivity|].
  apply brokerRead_in_range; [vm_compute; reflexivity|].
  apply Nat.leb_le. vm_compute. reflexivity.
Qed.
(** ** Runs that find nothing, and runs that must be repeated *)






Section Totality.
Context {rt : Runtime}.
Variables (replace : string) (reg : Regexp) (ignoreMap : gmap string bool).
Hypothesis groups_ok :
  forall s match0, FindSubmatch reg s = Some match0 -> is_Some (match0 !! 1).





End Totality.





(** * The maps of names: [splitToMap] and the ignore list of [main] *)

Lemma fold_insert_lookup (prefix : string) (l : list string) :
  forall (m0 : gmap string bool) (k : string),
    fold_left (fun m s => <[prefix +:+ ToLower s := true]> m) l m0 !! k
    = if bool_decide (Exists (fun s => k = prefix +:+ ToLower s) l)
      then Some true else m0 !! k.
Proof.
  induction l as [|s l IH]; intros m0 k; cbn [fold_left].
  - rewrite bool_decide_eq_false_2; [reflexivity|]. intros H. inversion H.
  - rewrite IH. destruct (decide (k = prefix +:+ ToLower s)) as [->|Hne].
    + rewrite (bool_decide_eq_true_2 (Exists _ (s :: l))) by (left; reflexivity).
      destruct (bool_decide _); [reflexivity|]. apply lookup_insert_eq.
    + rewrite lookup_insert_ne by congruence.
      destruct (decide (Exists (fun s0 => k = prefix +:+ ToLower s0) l)) as [He|He].
      * rewrite !bool_decide_eq_true_2; [reflexivity| right; exact He | exact He].
      * rewrite !bool_decide_eq_false_2; [reflexivity| |exact He].
        intros H. inversion H; subst; contradiction.
Qed.

Lemma splitToMap_lookup (str split prefix k : string) :
  splitToMap str split prefix !! k
  = if bool_decide (Exists (fun s => k = prefix +:+ ToLower s) (Split str split))
    then Some true else None.
Proof.
  unfold splitToMap. rewrite fold_insert_lookup, lookup_empty. reflexivity.
Qed.

Lemma has_key_splitToMap (str split prefix k : string) :
  has_key (splitToMap str split prefix) k = true
  <-> exists s, s ∈ Split str split /\ k = prefix +:+ ToLower s.
Proof.
  unfold has_key. rewrite splitToMap_lookup, bool_decide_eq_true.
  destruct (bool_decide_reflect
              (Exists (fun s => k = prefix +:+ ToLower s) (Split str split))) as [He|He].
  - split; [intros _|intros _; eexists; reflexivity].
    apply Exists_exists in He. exact He.
  - split; [intros [x Hx]; discriminate|].
    intros H. exfalso. apply He, Exists_exists. exact H.
Qed.

(** X1: [splitToMap] holds exactly the pieces of the list, lower-cased and
    prefixed, and maps every one of them to [true]. *)
Theorem splitToMap_holds_the_pieces (str split prefix k : string) :
  (has_key (splitToMap str split prefix) k = true
   <-> exists s, s ∈ Split str split /\ k = prefix +:+ ToLower s)
  /\ (splitToMap str split prefix !! k = None
      <-> forall s, s ∈ Split str split -> k <> prefix +:+ ToLower s)
  /\ splitToMap str split prefix !! k <> Some false.
Proof.
  split; [apply has_key_splitToMap|].
  rewrite splitToMap_lookup.
  destruct (bool_decide_reflect
              (Exists (fun s => k = prefix +:+ ToLower s) (Split str split))) as [He|He].
  - split; [|discriminate]. split; [discriminate|].
    intros H. apply Exists_exists in He as (s & Hs & Hk). destruct (H s Hs Hk).
  - split; [|discriminate]. split; [|reflexivity].
    intros _ s Hs Hk. apply He, Exists_exists. eauto.
Qed.

(** ** Letter case *)

Lemma lower_ascii_comma (a : ascii) :
  Ascii.eqb (lower_ascii a) ","%char = Ascii.eqb a ","%char.
Proof.
  destruct a as [[] [] [] [] [] [] [] []]; reflexivity.
Qed.

Lemma split_comma_step (cur : string) (a : ascii) (s : string) :
  Strings.split_go "," 0 cur (String a s)
  = if Ascii.eqb a ","%char
    then String.rev cur :: Strings.split_go "," 0 EmptyString s
    else Strings.split_go "," 0 (String a cur) s.
Proof.
  cbn [Strings.split_go HasPrefix]. destruct (Ascii.eqb a ","); reflexivity.
Qed.

Lemma ToLower_rev_app (a b : string) :
  ToLower (String.rev_app a b) = String.rev_app (ToLower a) (ToLower b).
Proof.
  revert b. induction a as [|x a IH]; intros b; [reflexivity|].
  cbn [String.rev_app ToLower]. rewrite IH. reflexivity.
Qed.

Lemma split_comma_ToLower (s : string) :
  forall cur,
    Strings.split_go "," 0 (ToLower cur) (ToLower s)
    = map ToLower (Strings.split_go "," 0 cur s).
Proof.
  induction s as [|a s IH]; intros cur.
  - cbn. unfold String.rev. rewrite ToLower_rev_app. reflexivity.
  - cbn [ToLower]. rewrite !split_comma_step, lower_ascii_comma.
    destruct (Ascii.eqb a ","); cbn [map].
    + unfold String.rev. rewrite ToLower_rev_app. f_equal. apply (IH EmptyString).
    + apply (IH (String a cur)).
Qed.

Lemma ToLower_idem (s : string) : ToLower (ToLower s) = ToLower s.
Proof.
  induction s as [|a s IH]; [reflexivity|].
  cbn [ToLower]. rewrite lower_ascii_idem, IH. reflexivity.
Qed.

Lemma splitToMap_ToLower (str prefix : string) :
  splitToMap (ToLower str) "," prefix = splitToMap str "," prefix.
Proof.
  unfold splitToMap, Split.
  pose proof (split_comma_ToLower str EmptyString) as Hs.
  cbn [ToLower] in Hs. rewrite Hs. clear Hs.
  generalize (∅ : gmap string bool).
  induction (Strings.split_go "," 0 EmptyString str) as [|x l IH]; intros m0;
    [reflexivity|].
  cbn [map fold_left]. rewrite ToLower_idem. apply IH.
Qed.

(** X2: the lists of names are read without regard to letter case: two
    comma-separated lists that differ in case only give the same map. *)
Theorem splitToMap_ignores_letter_case (a b prefix : string) :
  ToLower a = ToLower b ->
  splitToMap a "," prefix = splitToMap b "," prefix
  /\ splitToMap (ToLower a) "," prefix = splitToMap a "," prefix.
Proof.
  intros H. split; [|apply splitToMap_ToLower].
  rewrite <- (splitToMap_ToLower a), <- (splitToMap_ToLower b), H. reflexivity.
Qed.

Lemma splitToMap_ignores_letter_case_witness :
  splitToMap "TXT,Md" "," "." = splitToMap "txt,MD" "," "."
  /\ splitToMap (ToLower "TXT,Md") "," "." = splitToMap "TXT,Md" "," ".".
Proof.
  apply (splitToMap_ignores_letter_case "TXT,Md" "txt,MD" "."). reflexivity.
Defined.

(** ** The ignore list *)

Lemma HasPrefix_app_inv (p s : string) :
  HasPrefix s p = true -> exists t, s = p +:+ t.
Proof.
  revert s. induction p as [|b p IH]; intros s H.
  - exists s. reflexivity.
  - destruct s as [|a s]; [discriminate|]. cbn [HasPrefix] in H.
    destruct (Ascii.eqb_spec a b) as [->|]; [|discriminate].
    destruct (IH s H) as [t ->]. exists t. reflexivity.
Qed.

Lemma ignore_arg_prefix (i : string) :
  exists t, ignore_arg i = defaultIgnores +:+ t
            /\ (i = defaultIgnores -> t = EmptyString)
            /\ (i = EmptyString -> t = EmptyString)
            /\ (HasPrefix i "," = true -> t = i).
Proof.
  unfold ignore_arg. destruct (HasPrefix i defaultIgnores) eqn:Hp.
  - destruct (HasPrefix_app_inv _ _ Hp) as [t ->]. exists t.
    split; [reflexivity|]. split; [|split].
    + intros H. destruct t; [reflexivity|]. vm_compute in H. discriminate.
    + discriminate.
    + discriminate.
  - exists i. split; [reflexivity|]. split; [|split].
    + intros ->. discriminate.
    + tauto.
    + reflexivity.
Qed.

(** X3: whatever the user lists, [.vs] is in the ignore set; [.git] is in
    it as well when the list is the default, empty, or begins with a
    comma. *)
Theorem builtin_vs_is_always_ignored (i : string) :
  let ignores := splitToMap (ToLower (ignore_arg i)) "," "" in
  has_key ignores ".vs" = true
  /\ (i = defaultIgnores \/ i = EmptyString \/ HasPrefix i "," = true ->
      has_key ignores ".git" = true).
Proof.
  cbv zeta. destruct (ignore_arg_prefix i) as (t & Ht & Hd & He & Hc).
  rewrite Ht, splitToMap_ToLower.
  assert (Hsplit : Split (defaultIgnores +:+ t) ","
                   = ".vs" :: Strings.split_go "," 0 (String.rev ".git") t).
  { reflexivity. }
  split.
  - apply has_key_splitToMap. exists ".vs". split; [|reflexivity].
    rewrite Hsplit. left.
  - intros H. apply has_key_splitToMap. exists ".git". split; [|reflexivity].
    rewrite Hsplit. right.
    assert (Ht' : t = EmptyString \/ HasPrefix t "," = true).
    { destruct H as [H|[H|H]]; [left; auto|left; auto|right].
      rewrite (Hc H). exact H. }
    destruct Ht' as [->|Hpre]; [left|].
    destruct t as [|a t]; [discriminate|]. rewrite split_comma_step.
    cbn [HasPrefix] in Hpre. destruct (Ascii.eqb a ","); [left|discriminate].
Qed.

Lemma builtin_vs_is_always_ignored_witness :
  has_key (splitToMap (ToLower (ignore_arg ",node_modules")) "," "") ".vs" = true
  /\ has_key (splitToMap (ToLower (ignore_arg ",node_modules")) "," "") ".git" = true.
Proof.
  destruct (builtin_vs_is_always_ignored ",node_modules") as [Hvs Hgit].
  split; [exact Hvs|]. apply Hgit. right. right. reflexivity.
Defined.

(** * The files [replaceContents] collects *)

Lemma Ext_no_dot (s : string) : has_dot s = false -> Filepath.Ext s = EmptyString.
Proof.
  induction s as [|a s IH]; [reflexivity|]. cbn [has_dot Filepath.Ext].
  intros H. apply orb_false_elim in H as [Ha Hs]. rewrite (IH Hs), Ha. reflexivity.
Qed.

Lemma Ext_last_dot (stem e : string) :
  has_dot e = false -> Filepath.Ext (stem +:+ String "." e) = String "." e.
Proof.
  intros He. induction stem as [|a stem IH].
  - rewrite app_nil_l. cbn [Filepath.Ext]. rewrite (Ext_no_dot e He). reflexivity.
  - rewrite app_cons. cbn [Filepath.Ext]. rewrite IH. reflexivity.
Qed.

Lemma has_dot_ToLower (s : string) : has_dot (ToLower s) = has_dot s.
Proof.
  induction s as [|a s IH]; [reflexivity|]. cbn [ToLower has_dot]. rewrite IH.
  f_equal. destruct a as [[] [] [] [] [] [] [] []]; reflexivity.
Qed.

(** Every name is of one of the two shapes. *)
Lemma name_shape (name : string) :
  has_dot name = false
  \/ exists stem e, name = stem +:+ String "." e /\ has_dot e = false.
Proof.
  induction name as [|a s IH]; [left; reflexivity|].
  destruct IH as [Hs|(stem & e & -> & He)].
  - cbn [has_dot]. destruct (Ascii.eqb_spec a ".") as [->|Hne].
    + right. exists EmptyString, s. rewrite app_nil_l. auto.
    + left. exact Hs.
  - right. exists (String a stem), e. rewrite app_cons. auto.
Qed.

(** X4: a file is collected on the text after its last dot: the file
    [stem.e] is collected exactly when [.e], in lower case, is a key of the
    extension map, a name without a dot never is, and neither is a
    directory. *)
Theorem file_is_selected_by_its_last_extension :
  forall (rt : Runtime) (extMap ignoreMap : gmap string bool) (p : path)
         (stem e : string) (readPaths : slice path),
    has_dot e = false ->
    replaceContents_visit extMap ignoreMap p
      (Some (mkFileInfo (stem +:+ String "." e) false)) None readPaths
    = Ok (None, if has_key extMap (String "." (ToLower e))
                then append readPaths p else readPaths)
    /\ replaceContents_visit extMap ignoreMap p (Some (mkFileInfo e false)) None readPaths
       = Ok (None, readPaths)
    /\ (forall name,
          replaceContents_visit extMap ignoreMap p (Some (mkFileInfo name true)) None
            readPaths
          = Ok (if has_key ignoreMap (ToLower name) then Some SkipDir else None,
                readPaths)).
Proof.
  intros rt extMap ignoreMap p stem e readPaths He. unfold replaceContents_visit.
  cbn [Name IsDir]. rewrite !andb_false_r. split; [|split].
  - rewrite ToLower_app. cbn [ToLower].
    change (lower_ascii ".") with "."%char.
    rewrite Ext_last_dot by (rewrite has_dot_ToLower; exact He).
    cbn [String.length Nat.eqb]. rewrite orb_false_r.
    destruct (has_key extMap (String "." (ToLower e))); reflexivity.
  - rewrite Ext_no_dot by (rewrite has_dot_ToLower; exact He).
    cbn [String.length Nat.eqb]. rewrite orb_true_r. reflexivity.
  - intros name. rewrite andb_true_r.
    destruct (has_key ignoreMap (ToLower name)); reflexivity.
Qed.

Lemma file_is_selected_by_its_last_extension_witness :
  replaceContents_visit (rt := go_runtime) (splitToMap "txt,md" "," ".")
    (splitToMap (ToLower defaultIgnores) "," "") ["root"; "archive.tar.TXT"]
    (Some (mkFileInfo ("archive.tar" +:+ String "." "TXT") false)) None Slice.empty
  = Ok (None, if has_key (splitToMap "txt,md" "," ".") (String "." (ToLower "TXT"))
              then append (rt := go_runtime) Slice.empty ["root"; "archive.tar.TXT"]
              else Slice.empty).
Proof.
  apply (file_is_selected_by_its_last_extension go_runtime (splitToMap "txt,md" "," ".")
           (splitToMap (ToLower defaultIgnores) "," "") ["root"; "archive.tar.TXT"]
           "archive.tar" "TXT" Slice.empty).
  reflexivity.
Defined.

Lemma files_of_dir extMap ignoreMap p name es :
  files_of extMap ignoreMap p name (Dir es)
  = if skipped ignoreMap name true then []
    else files_of_children extMap ignoreMap p es.
Proof.
  cbn [files_of]. destruct (skipped ignoreMap name true); [reflexivity|].
  induction es as [|[c ch] es IH]; [reflexivity|].
  cbn [files_of_children]. rewrite <- IH. reflexivity.
Qed.

Section Collect.
Context {rt : Runtime}.
Variables (extMap ignoreMap : gmap string bool).

Lemma replaceContents_visit_spec p name isdir st :
  replaceContents_visit extMap ignoreMap p (Some (mkFileInfo name isdir)) None st
  = Ok (if skipped ignoreMap name isdir then Some SkipDir else None,
        if negb isdir && listed extMap name then append st p else st).
Proof.
  unfold replaceContents_visit, skipped, listed. cbn [Name IsDir].
  destruct isdir.
  - rewrite andb_true_r. destruct (has_key ignoreMap (ToLower name)); reflexivity.
  - rewrite andb_false_r. cbn [negb andb].
    destruct (has_key extMap (Filepath.Ext (ToLower name)));
      destruct (String.length (Filepath.Ext (ToLower name)) =? 0); reflexivity.
Qed.

Lemma walk_files (n : node) :
  forall p name st,
  exists r st',
    walk (replaceContents_visit extMap ignoreMap) p name n st = Ok (r, st')
    /\ elems st' = elems st ++ files_of extMap ignoreMap p name n
    /\ (r = None \/ (r = Some SkipDir /\ isDir n = true)).
Proof.
  induction n as [b|es IH] using node_ind'; intros p name st.
  - cbn [walk files_of]. rewrite replaceContents_visit_spec.
    unfold skipped. rewrite andb_false_r. cbn [negb andb].
    eexists _, _. split; [reflexivity|]. split; [|left; reflexivity].
    destruct (listed extMap name); [apply elems_append|].
    rewrite app_nil_r. reflexivity.
  - rewrite walk_dir, files_of_dir, replaceContents_visit_spec.
    cbn [negb andb mbind result_bind].
    destruct (skipped ignoreMap name true).
    + eexists _, _. split; [reflexivity|]. rewrite app_nil_r. auto.
    + revert st. induction es as [|[c ch] es IHes]; intros st.
      * eexists _, _. split; [reflexivity|]. rewrite app_nil_r. auto.
      * apply Forall_cons in IH as [IHch IH]. cbn [snd] in IHch.
        destruct (IHch (p ++ [c]) c st) as (r1 & st1 & Hw & He & Hr).
        destruct (IHes IH st1) as (r2 & st2 & Hw2 & He2 & Hr2).
        exists r2, st2. cbn [walk_entries files_of_children].
        rewrite Hw. cbn [mbind result_bind].
        split; [|split; [|exact Hr2]].
        -- destruct Hr as [->|[-> Hd]]; [|rewrite Hd]; exact Hw2.
        -- rewrite He2, He, app_assoc. reflexivity.
Qed.

Lemma Walk_files dir fs t :
  lookup fs dir = Some t ->
  exists readPaths,
    Walk dir (replaceContents_visit extMap ignoreMap) Slice.empty fs = Ok readPaths
    /\ elems readPaths = files_of extMap ignoreMap dir (Filepath.Base dir) t.
Proof.
  intros Ht. unfold Walk. rewrite Ht.
  destruct (walk_files t dir (Filepath.Base dir) Slice.empty)
    as (r & st' & Hw & He & _).
  rewrite Hw. exists st'. split; [reflexivity|exact He].
Qed.

Lemma files_of_children_elem p es q :
  q ∈ files_of_children extMap ignoreMap p es
  <-> exists c ch, (c, ch) ∈ es /\ q ∈ files_of extMap ignoreMap (p ++ [c]) c ch.
Proof.
  induction es as [|[c ch] es IH]; cbn [files_of_children].
  - split; [intros H; inversion H|intros (c & ch & H & _); inversion H].
  - rewrite elem_of_app, IH. split.
    + intros [H|(c' & ch' & Hin & H)].
      * exists c, ch. split; [left|exact H].
      * exists c', ch'. split; [right; exact Hin|exact H].
    + intros (c' & ch' & Hin & H). apply elem_of_cons in Hin as [[= -> ->]|Hin].
      * left. exact H.
      * right. eauto.
Qed.

Lemma files_of_below (n : node) :
  forall p name q, q ∈ files_of extMap ignoreMap p name n -> exists rel, q = p ++ rel.
Proof.
  induction n as [b|es IH] using node_ind'; intros p name q Hq.
  - cbn [files_of] in Hq. destruct (listed extMap name); [|inversion Hq].
    apply list_elem_of_singleton in Hq as ->. exists []. rewrite app_nil_r. reflexivity.
  - rewrite files_of_dir in Hq. destruct (skipped ignoreMap name true); [inversion Hq|].
    apply files_of_children_elem in Hq as (c & ch & Hin & Hq).
    rewrite Forall_forall in IH. destruct (IH _ Hin _ _ _ Hq) as [rel ->].
    exists (c :: rel). rewrite <- app_assoc. reflexivity.
Qed.

Lemma last_cons_default (c name : string) (rel : path) :
  List.last (c :: rel) name = List.last rel c.
Proof.
  revert c name. induction rel as [|d rel IH]; intros c name; [reflexivity|].
  change (List.last (c :: d :: rel) name) with (List.last (d :: rel) name).
  rewrite (IH d name), (IH d c). reflexivity.
Qed.

(** The collected paths lead to the files the walk gets to and whose
    name passes the extension test. *)
Lemma files_of_elem (n : node) :
  forall p name q,
    names_unique n = true ->
    q ∈ files_of extMap ignoreMap p name n
    <-> exists rel b,
        q = p ++ rel /\ reached ignoreMap name n rel = true
        /\ lookup n rel = Some (File b)
        /\ listed extMap (List.last rel name) = true.
Proof.
  induction n as [b|es IH] using node_ind'; intros p name q Hu.
  - cbn [files_of]. split.
    + destruct (listed extMap name) eqn:Hl; [|intros H; inversion H].
      intros ->%list_elem_of_singleton. exists [], b. rewrite app_nil_r. auto.
    + intros (rel & b' & -> & _ & Hlk & Hl). destruct rel as [|c rel]; [|discriminate].
      cbn [List.last] in Hl. rewrite Hl, app_nil_r. left.
  - apply names_unique_dir in Hu as [Hnd Hch]. rewrite files_of_dir.
    destruct (skipped ignoreMap name true) eqn:Hs.
    + split; [intros H; inversion H|].
      intros (rel & b & _ & Hr & Hlk & _). destruct rel as [|c rel]; [discriminate|].
      cbn [reached] in Hr. rewrite Hs in Hr. discriminate.
    + rewrite files_of_children_elem. rewrite Forall_forall in IH, Hch. split.
      * intros (c & ch & Hin & Hq).
        apply (IH _ Hin) in Hq as (rel & b & -> & Hr & Hlk & Hl);
          [|apply (Hch _ Hin)].
        assert (Ha : assoc es c = Some ch).
        { apply assoc_first; [exact Hnd|]. apply list_elem_of_In. exact Hin. }
        exists (c :: rel), b. rewrite <- app_assoc. split; [reflexivity|].
        cbn [reached lookup]. rewrite Hs, Ha, last_cons_default. auto.
      * intros (rel & b & -> & Hr & Hlk & Hl). destruct rel as [|c rel]; [discriminate|].
        cbn [reached lookup] in Hr, Hlk. rewrite Hs in Hr. cbn [negb andb] in Hr.
        destruct (assoc es c) as [ch|] eqn:Ha; [|discriminate].
        assert (Hin : (c, ch) ∈ es) by (apply list_elem_of_In, assoc_In; exact Ha).
        exists c, ch. split; [exact Hin|].
        apply (IH _ Hin); [apply (Hch _ Hin)|].
        exists rel, b. rewrite <- app_assoc, last_cons_default in *. auto.
Qed.

Lemma files_of_NoDup (n : node) :
  forall p name, names_unique n = true -> NoDup (files_of extMap ignoreMap p name n).
Proof.
  induction n as [b|es IH] using node_ind'; intros p name Hu.
  - cbn [files_of]. destruct (listed extMap name); [|constructor].
    apply NoDup_singleton.
  - apply names_unique_dir in Hu as [Hnd Hch]. rewrite files_of_dir.
    destruct (skipped ignoreMap name true); [constructor|].
    induction es as [|[c ch] es IHes]; [constructor|].
    cbn [files_of_children]. cbn [map fst] in Hnd.
    apply NoDup_cons in Hnd as [Hc Hnd].
    apply Forall_cons in IH as [IHch IH]. apply Forall_cons in Hch as [Huc Hch].
    apply NoDup_app. split; [apply IHch; exact Huc|]. split; [|apply IHes; assumption].
    intros q Hq Hq'. apply files_of_below in Hq as [rel Hrel].
    apply files_of_children_elem in Hq' as (c' & ch' & Hin & Hq').
    apply files_of_below in Hq' as [rel' Hrel']. subst q.
    rewrite <- !app_assoc in Hrel'. apply app_inv_head in Hrel'.
    injection Hrel' as <- _. apply Hc.
    apply list_elem_of_fmap. exists (c, ch'). split; [reflexivity|exact Hin].
Qed.

End Collect.

(** * The brokers, whenever they return *)

Lemma groups_Ok {A : Type} {gt : GoType A} (items : slice A) (gs : list (slice A)) :
  groups items = Ok gs ->
  GOPROCESSES * (len items / GOPROCESSES + 1) <= capacity items
  /\ gs = map (chunk items (len items / GOPROCESSES + 1)) (seq 0 GOPROCESSES).
Proof.
  intros H.
  destruct (le_lt_dec (GOPROCESSES * (len items / GOPROCESSES + 1)) (capacity items))
    as [Hle|Hlt].
  - rewrite (groups_in_range items Hle) in H. injection H as <-. auto.
  - rewrite (groups_beyond items Hlt) in H. discriminate.
Qed.

Lemma groups_cover (n : nat) : n <= GOPROCESSES * (n / GOPROCESSES + 1).
Proof.
  pose proof (Nat.div_mod_eq n GOPROCESSES) as Hdm.
  pose proof (Nat.mod_upper_bound n GOPROCESSES ltac:(discriminate)). nia.
Qed.

(** [write] on a record without a path: both calls fail, nothing
    changes. *)
Lemma write_app (a b : list WriteOp) (c c1 c2 : nat) (fs : node) :
  write (mkSlice (a ++ b) c) fs = write (mkSlice b c2) (write (mkSlice a c1) fs).
Proof. unfold write. cbn [elems]. apply fold_left_app. Qed.

Lemma write_no_path (junk : list WriteOp) (c : nat) (fs : node) :
  Forall (fun w => wPath w = []) junk -> write (mkSlice junk c) fs = fs.
Proof.
  unfold write. cbn [elems]. revert fs.
  induction junk as [|w junk IH]; intros fs H; [reflexivity|].
  apply Forall_cons in H as [Hw H]. cbn [fold_left]. rewrite Hw.
  cbn [Remove WriteFile]. apply IH. exact H.
Qed.

Lemma write_elems (a b : slice WriteOp) (fs : node) :
  elems a = elems b -> write a fs = write b fs.
Proof. unfold write. intros ->. reflexivity. Qed.

Section BrokersReturn.
Context {rt : Runtime}.

Lemma brokerRead_Ok (items : slice path) (fs : node) (a : slice ReadOp) :
  brokerRead items fs = Ok a -> Permutation (elems a) (elems (read items fs)).
Proof.
  intros H. destruct (pooled items) eqn:Hp.
  - destruct (le_lt_dec (GOPROCESSES * (len items / GOPROCESSES + 1)) (capacity items))
      as [Hle|Hlt].
    + destruct (brokerRead_in_range items fs Hp Hle) as (a' & Ha' & He).
      rewrite Ha' in H. injection H as <-. exact He.
    + rewrite (brokerRead_beyond items fs Hp Hlt) in H. discriminate.
  - unfold brokerRead in H. rewrite Hp in H. injection H as <-. reflexivity.
Qed.

Lemma update_groups_Ok (reg : Regexp) (replace : string) (gs : list (slice ReadOp)) :
  forall (r : result (list WriteOp)) (ops : list WriteOp),
    fold_left (fun acc lst => done ← acc; w ← update lst reg replace;
                              Ok (done ++ elems w)) gs r = Ok ops ->
    exists acc, r = Ok acc
      /\ ops = acc ++ List.concat (map (fun g => omap (write_for reg replace) (elems g)) gs).
Proof.
  induction gs as [|g gs IH]; intros r ops H.
  - cbn in H. subst r. exists ops. rewrite app_nil_r. auto.
  - cbn [fold_left] in H. apply IH in H as (acc' & Hacc & ->).
    destruct r as [acc| |]; try discriminate Hacc. cbn [mbind result_bind] in Hacc.
    destruct (update g reg replace) as [w| |] eqn:Hu; try discriminate Hacc.
    cbn [mbind result_bind] in Hacc. injection Hacc as <-.
    apply update_elems in Hu as [He _].
    exists acc. cbn [map List.concat]. rewrite He, <- app_assoc. auto.
Qed.

(** The records [brokerUpdate] returns are those of [update] on the list,
    in the order the channel hands them over; the pooled path may add
    records without a path, made from the unused part of the array. *)
Lemma brokerUpdate_Ok (items : slice ReadOp) (reg : Regexp) (replace : string)
  (a : slice WriteOp) :
  brokerUpdate items reg replace = Ok a ->
  exists junk,
    Permutation (elems a) (omap (write_for reg replace) (elems items) ++ junk)
    /\ Forall (fun w => wPath w = []) junk.
Proof.
  unfold brokerUpdate. destruct (pooled items).
  - destruct (groups items) as [gs| |] eqn:Hg; try discriminate.
    apply groups_Ok in Hg as [Hle ->]. cbn [mbind result_bind].
    destruct (fold_left _ _ _) as [ops| |] eqn:Hf; try discriminate.
    cbn [mbind result_bind]. destruct (len items <? length ops); [discriminate|].
    intros [= <-]. rewrite elems_drain.
    apply update_groups_Ok in Hf as (acc & [= <-] & ->). cbn [app].
    rewrite <- (map_map (fun g => elems g) (omap (write_for reg replace))).
    rewrite omap_concat, concat_groups.
    destruct (take_backing items (GOPROCESSES * (len items / GOPROCESSES + 1))
                (groups_cover _)) as [z ->].
    rewrite omap_app. eexists. split; [apply deliver_perm|].
    apply Forall_forall. intros w Hw.
    apply list_elem_of_omap in Hw as (r & Hr & Hw).
    apply elem_of_replicate in Hr as [-> _]. unfold write_for in Hw.
    destruct (FindSubmatch _ _); [|discriminate]. injection Hw as <-. reflexivity.
  - intros H. apply update_elems in H as [-> _]. exists []. rewrite app_nil_r.
    split; [reflexivity|constructor].
Qed.

Lemma write_groups (items : slice WriteOp) (k : nat) (l : list nat) (fs : node) :
  fold_left (fun fs lst => write lst fs) (map (chunk items k) l) fs
  = write (mkSlice (List.concat (map (fun i => take k (drop (i * k) (backing items))) l)) 0)
      fs.
Proof.
  revert fs. induction l as [|i l IH]; intros fs; [reflexivity|].
  cbn [map fold_left List.concat]. rewrite IH.
  rewrite (write_app _ _ 0 0 0). f_equal.
Qed.

Lemma brokerWrite_in_range (items : slice WriteOp) (fs : node) :
  GOPROCESSES * (len items / GOPROCESSES + 1) <= capacity items ->
  apart (List.filter (fun p => negb (bool_decide (p = [])))
           (map wPath (elems items))) = true ->
  brokerWrite items fs = Ok (write items fs).
Proof.
  intros Hle Hap. unfold brokerWrite. destruct (pooled items); [|reflexivity].
  rewrite (groups_in_range items Hle), Hap. cbn [mbind result_bind]. f_equal.
  rewrite write_groups, concat_chunks.
  destruct (take_backing items (GOPROCESSES * (len items / GOPROCESSES + 1))
              (groups_cover _)) as [z ->].
  rewrite (write_app _ _ 0 0 0), write_no_path.
  - apply write_elems. reflexivity.
  - apply Forall_forall. intros w Hw. apply elem_of_replicate in Hw as [-> _].
    reflexivity.
Qed.

Lemma brokerWrite_Ok (items : slice WriteOp) (fs fs' : node) :
  brokerWrite items fs = Ok fs' -> fs' = write items fs.
Proof.
  intros H. destruct (pooled items) eqn:Hp.
  - destruct (le_lt_dec (GOPROCESSES * (len items / GOPROCESSES + 1))
                (capacity items)) as [Hle|Hlt].
    + destruct (apart (List.filter (fun p => negb (bool_decide (p = [])))
                         (map wPath (elems items)))) eqn:Hap.
      * rewrite (brokerWrite_in_range items fs Hle Hap) in H.
        injection H as <-. reflexivity.
      * unfold brokerWrite in H.
        rewrite Hp, (groups_in_range items Hle), Hap in H. discriminate H.
    + unfold brokerWrite in H. rewrite Hp, (groups_beyond items Hlt) in H.
      discriminate H.
  - unfold brokerWrite in H. rewrite Hp in H. injection H as <-. reflexivity.
Qed.

End BrokersReturn.

(** * [replaceContents] from the walk to the files *)

Lemma last_app_default (p rel : path) (d : string) :
  List.last (p ++ rel) d = List.last rel (List.last p d).
Proof.
  revert d. induction p as [|c p IH]; intros d; [reflexivity|].
  change ((c :: p) ++ rel) with (c :: (p ++ rel)).
  rewrite !last_cons_default. apply IH.
Qed.

Lemma read_one_Some (fs : node) (q : path) (r : ReadOp) :
  read_one fs q = Some r
  <-> q <> [] /\ rPath r = q /\ stat fs q = Some (KFile (rContents r)).
Proof.
  unfold read_one. destruct (decide (q = [])) as [->|Hq].
  - split; [discriminate|intros [H _]; congruence].
  - destruct (ReadFile q fs) as [b|e] eqn:Hr.
    + apply ReadFile_stat in Hr as [_ Hst]. split.
      * intros [= <-]. auto.
      * intros (_ & Hp & Hc). destruct r as [rp rc]. cbn in *. subst rp.
        rewrite Hst in Hc. injection Hc as <-. reflexivity.
    + split; [discriminate|]. intros (_ & _ & Hst).
      assert (H : ReadFile q fs = inl (rContents r)) by (apply ReadFile_stat; auto).
      congruence.
Qed.

Lemma write_for_path (reg : Regexp) (replace : string) (r : ReadOp) (w : WriteOp) :
  write_for reg replace r = Some w ->
  wPath w = rPath r /\ wContents w = rewritten reg replace (rContents r).
Proof.
  unfold write_for, rewritten.
  destruct (FindSubmatch reg (string_of_list_ascii (rContents r))); [|discriminate].
  intros [= <-]. auto.
Qed.

Lemma write_for_None (reg : Regexp) (replace : string) (r : ReadOp) :
  write_for reg replace r = None -> rewritten reg replace (rContents r) = rContents r.
Proof.
  unfold write_for, rewritten.
  destruct (FindSubmatch reg (string_of_list_ascii (rContents r))); [discriminate|].
  reflexivity.
Qed.

Lemma filter_all {A : Type} (P : A -> Prop) `{forall x, Decision (P x)} (l : list A) :
  Forall P l -> filter P l = l.
Proof.
  induction 1 as [|x l Hx Hl IH]; [reflexivity|].
  rewrite filter_cons, decide_True by exact Hx. rewrite IH. reflexivity.
Qed.

Lemma filter_none {A : Type} (P : A -> Prop) `{forall x, Decision (P x)} (l : list A) :
  Forall (fun x => ~ P x) l -> filter P l = [].
Proof.
  induction 1 as [|x l Hx Hl IH]; [reflexivity|].
  rewrite filter_cons, decide_False by exact Hx. exact IH.
Qed.

Lemma write_filter (l : list WriteOp) (c1 c2 : nat) (fs : node) :
  write (mkSlice l c1) fs
  = write (mkSlice (filter (fun w => wPath w <> []) l) c2) fs.
Proof.
  revert fs. induction l as [|w l IH]; intros fs; [reflexivity|].
  rewrite (write_cons w l c1 c1), filter_cons.
  destruct (decide (wPath w <> [])) as [Hw|Hw].
  - rewrite (write_cons w _ c2 c2). apply IH.
  - rewrite (write_no_path [w] 1 fs); [apply IH|].
    constructor; [|constructor]. destruct (wPath w); [reflexivity|].
    exfalso. apply Hw. discriminate.
Qed.

(** [write] over the records made from a list of distinct files, in any
    order and with records without a path among them: each file holds
    what [update] makes of its bytes, the rest is as it was. *)
Lemma write_pipeline (reg : Regexp) (replace : string) (fs : node) (F : list path)
  (W' junk : list WriteOp) (cap : nat) :
  NoDup F ->
  (forall q, q ∈ F -> q <> [] /\ exists b, stat fs q = Some (KFile b)) ->
  Permutation W' (omap (write_for reg replace) (omap (read_one fs) F) ++ junk) ->
  Forall (fun w => wPath w = []) junk ->
  (forall q b, q ∈ F -> stat fs q = Some (KFile b) ->
               stat (write (mkSlice W' cap) fs) q = Some (KFile (rewritten reg replace b)))
  /\ (forall q, q ∉ F -> stat (write (mkSlice W' cap) fs) q = stat fs q).
Proof.
  intros Hnd HF Hperm Hjunk.
  set (W := omap (write_for reg replace) (omap (read_one fs) F)) in *.
  assert (HW : forall w, w ∈ W ->
             exists r, write_for reg replace r = Some w /\ rPath r ∈ F
                       /\ read_one fs (rPath r) = Some r).
  { intros w Hw. apply list_elem_of_omap in Hw as (r & Hr & Hw).
    apply list_elem_of_omap in Hr as (q & Hq & Hr).
    pose proof (proj1 (read_one_Some fs q r) Hr) as (_ & Hp & _).
    exists r. rewrite Hp. auto. }
  assert (Hpaths : forall w, w ∈ W -> wPath w ∈ F).
  { intros w Hw. destruct (HW w Hw) as (r & Hwf & Hin & _).
    apply write_for_path in Hwf as [-> _]. exact Hin. }
  set (Wf := filter (fun w => wPath w <> []) W').
  assert (HWf : Permutation Wf W).
  { unfold Wf. rewrite Hperm, filter_app.
    rewrite (filter_none _ junk), app_nil_r, filter_all; [reflexivity| |].
    - apply Forall_forall. intros w Hw. apply (HF _ (Hpaths w Hw)).
    - eapply Forall_impl; [exact Hjunk|]. intros w Hw Hne. exact (Hne Hw). }
  rewrite (write_filter W' cap cap). fold Wf.
  destruct (write_stat Wf cap fs) as [Hin Hout].
  { apply Forall_forall. intros w Hw. rewrite HWf in Hw. apply HF, Hpaths, Hw. }
  { rewrite HWf. unfold W. apply (NoDup_omap _ rPath wPath).
    - intros r w Hw. apply write_for_path in Hw as [-> _]. reflexivity.
    - apply (NoDup_omap _ id rPath).
      + intros q r Hr. apply read_one_Some in Hr as (_ & -> & _). reflexivity.
      + rewrite map_id. exact Hnd. }
  split.
  - intros q b Hq Hst.
    assert (Hr : read_one fs q = Some (mkReadOp q b)).
    { apply read_one_Some. cbn. split; [apply HF; exact Hq|auto]. }
    destruct (write_for reg replace (mkReadOp q b)) as [w|] eqn:Hwf.
    + assert (Hw : w ∈ W).
      { apply list_elem_of_omap. exists (mkReadOp q b). split; [|exact Hwf].
        apply list_elem_of_omap. eauto. }
      apply write_for_path in Hwf as [Hp Hc]. cbn in Hp, Hc.
      rewrite <- Hp, <- Hc. apply Hin, list_elem_of_In. rewrite HWf. exact Hw.
    + rewrite Hout.
      * apply write_for_None in Hwf. cbn in Hwf. rewrite Hwf. exact Hst.
      * intros Hq'. apply list_elem_of_In, list_elem_of_fmap in Hq' as (w & Hp & Hw).
        rewrite HWf in Hw.
        destruct (HW w Hw) as (r & Hwf' & _ & Hr').
        pose proof (write_for_path _ _ _ _ Hwf') as [Hp' _].
        rewrite <- Hp', <- Hp, Hr in Hr'. injection Hr' as <-. congruence.
  - intros q Hq. apply Hout. intros Hq'. apply Hq.
    apply list_elem_of_In, list_elem_of_fmap in Hq' as (w & -> & Hw).
    rewrite HWf in Hw. apply Hpaths, Hw.
Qed.

(** X6: whenever [replaceContents] returns, it reports no error, every
    collected file holds what [update] makes of its bytes (those whose
    contents do not match keep them), and nothing else has changed; this
    holds on the pooled path as well. *)
Theorem replaceContents_rewrites_the_collected_files :
  forall (rt : Runtime) (dir : path) (replace : string) (reg : Regexp)
         (extMap ignoreMap : gmap string bool) (fs t : node)
         (e : option error) (fs' : node),
    isDir fs = true ->
    lookup fs dir = Some t ->
    names_unique t = true ->
    replaceContents dir replace reg extMap ignoreMap fs = Ok (e, fs') ->
    e = None
    /\ (forall q, q ∈ files_of extMap ignoreMap dir (Filepath.Base dir) t ->
          exists b, stat fs q = Some (KFile b)
                    /\ stat fs' q = Some (KFile (rewritten reg replace b)))
    /\ (forall q, q ∉ files_of extMap ignoreMap dir (Filepath.Base dir) t ->
          stat fs' q = stat fs q).
Proof.
  intros rt dir replace reg extMap ignoreMap fs t e fs' Hroot Ht Hu H.
  unfold replaceContents in H.
  destruct (Walk_files extMap ignoreMap dir fs t Ht) as (readPaths & HW & HF).
  rewrite HW in H. cbn [mbind result_bind] in H.
  destruct (brokerRead readPaths fs) as [reads| |] eqn:Hr; try discriminate H.
  cbn [mbind result_bind] in H.
  destruct (brokerUpdate reads reg replace) as [writes| |] eqn:Hup; try discriminate H.
  cbn [mbind result_bind] in H.
  destruct (brokerWrite writes fs) as [fs1| |] eqn:Hwr; try discriminate H.
  cbn [mbind result_bind] in H. injection H as <- <-.
  apply brokerRead_Ok in Hr. rewrite read_elems, HF in Hr.
  apply brokerUpdate_Ok in Hup as (junk & Hup & Hjunk). rewrite Hr in Hup.
  apply brokerWrite_Ok in Hwr.
  set (F := files_of extMap ignoreMap dir (Filepath.Base dir) t) in *.
  assert (Hfs1 : fs1 = write (mkSlice (elems writes) 0) fs).
  { rewrite Hwr. apply write_elems. reflexivity. }
  assert (Hfiles : forall q, q ∈ F -> q <> [] /\ exists b, stat fs q = Some (KFile b)).
  { intros q Hq. apply (files_of_elem extMap ignoreMap t dir _ q Hu) in Hq
      as (rel & b & -> & _ & Hlk & _).
    assert (Hl : lookup fs (dir ++ rel) = Some (File b)).
    { rewrite lookup_app, Ht. exact Hlk. }
    split.
    - intros Hnil. rewrite Hnil in Hl. cbn in Hl. injection Hl as ->. discriminate.
    - exists b. unfold stat. rewrite Hl. reflexivity. }
  destruct (write_pipeline reg replace fs F (elems writes) junk 0
              (files_of_NoDup extMap ignoreMap t dir _ Hu) Hfiles Hup Hjunk)
    as [Hin Hout].
  rewrite Hfs1. split; [reflexivity|]. split.
  - intros q Hq. destruct (Hfiles q Hq) as [_ [b Hb]]. exists b. split; [exact Hb|].
    apply Hin; assumption.
  - exact Hout.
Qed.

Lemma replaceContents_rewrites_the_collected_files_witness :
  (None : option error) = None
  /\ (forall q,
        q ∈ files_of (splitToMap "txt" "," ".") (splitToMap (ToLower defaultIgnores) "," "")
              ["root"] (Filepath.Base ["root"])
              (Dir [("a.txt", File (bytes "Hello OldName, oldname"));
                    ("b.txt", File (bytes "nothing here"))]) ->
        exists b, stat tree_two_files q = Some (KFile b)
                  /\ stat (Dir [("root", Dir [("a.txt", File (bytes "Hello OldName, NewName"));
                                              ("b.txt", File (bytes "nothing here"))])]) q
                     = Some (KFile (rewritten (mkRegexp (literal_prog "oldname") 1)
                                      "NewName" b)))
  /\ (forall q,
        q ∉ files_of (splitToMap "txt" "," ".") (splitToMap (ToLower defaultIgnores) "," "")
              ["root"] (Filepath.Base ["root"])
              (Dir [("a.txt", File (bytes "Hello OldName, oldname"));
                    ("b.txt", File (bytes "nothing here"))]) ->
        stat (Dir [("root", Dir [("a.txt", File (bytes "Hello OldName, NewName"));
                                 ("b.txt", File (bytes "nothing here"))])]) q
        = stat tree_two_files q).
Proof.
  apply (replaceContents_rewrites_the_collected_files go_runtime ["root"] "NewName"
           (mkRegexp (literal_prog "oldname") 1) (splitToMap "txt" "," ".")
           (splitToMap (ToLower defaultIgnores) "," "") tree_two_files
           (Dir [("a.txt", File (bytes "Hello OldName, oldname"));
                 ("b.txt", File (bytes "nothing here"))])
           None).
  - reflexivity.
  - reflexivity.
  - vm_compute. reflexivity.
  - vm_compute. reflexivity.
Defined.

(** X7: the walk of [replaceContents] never fails on a tree whose
    directories list each name once; it collects every path once, and the
    paths it collects are those of the files below the start directory
    that it gets to without entering an ignored directory and whose name
    passes the extension test. *)
Theorem walk_collects_the_listed_files :
  forall (rt : Runtime) (extMap ignoreMap : gmap string bool) (dir : path)
         (fs t : node),
    lookup fs dir = Some t ->
    names_unique t = true ->
    exists readPaths,
      Walk dir (replaceContents_visit extMap ignoreMap) Slice.empty fs = Ok readPaths
      /\ NoDup (elems readPaths)
      /\ forall q,
           q ∈ elems readPaths
           <-> exists rel b,
               q = dir ++ rel
               /\ reached ignoreMap (Filepath.Base dir) t rel = true
               /\ lookup fs q = Some (File b)
               /\ listed extMap (Filepath.Base q) = true.
Proof.
  intros rt extMap ignoreMap dir fs t Ht Hu.
  destruct (Walk_files extMap ignoreMap dir fs t Ht) as (readPaths & HW & HF).
  exists readPaths. split; [exact HW|]. rewrite HF.
  split; [apply files_of_NoDup; exact Hu|].
  intros q. rewrite (files_of_elem extMap ignoreMap t dir _ q Hu).
  split; intros (rel & b & -> & Hr & Hlk & Hl); exists rel, b;
    (split; [reflexivity|]); (split; [exact Hr|]);
    unfold Filepath.Base in *; rewrite lookup_app, Ht, last_app_default in *; auto.
Qed.

Lemma walk_collects_the_listed_files_witness :
  exists readPaths,
    Walk ["proj"]
      (replaceContents_visit (rt := go_runtime) (splitToMap "txt" "," ".")
         (splitToMap (ToLower defaultIgnores) "," ""))
      Slice.empty tree_vcs = Ok readPaths
    /\ NoDup (elems readPaths)
    /\ forall q,
         q ∈ elems readPaths
         <-> exists rel b,
             q = ["proj"] ++ rel
             /\ reached (splitToMap (ToLower defaultIgnores) "," "")
                  (Filepath.Base ["proj"])
                  (Dir [(".git", Dir [("foo.txt", File (bytes "foo"))]);
                        ("node_modules", Dir [("foo.txt", File (bytes "foo"))])]) rel
                = true
             /\ lookup tree_vcs q = Some (File b)
             /\ listed (splitToMap "txt" "," ".") (Filepath.Base q) = true.
Proof.
  apply (walk_collects_the_listed_files go_runtime (splitToMap "txt" "," ".")
           (splitToMap (ToLower defaultIgnores) "," "") ["proj"] tree_vcs
           (Dir [(".git", Dir [("foo.txt", File (bytes "foo"))]);
                 ("node_modules", Dir [("foo.txt", File (bytes "foo"))])])).
  - reflexivity.
  - vm_compute. reflexivity.
Defined.

(** * Start directories that are missing, ignored or renamed *)

(** X8: on a start directory that does not exist the walks are handed
    the error and give it back, [filepath.Walk]'s own result is dropped,
    and the run ends without an error and without a change. *)
Theorem missing_directory_is_no_error :
  forall (rt : Runtime) (dir : path) (find replace ignoredirs exts : string)
         (c : bool) (reg : Regexp) (extMap ignoreMap : gmap string bool) (fs : node),
    lookup fs dir = None ->
    renameDirs dir replace reg ignoreMap fs = Ok (dir, None, fs)
    /\ replaceContents dir replace reg extMap ignoreMap fs = Ok (None, fs)
    /\ run dir find replace ignoredirs exts c fs
       = (_ ← MustCompile (pattern_of find); Ok (None, fs)).
Proof.
  intros rt dir find replace ignoredirs exts c reg extMap ignoreMap fs Hl.
  assert (Hren : forall reg ignoreMap,
             renameDirs dir replace reg ignoreMap fs = Ok (dir, None, fs)).
  { intros reg' ign'. unfold renameDirs, Walk. rewrite Hl. reflexivity. }
  assert (Hrep : forall reg extMap ignoreMap,
             replaceContents dir replace reg extMap ignoreMap fs = Ok (None, fs)).
  { intros reg' ext' ign'. unfold replaceContents, Walk. rewrite Hl. reflexivity. }
  split; [apply Hren|]. split; [apply Hrep|].
  unfold run. destruct (MustCompile (pattern_of find)) as [re| |]; [|reflexivity..].
  cbn [mbind result_bind]. rewrite Hren. cbn [mbind result_bind]. apply Hrep.
Qed.

Lemma missing_directory_is_no_error_witness :
  renameDirs (rt := go_runtime) ["nowhere"] "bar" regexp_foo
    (splitToMap (ToLower defaultIgnores) "," "") tree_two_files
  = Ok (["nowhere"], None, tree_two_files)
  /\ replaceContents (rt := go_runtime) ["nowhere"] "bar" regexp_foo
       (splitToMap "txt" "," ".") (splitToMap (ToLower defaultIgnores) "," "")
       tree_two_files
     = Ok (None, tree_two_files)
  /\ run (rt := go_runtime) ["nowhere"] "foo" "bar" defaultIgnores "txt" false
       tree_two_files
     = (_ ← MustCompile (pattern_of "foo"); Ok (None, tree_two_files)).
Proof.
  apply (missing_directory_is_no_error go_runtime ["nowhere"] "foo" "bar"
           defaultIgnores "txt" false regexp_foo (splitToMap "txt" "," ".")
           (splitToMap (ToLower defaultIgnores) "," "") tree_two_files).
  reflexivity.
Defined.

(** X9: the earlier version does not look at the error: on a start
    directory that does not exist both walks call [Name] on a nil
    [FileInfo] and the program panics. *)
Theorem legacy_missing_directory_panics :
  forall (rt : Runtime) (dir : path) (find replace ignoredirs exts : string)
         (c : bool) (reg : Regexp) (extMap ignoreMap : gmap string bool) (fs : node),
    lookup fs dir = None ->
    Legacy.renameDirs dir replace reg ignoreMap fs = Panic "nil pointer dereference"
    /\ Legacy.replaceContents dir replace reg extMap ignoreMap fs
       = Panic "nil pointer dereference"
    /\ Legacy.run dir find replace ignoredirs exts c fs
       = (_ ← MustCompile (Legacy.pattern_of find);
          (Panic "nil pointer dereference" : result (option error * node))).
Proof.
  intros rt dir find replace ignoredirs exts c reg extMap ignoreMap fs Hl.
  assert (Hren : forall reg ignoreMap,
             Legacy.renameDirs dir replace reg ignoreMap fs
             = Panic "nil pointer dereference").
  { intros reg' ign'. unfold Legacy.renameDirs, Walk. rewrite Hl. reflexivity. }
  assert (Hrep : forall reg extMap ignoreMap,
             Legacy.replaceContents dir replace reg extMap ignoreMap fs
             = Panic "nil pointer dereference").
  { intros reg' ext' ign'. unfold Legacy.replaceContents, Walk. rewrite Hl.
    reflexivity. }
  split; [apply Hren|]. split; [apply Hrep|].
  unfold Legacy.run.
  destruct (MustCompile (Legacy.pattern_of find)) as [re| |]; [|reflexivity..].
  cbn [mbind result_bind]. rewrite Hren. reflexivity.
Qed.

Lemma legacy_missing_directory_panics_witness :
  Legacy.renameDirs (rt := go_runtime) ["nowhere"] "bar" regexp_foo
    (splitToMap (ToLower defaultIgnores) "," "") tree_two_files
  = Panic "nil pointer dereference"
  /\ Legacy.replaceContents (rt := go_runtime) ["nowhere"] "bar" regexp_foo
       (splitToMap "txt" "," ".") (splitToMap (ToLower defaultIgnores) "," "")
       tree_two_files
     = Panic "nil pointer dereference"
  /\ Legacy.run (rt := go_runtime) ["nowhere"] "foo" "bar" defaultIgnores "txt" false
       tree_two_files
     = (_ ← MustCompile (Legacy.pattern_of "foo");
        (Panic "nil pointer dereference" : result (option error * node))).
Proof.
  apply (legacy_missing_directory_panics go_runtime ["nowhere"] "foo" "bar"
           defaultIgnores "txt" false regexp_foo (splitToMap "txt" "," ".")
           (splitToMap (ToLower defaultIgnores) "," "") tree_two_files).
  reflexivity.
Defined.

(** X10: a start directory whose own name is in the ignore set is skipped
    as a whole: nothing is renamed, nothing is read, nothing changes. *)
Theorem ignored_start_directory_is_left_alone :
  forall (rt : Runtime) (dir : path) (find replace ignoredirs exts : string)
         (c : bool) (fs : node) (es : list (string * node)),
    lookup fs dir = Some (Dir es) ->
    has_key (splitToMap (ToLower ignoredirs) "," "") (ToLower (Filepath.Base dir))
    = true ->
    run dir find replace ignoredirs exts c fs
    = (_ ← MustCompile (pattern_of find); Ok (None, fs)).
Proof.
  intros rt dir find replace ignoredirs exts c fs es Hl Hk.
  unfold run. destruct (MustCompile (pattern_of find)) as [re| |]; [|reflexivity..].
  cbn [mbind result_bind].
  assert (Hren : renameDirs dir replace re (splitToMap (ToLower ignoredirs) "," "") fs
                 = Ok (dir, None, fs)).
  { unfold renameDirs, Walk. rewrite Hl.
    rewrite (walk_skipped_dir _ dir (Filepath.Base dir) es Slice.empty).
    - reflexivity.
    - unfold renameDirs_visit. cbn [Name IsDir]. rewrite Hk. reflexivity. }
  rewrite Hren. cbn [mbind result_bind].
  unfold replaceContents, Walk. rewrite Hl.
  rewrite (walk_skipped_dir _ dir (Filepath.Base dir) es Slice.empty).
  - reflexivity.
  - unfold replaceContents_visit. cbn [Name IsDir]. rewrite Hk. reflexivity.
Qed.

Lemma ignored_start_directory_is_left_alone_witness :
  run (rt := go_runtime) ["proj"; ".git"] "foo" "bar" defaultIgnores "txt" false tree_vcs
  = (_ ← MustCompile (pattern_of "foo"); Ok (None, tree_vcs)).
Proof.
  apply (ignored_start_directory_is_left_alone go_runtime ["proj"; ".git"] "foo" "bar"
           defaultIgnores "txt" false tree_vcs [("foo.txt", File (bytes "foo"))]).
  - reflexivity.
  - vm_compute. reflexivity.
Defined.

(** * The path [renameDirs] hands on *)

Lemma plan_head replace reg ignoreMap (n : node) (p : path) (name : string) :
  exists hd rest,
    plan replace reg ignoreMap p name n = hd ++ rest
    /\ (hd = [] \/ exists new, hd = [mkRenameOp p new])
    /\ Forall (fun op => exists c rel, Old op = p ++ c :: rel) rest.
Proof.
  destruct n as [b|es].
  - cbn [plan]. exists (rename_of replace reg p name), []. rewrite app_nil_r.
    split; [reflexivity|]. split; [|constructor].
    unfold rename_of. destruct (FindSubmatch reg name); eauto.
  - rewrite plan_dir. destruct (skipped ignoreMap name true).
    + exists [], []. split; [reflexivity|]. split; [left; reflexivity|constructor].
    + exists (rename_of replace reg p name), (plan_children replace reg ignoreMap p es).
      split; [reflexivity|]. split.
      * unfold rename_of. destruct (FindSubmatch reg name); eauto.
      * eapply Forall_impl; [apply plan_children_below|].
        intros op (c & rel & _ & H). eauto.
Qed.

Lemma exec_renames_app_inv (a b : list RenameOp) (fs fs' : node) :
  exec_renames (a ++ b) fs = (fs', None) ->
  exists fs1, exec_renames a fs = (fs1, None) /\ exec_renames b fs1 = (fs', None).
Proof.
  revert fs. induction a as [|op a IH]; intros fs H.
  - exists fs. auto.
  - cbn [app exec_renames] in *.
    destruct (Rename (Old op) (New op) fs) as [fs2|e]; [|discriminate H].
    apply IH. exact H.
Qed.

(** Renames of other entries leave an entry in place. *)
Lemma exec_renames_keeps (ops : list RenameOp) (s : path) :
  Forall (fun op => is_prefix (Old op) s = false) ops ->
  forall fs fs',
    exec_renames ops fs = (fs', None) ->
    is_Some (lookup fs s) -> is_Some (lookup fs' s).
Proof.
  induction 1 as [|op ops Hop Hops IH]; intros fs fs' H Hs.
  - injection H as <-. exact Hs.
  - cbn [exec_renames] in H.
    destruct (Rename (Old op) (New op) fs) as [fs1|e] eqn:Hr; [|discriminate H].
    apply (IH _ _ H). apply (Rename_preserves _ _ _ _ _ Hr Hs Hop).
Qed.

Lemma Rename_target_exists (old new : path) (fs fs' : node) :
  Rename old new fs = inl fs' -> is_Some (lookup fs' new).
Proof.
  intros H. pose proof H as H'.
  apply Rename_inl in H as [[-> ->]|(_ & _ & _ & n & Hn & _ & _ & Hst)].
  - unfold Rename in H'. destruct (lookup fs new) as [[b|es]|] eqn:Hl; eauto.
    discriminate H'.
  - apply stat_is_Some. rewrite Hst, is_prefix_refl, drop_all.
    unfold stat. cbn. eauto.
Qed.

Lemma lookup_strict_prefix_dir (fs : node) (p : path) (c : string) (r : path) :
  is_Some (lookup fs (p ++ c :: r)) -> exists es, lookup fs p = Some (Dir es).
Proof.
  intros H. destruct (lookup fs p) as [[b|es]|] eqn:Hp.
  - apply (lookup_below_file fs p (c :: r) b Hp) in H. discriminate H.
  - eauto.
  - apply lookup_prefix in H. rewrite Hp in H. destruct H as [x Hx]. discriminate.
Qed.

(** A rename of an entry below [s] leaves what is at [s] what it was. *)
Lemma Rename_below_stat (s : path) (c : string) (rel new : path) (fs fs' : node) :
  Rename (s ++ c :: rel) new fs = inl fs' ->
  stat fs' s = stat fs s.
Proof.
  intros HR. apply Rename_inl in HR.
  destruct HR as [[_ ->]|(Hne & Ho & Hn & n & Hold & Hnd & Hpar & Hst)]; [reflexivity|].
  rewrite Hst, is_prefix_longer.
  destruct (is_prefix new s) eqn:E; [|reflexivity].
  exfalso. apply is_prefix_spec in E as [r ->].
  rewrite <- app_assoc in Hold.
  destruct (r ++ c :: rel) as [|c' r'] eqn:Hr; [destruct r; discriminate Hr|].
  destruct (lookup_strict_prefix_dir fs new c' r') as [es Hes]; [rewrite Hold; eauto|].
  exact (Hnd es Hes).
Qed.

Lemma exec_renames_below_stat (ops : list RenameOp) (s : path) :
  Forall (fun op => exists c rel, Old op = s ++ c :: rel) ops ->
  forall fs fs',
    exec_renames ops fs = (fs', None) ->
    stat fs' s = stat fs s.
Proof.
  induction 1 as [|op ops (c & rel & Hop) Hops IH]; intros fs fs' H.
  - injection H as <-. reflexivity.
  - cbn [exec_renames] in H.
    destruct (Rename (Old op) (New op) fs) as [fs1|e] eqn:Hr; [|discriminate H].
    rewrite (IH _ _ H). rewrite Hop in Hr. apply (Rename_below_stat _ _ _ _ _ _ Hr).
Qed.

(** A rename that succeeds puts the entry at the new path and leaves
    nothing at the old one. *)
Lemma Rename_moves (old new : path) (fs fs' : node) :
  Rename old new fs = inl fs' ->
  stat fs' new = stat fs old /\ (new <> old -> stat fs' old = None).
Proof.
  intros HR. apply Rename_inl in HR.
  destruct HR as [[-> ->]|(Hne & Ho & Hn & n & Hold & Hnd & Hpar & Hst)].
  - split; [reflexivity|congruence].
  - split.
    + rewrite Hst, is_prefix_refl, drop_all. unfold stat. rewrite Hold. reflexivity.
    + intros _. rewrite Hst, is_prefix_refl.
      destruct (is_prefix new old) eqn:E; [|reflexivity].
      exfalso. apply is_prefix_spec in E as [r ->].
      destruct r as [|c r]; [rewrite app_nil_r in Hne; congruence|].
      destruct (lookup_strict_prefix_dir fs new c r) as [es Hes]; [rewrite Hold; eauto|].
      exact (Hnd es Hes).
Qed.

(** X11: when all the renames succeed, the path [renameDirs] returns is
    the start directory under the name it has afterwards: the directory
    of the old path joined with the new name when the start directory is
    not ignored and its own name matches, the old path otherwise.  What
    the start directory was, a file or a directory, is found at that path,
    and when the path has changed nothing is left at the old one. *)
Theorem renameDirs_returns_a_path_that_exists :
  forall (rt : Runtime) (dir : path) (replace : string) (reg : Regexp)
         (ignoreMap : gmap string bool) (fs fs' t : node) (newpath : path),
    lookup fs dir = Some t ->
    renameDirs dir replace reg ignoreMap fs = Ok (newpath, None, fs') ->
    newpath
    = (if negb (skipped ignoreMap (Filepath.Base dir) (isDir t))
          && bool_decide (is_Some (FindSubmatch reg (Filepath.Base dir)))
       then Filepath.Join (Filepath.Dir dir)
              (newname replace reg (Filepath.Base dir))
       else dir)
    /\ stat fs' newpath = stat fs dir
    /\ (newpath <> dir -> stat fs' dir = None)
    /\ is_Some (lookup fs' newpath)
    /\ (FindSubmatch reg (Filepath.Base dir) = None -> newpath = dir).
Proof.
  intros rt dir replace reg ignoreMap fs fs' t newpath Ht H.
  unfold renameDirs in H.
  destruct (Walk dir (renameDirs_visit replace reg ignoreMap) Slice.empty fs)
    as [renames| |] eqn:HW; try discriminate H.
  cbn [mbind result_bind] in H.
  pose proof (Walk_plan replace reg ignoreMap dir fs renames t Ht HW) as HP.
  unfold len in H. rewrite rename_loop_all, HP in H.
  set (name := Filepath.Base dir) in *.
  set (rest := match t with
               | File _ => []
               | Dir es => if skipped ignoreMap name true then []
                           else plan_children replace reg ignoreMap dir es
               end).
  set (cond := negb (skipped ignoreMap name (isDir t))
               && bool_decide (is_Some (FindSubmatch reg name))).
  assert (Hplan : plan replace reg ignoreMap dir name t
                  = (if cond then [mkRenameOp dir (Filepath.Join (Filepath.Dir dir)
                                                     (newname replace reg name))]
                     else []) ++ rest).
  { subst cond rest. destruct t as [b|es].
    - cbn [plan isDir]. unfold skipped. rewrite andb_false_r, app_nil_r.
      cbn [negb andb]. unfold rename_of.
      destruct (FindSubmatch reg name) as [m0|].
      + rewrite bool_decide_eq_true_2 by eauto. reflexivity.
      + rewrite bool_decide_eq_false_2 by (intros [x Hx]; discriminate). reflexivity.
    - rewrite plan_dir. cbn [isDir].
      destruct (skipped ignoreMap name true); [reflexivity|].
      cbn [negb andb]. unfold rename_of.
      destruct (FindSubmatch reg name) as [m0|].
      + rewrite bool_decide_eq_true_2 by eauto. reflexivity.
      + rewrite bool_decide_eq_false_2 by (intros [x Hx]; discriminate). reflexivity. }
  assert (Hrest : Forall (fun op => exists c rel, Old op = dir ++ c :: rel) rest).
  { subst rest. destruct t as [b|es]; [constructor|].
    destruct (skipped ignoreMap name true); [constructor|].
    eapply Forall_impl; [apply plan_children_below|].
    intros op (c & rel & _ & Hop). eauto. }
  assert (Hnone : FindSubmatch reg name = None -> cond = false).
  { intros E. subst cond. rewrite E, bool_decide_eq_false_2, andb_false_r;
      [reflexivity|intros [x Hx]; discriminate]. }
  clearbody rest cond.
  destruct (exec_renames (rev (plan replace reg ignoreMap dir name t)) fs)
    as [fs1 [err|]] eqn:Hex; [discriminate H|].
  injection H as <- <-. rewrite Hplan. rewrite Hplan, rev_app_distr in Hex.
  apply exec_renames_app_inv in Hex as (fs2 & Hex1 & Hex2).
  assert (Hkeep : stat fs2 dir = stat fs dir).
  { apply (exec_renames_below_stat (rev rest) dir) with (fs := fs); [|exact Hex1].
    apply Forall_rev. exact Hrest. }
  assert (Hsd : is_Some (stat fs dir)).
  { apply stat_is_Some. rewrite Ht. eauto. }
  assert (Hnot : forall op l, rest = op :: l -> Old op <> dir).
  { intros op l ->. apply Forall_cons in Hrest as [(c & rel & ->) _].
    intros Heq. rewrite <- (app_nil_r dir) in Heq at 2.
    apply app_inv_head in Heq. discriminate. }
  destruct cond.
  - cbn [app rev exec_renames Old New] in *. rewrite decide_True by reflexivity.
    destruct (Rename dir _ fs2) as [fs3|e] eqn:Hr; [|discriminate Hex2].
    injection Hex2 as <-. apply Rename_moves in Hr as [Hr1 Hr2].
    split; [reflexivity|]. split; [congruence|]. split; [exact Hr2|].
    split; [apply stat_is_Some; rewrite Hr1, Hkeep; exact Hsd|].
    intros E. specialize (Hnone E). discriminate Hnone.
  - cbn in Hex2. injection Hex2 as <-. cbn [app] in *.
    assert (Hnp : match rest with
                  | [] => dir
                  | r0 :: _ => if decide (Old r0 = dir) then New r0 else dir
                  end = dir).
    { destruct rest as [|op l]; [reflexivity|].
      rewrite decide_False by (apply (Hnot op l); reflexivity). reflexivity. }
    rewrite Hnp. split; [reflexivity|]. split; [exact Hkeep|].
    split; [congruence|]. split; [|reflexivity].
    apply stat_is_Some. rewrite Hkeep. exact Hsd.
Qed.

Lemma renameDirs_returns_a_path_that_exists_witness :
  ["top"; "abar"]
  = (if negb (skipped (splitToMap (ToLower defaultIgnores) "," "")
                (Filepath.Base ["top"; "aFoo"])
                (isDir (Dir [("bfoo", Dir [("cFOO",
                          Dir [("foo.txt", File (bytes "foo"))])])])))
        && bool_decide (is_Some (FindSubmatch regexp_foo (Filepath.Base ["top"; "aFoo"])))
     then Filepath.Join (Filepath.Dir ["top"; "aFoo"])
            (newname "bar" regexp_foo (Filepath.Base ["top"; "aFoo"]))
     else ["top"; "aFoo"])
  /\ stat (Dir [("top", Dir [("abar", Dir [("bbar", Dir [("cbar",
              Dir [("bar.txt", File (bytes "foo"))])])])])])
          ["top"; "abar"]
     = stat tree_chain ["top"; "aFoo"]
  /\ (["top"; "abar"] <> ["top"; "aFoo"] ->
      stat (Dir [("top", Dir [("abar", Dir [("bbar", Dir [("cbar",
               Dir [("bar.txt", File (bytes "foo"))])])])])])
           ["top"; "aFoo"] = None)
  /\ is_Some (lookup
                (Dir [("top", Dir [("abar", Dir [("bbar", Dir [("cbar",
                   Dir [("bar.txt", File (bytes "foo"))])])])])])
                ["top"; "abar"])
  /\ (FindSubmatch regexp_foo (Filepath.Base ["top"; "aFoo"]) = None ->
      ["top"; "abar"] = ["top"; "aFoo"]).
Proof.
  apply (renameDirs_returns_a_path_that_exists go_runtime ["top"; "aFoo"] "bar"
           regexp_foo (splitToMap (ToLower defaultIgnores) "," "") tree_chain).
  - reflexivity.
  - vm_compute. reflexivity.
Defined.

(** * Where a rename can lead *)

Lemma no_slash_app (a b : string) : no_slash (a +:+ b) = no_slash a && no_slash b.
Proof.
  induction a as [|x a IH]; [rewrite app_nil_l; reflexivity|].
  rewrite app_cons. cbn [no_slash]. rewrite IH, andb_assoc. reflexivity.
Qed.

Lemma replace_go_no_slash (old new : string) :
  no_slash new = true ->
  forall s skip, no_slash s = true -> no_slash (Strings.replace_go old new skip s) = true.
Proof.
  intros Hn. induction s as [|a s IH]; intros skip Hs; [reflexivity|].
  cbn [no_slash] in Hs. apply andb_prop in Hs as [Ha Hs].
  cbn [Strings.replace_go]. destruct skip as [|k]; [|apply IH; exact Hs].
  destruct (HasPrefix (String a s) old).
  - rewrite no_slash_app, Hn. apply IH. exact Hs.
  - cbn [no_slash]. rewrite Ha. apply IH. exact Hs.
Qed.

Lemma replace_empty_no_slash (new s : string) :
  no_slash new = true -> no_slash s = true ->
  no_slash (Strings.replace_empty new s) = true.
Proof.
  intros Hn. induction s as [|a s IH]; intros Hs; [exact Hn|].
  cbn [no_slash] in Hs. apply andb_prop in Hs as [Ha Hs].
  cbn [Strings.replace_empty]. rewrite no_slash_app, Hn. cbn [no_slash andb].
  rewrite Ha. apply IH. exact Hs.
Qed.

Lemma Replace_no_slash (s old new : string) :
  no_slash s = true -> no_slash new = true -> no_slash (Replace s old new) = true.
Proof.
  intros Hs Hn. unfold Replace. destruct old.
  - apply replace_empty_no_slash; assumption.
  - apply replace_go_no_slash; assumption.
Qed.

Lemma Join_single (d : path) (c : string) :
  no_slash c = true -> Filepath.Join d c = Filepath.join_step d c.
Proof.
  intros Hs. unfold Filepath.Join, Split.
  rewrite (split_go_no_slash c EmptyString Hs). reflexivity.
Qed.

(** A rename onto a directory the entry lies in fails, whatever the
    state of the file system. *)
Lemma Rename_onto_ancestor (new : path) (c : string) (r : path) (fs : node) :
  exists e, Rename (new ++ c :: r) new fs = inr e.
Proof.
  unfold Rename. destruct (lookup fs new) as [[b|es]|] eqn:Hl.
  - rewrite lookup_app, Hl. cbn. eauto.
  - destruct (lookup fs (new ++ c :: r)); eauto.
  - rewrite lookup_app, Hl. cbn. eauto.
Qed.

Lemma removelast_prefix (d : path) :
  d = [] \/ exists c, d = removelast d ++ [c].
Proof.
  destruct (list_eq_dec d []) as [->|Hd]; [left; reflexivity|right].
  exists (List.last d EmptyString). apply app_removelast_last. exact Hd.
Qed.

(** X12: with a replacement that has no [/] in it, a rename that
    [renameDirs] records for an entry either gives it a new name in the
    directory it is in, or fails in every state of the file system (the new
    name is empty, [.] or [..]): no entry is moved to another directory. *)
Theorem rename_stays_in_its_directory :
  forall (rt : Runtime) (replace : string) (reg : Regexp)
         (ignoreMap : gmap string bool) (d : path) (name : string) (isdir : bool)
         (st st' : slice RenameOp) (r : option werror),
    no_slash name = true ->
    no_slash replace = true ->
    renameDirs_visit replace reg ignoreMap (d ++ [name])
      (Some (mkFileInfo name isdir)) None st = Ok (r, st') ->
    elems st' = elems st
    \/ exists new,
        elems st' = elems st ++ [mkRenameOp (d ++ [name]) new]
        /\ ((exists c', valid_name c' = true /\ new = d ++ [c'])
            \/ forall fs, exists e, Rename (d ++ [name]) new fs = inr e).
Proof.
  intros rt replace reg ignoreMap d name isdir st st' r Hname Hrep H.
  apply renameDirs_visit_spec in H as [(_ & _ & ->)|(_ & _ & He)];
    [left; reflexivity|].
  unfold rename_of in He. destruct (FindSubmatch reg name) as [match0|] eqn:Hm.
  - right. eexists. split; [exact He|]. rewrite Dir_snoc.
    unfold newname. rewrite Hm.
    set (c' := Replace name (default EmptyString (match0 !! 1)) replace).
    assert (Hc : no_slash c' = true) by (apply Replace_no_slash; assumption).
    rewrite (Join_single d c' Hc). unfold Filepath.join_step.
    destruct (decide (c' = EmptyString)) as [E1|E1];
      [right; intros fs; apply (Rename_onto_ancestor d name [])|].
    destruct (decide (c' = ".")) as [E2|E2];
      [right; intros fs; apply (Rename_onto_ancestor d name [])|].
    destruct (decide (c' = "..")) as [E3|E3].
    + right. intros fs. destruct (removelast_prefix d) as [->|[x Hx]].
      * apply (Rename_onto_ancestor [] name []).
      * remember (removelast d) as d' eqn:Hd'. clear Hd'. subst d.
        rewrite <- app_assoc. apply (Rename_onto_ancestor d' x [name]).
    + left. exists c'. split; [|reflexivity]. unfold valid_name.
      rewrite Hc, !bool_decide_eq_false_2 by assumption. reflexivity.
  - left. rewrite He, app_nil_r. reflexivity.
Qed.

Lemma rename_stays_in_its_directory_witness :
  elems (append (rt := go_runtime) Slice.empty
           (mkRenameOp (["root"; "a"] ++ ["foo"]) ["root"; "a"]))
  = elems (Slice.empty : slice RenameOp)
  \/ exists new,
      elems (append (rt := go_runtime) Slice.empty
               (mkRenameOp (["root"; "a"] ++ ["foo"]) ["root"; "a"]))
      = elems (Slice.empty : slice RenameOp) ++ [mkRenameOp (["root"; "a"] ++ ["foo"]) new]
      /\ ((exists c', valid_name c' = true /\ new = ["root"; "a"] ++ [c'])
          \/ forall fs, exists e, Rename (["root"; "a"] ++ ["foo"]) new fs = inr e).
Proof.
  apply (rename_stays_in_its_directory go_runtime "" regexp_foo
           (splitToMap (ToLower defaultIgnores) "," "") ["root"; "a"] "foo" true
           Slice.empty _ None).
  - reflexivity.
  - reflexivity.
  - vm_compute. reflexivity.
Defined.

(** X13: a rename onto the name of a file that is there replaces that
    file, whose bytes are lost; onto the name of a directory that is there
    it fails with EEXIST and stops the loop. *)
Theorem rename_onto_a_taken_name :
  forall (fs : node) (d : path) (L : list (string * node)) (c c' : string)
         (b : list ascii) (n' : node),
    lookup fs d = Some (Dir L) ->
    assoc L c = Some (File b) ->
    assoc L c' = Some n' ->
    c <> c' ->
    match n' with
    | File b' =>
        exists fs',
          rename_loop [mkRenameOp (d ++ [c]) (d ++ [c'])] 1 fs = (fs', None)
          /\ stat fs (d ++ [c']) = Some (KFile b')
          /\ stat fs' (d ++ [c']) = Some (KFile b)
          /\ stat fs' (d ++ [c]) = None
          /\ forall q, is_prefix (d ++ [c]) q = false ->
                       is_prefix (d ++ [c']) q = false -> stat fs' q = stat fs q
    | Dir _ =>
        rename_loop [mkRenameOp (d ++ [c]) (d ++ [c'])] 1 fs
        = (fs, Some (CouldntRename (d ++ [c]) (d ++ [c']) EEXIST))
    end.
Proof.
  intros fs d L c c' b n' Hd Hc Hc' Hne.
  assert (Hold : lookup fs (d ++ [c]) = Some (File b)).
  { rewrite lookup_app, Hd. cbn. rewrite Hc. reflexivity. }
  assert (Hnew : lookup fs (d ++ [c']) = Some n').
  { rewrite lookup_app, Hd. cbn. rewrite Hc'. reflexivity. }
  assert (Hneq : d ++ [c] <> d ++ [c']).
  { intros E. apply app_inv_head in E. congruence. }
  assert (Hloop : rename_loop [mkRenameOp (d ++ [c]) (d ++ [c'])] 1 fs
                  = match Rename (d ++ [c]) (d ++ [c']) fs with
                    | inl fs' => (fs', None)
                    | inr e => (fs, Some (CouldntRename (d ++ [c]) (d ++ [c']) e))
                    end) by reflexivity.
  rewrite Hloop. clear Hloop.
  destruct n' as [b'|es'].
  - destruct (Rename (d ++ [c]) (d ++ [c']) fs) as [fs'|e] eqn:Hr.
    + exists fs'. split; [reflexivity|].
      apply Rename_inl in Hr as [[E _]|(_ & _ & _ & n & Hn & _ & _ & Hst)];
        [contradiction|].
      rewrite Hold in Hn. injection Hn as <-.
      split; [unfold stat; rewrite Hnew; reflexivity|]. split; [|split].
      * rewrite Hst, is_prefix_refl, drop_all. reflexivity.
      * rewrite Hst. rewrite (is_prefix_diverge d [] [] c' c) by congruence.
        rewrite is_prefix_refl. reflexivity.
      * intros q H1 H2. rewrite Hst, H1, H2. reflexivity.
    + exfalso. unfold Rename in Hr. rewrite Hnew, Hold, Dir_snoc, Hd in Hr.
      rewrite decide_False in Hr by exact Hneq. cbn in Hr. discriminate Hr.
  - unfold Rename. rewrite Hnew, Hold. reflexivity.
Qed.

Lemma rename_onto_a_taken_name_witness :
  exists fs',
    rename_loop [mkRenameOp (["root"] ++ ["a.txt"]) (["root"] ++ ["b.txt"])] 1
      tree_two_files = (fs', None)
    /\ stat tree_two_files (["root"] ++ ["b.txt"]) = Some (KFile (bytes "nothing here"))
    /\ stat fs' (["root"] ++ ["b.txt"]) = Some (KFile (bytes "Hello OldName, oldname"))
    /\ stat fs' (["root"] ++ ["a.txt"]) = None
    /\ forall q, is_prefix (["root"] ++ ["a.txt"]) q = false ->
                 is_prefix (["root"] ++ ["b.txt"]) q = false ->
                 stat fs' q = stat tree_two_files q.
Proof.
  apply (rename_onto_a_taken_name tree_two_files ["root"]
           [("a.txt", File (bytes "Hello OldName, oldname"));
            ("b.txt", File (bytes "nothing here"))]
           "a.txt" "b.txt" (bytes "Hello OldName, oldname")
           (File (bytes "nothing here"))).
  - reflexivity.
  - reflexivity.
  - reflexivity.
  - discriminate.
Defined.

(** * The lengths at which the pooled path fails *)






(** * What [write] changes *)

Lemma write_single (w : WriteOp) (c : nat) (fs : node) :
  write (mkSlice [w] c) fs
  = let fs1 := match Remove (wPath w) fs with
               | inl fs' => fs'
               | inr _ => fs
               end in
    match WriteFile (wPath w) (wContents w) fs1 with
    | inl fs' => fs'
    | inr _ => fs1
    end.
Proof. reflexivity. Qed.

Lemma Remove_frame (p : path) (fs fs' : node) (q : path) :
  Remove p fs = inl fs' -> is_prefix p q = false -> stat fs' q = stat fs q.
Proof.
  unfold Remove. destruct p as [|c p]; [discriminate|].
  intros H Hq.
  assert (fs' = detach (c :: p) fs) as ->.
  { destruct (lookup fs (c :: p)) as [[b|[|e es]]|]; congruence. }
  rewrite stat_detach by discriminate. rewrite Hq. reflexivity.
Qed.

Lemma WriteFile_frame (p : path) (data : list ascii) (fs fs' : node) (q : path) :
  WriteFile p data fs = inl fs' -> is_prefix p q = false -> stat fs' q = stat fs q.
Proof.
  unfold WriteFile. destruct p as [|c p]; [discriminate|].
  intros H Hq.
  destruct (lookup fs (Filepath.Dir (c :: p))) as [[b|es]|] eqn:Hpar;
    try (destruct (lookup fs (c :: p)) as [[?|?]|]; discriminate H).
  assert (fs' = attach (c :: p) (File data) fs) as ->.
  { destruct (lookup fs (c :: p)) as [[?|?]|]; congruence. }
  rewrite stat_attach; [rewrite Hq; reflexivity|discriminate|].
  apply stat_dir_iff. eauto.
Qed.

Lemma write_single_frame (w : WriteOp) (c : nat) (fs : node) (q : path) :
  wPath w = [] \/ is_prefix (wPath w) q = false ->
  stat (write (mkSlice [w] c) fs) q = stat fs q.
Proof.
  intros [Hp|Hq].
  - rewrite (write_no_path [w] c fs); [reflexivity|]. constructor; [exact Hp|constructor].
  - rewrite write_single. cbv zeta.
    destruct (Remove (wPath w) fs) as [fs1|e] eqn:HR.
    + pose proof (Remove_frame _ _ _ q HR Hq) as H1.
      destruct (WriteFile (wPath w) (wContents w) fs1) as [fs2|e] eqn:HW;
        [|exact H1].
      rewrite (WriteFile_frame _ _ _ _ q HW Hq). exact H1.
    + destruct (WriteFile (wPath w) (wContents w) fs) as [fs2|e'] eqn:HW;
        [|reflexivity].
      apply (WriteFile_frame _ _ _ _ q HW Hq).
Qed.

Lemma write_frame (items : slice WriteOp) (fs : node) (q : path) :
  Forall (fun w => wPath w = [] \/ is_prefix (wPath w) q = false) (elems items) ->
  stat (write items fs) q = stat fs q.
Proof.
  destruct items as [ws c]. cbn [elems]. revert fs.
  induction ws as [|w ws IH]; intros fs H; [reflexivity|].
  apply Forall_cons in H as [Hw H].
  rewrite (write_cons w ws c c), (IH _ H). apply write_single_frame. exact Hw.
Qed.

(** X15: [write] changes nothing outside the paths of its records: a path
    that no record's path leads to or lies above is found as it was,
    whether the removals and writes succeed or fail. *)
Theorem write_touches_only_the_listed_paths :
  forall (items : slice WriteOp) (fs : node) (q : path),
    Forall (fun w => wPath w = [] \/ is_prefix (wPath w) q = false) (elems items) ->
    stat (write items fs) q = stat fs q.
Proof. exact write_frame. Qed.

Lemma write_touches_only_the_listed_paths_witness :
  stat (write (mkSlice [mkWriteOp ["root"; "a.txt"] (bytes "new");
                        mkWriteOp ["gone"; "c.txt"] (bytes "lost")] 2)
          tree_two_files) ["root"; "b.txt"]
  = stat tree_two_files ["root"; "b.txt"].
Proof.
  apply (write_touches_only_the_listed_paths
           (mkSlice [mkWriteOp ["root"; "a.txt"] (bytes "new");
                     mkWriteOp ["gone"; "c.txt"] (bytes "lost")] 2)
           tree_two_files ["root"; "b.txt"]).
  repeat (apply Forall_cons_2; [right; reflexivity|]). apply Forall_nil_2.
Defined.

(** X16: for one record, [write] leaves a file with the record's bytes at
    its path when the directory of the path is there and the path is not a
    directory that has entries: it replaces a file, creates a missing one,
    and puts a file in the place of an empty directory.  Otherwise both
    calls fail and the file system is as it was. *)
Theorem write_creates_or_replaces_the_file :
  forall (w : WriteOp) (c : nat) (fs : node),
    wPath w <> [] ->
    (stat fs (Filepath.Dir (wPath w)) = Some KDir ->
     (forall e es, lookup fs (wPath w) <> Some (Dir (e :: es))) ->
     stat (write (mkSlice [w] c) fs) (wPath w) = Some (KFile (wContents w)))
    /\ (stat fs (Filepath.Dir (wPath w)) <> Some KDir ->
        write (mkSlice [w] c) fs = fs)
    /\ (forall e es, lookup fs (wPath w) = Some (Dir (e :: es)) ->
        write (mkSlice [w] c) fs = fs).
Proof.
  intros w c fs Hp. set (p := wPath w) in *. rewrite write_single. cbv zeta.
  fold p. destruct (Dir_prefix p Hp) as [x Hx].
  assert (Hnp : is_prefix p (Filepath.Dir p) = false).
  { rewrite Hx at 1. apply is_prefix_longer. }
  assert (HWF : forall fs1,
             stat fs1 (Filepath.Dir p) = Some KDir ->
             (forall es, lookup fs1 p <> Some (Dir es)) ->
             WriteFile p (wContents w) fs1 = inl (attach p (File (wContents w)) fs1)
             /\ stat (attach p (File (wContents w)) fs1) p
                = Some (KFile (wContents w))).
  { intros fs1 Hpar Hnd. split.
    - unfold WriteFile. apply stat_dir_iff in Hpar as [es Hes]. rewrite Hes.
      destruct p as [|y p']; [congruence|].
      destruct (lookup fs1 (y :: p')) as [[b|es']|] eqn:Hl; try reflexivity.
      destruct (Hnd es' eq_refl).
    - rewrite stat_attach by assumption. rewrite is_prefix_refl, drop_all.
      reflexivity. }
  split; [|split].
  - intros Hpar Hne.
    destruct (Remove p fs) as [fs1|e] eqn:HR.
    + assert (fs1 = detach p fs) as ->.
      { unfold Remove in HR. destruct p as [|y p']; [discriminate|].
        destruct (lookup fs (y :: p')) as [[b|[|e es]]|]; congruence. }
      assert (Hd : forall q, stat (detach p fs) q
                             = if is_prefix p q then None else stat fs q)
        by (apply stat_detach; exact Hp).
      destruct (HWF (detach p fs)) as [-> Hst]; [| |exact Hst].
      * rewrite Hd, Hnp. exact Hpar.
      * intros es Hes. specialize (Hd p). rewrite is_prefix_refl in Hd.
        unfold stat in Hd. rewrite Hes in Hd. discriminate Hd.
    + destruct (HWF fs Hpar) as [-> Hst]; [|exact Hst].
      intros es Hes. unfold Remove in HR. rewrite Hes in HR.
      destruct p as [|y p']; [congruence|].
      destruct es as [|e0 es]; [discriminate HR|]. apply (Hne e0 es). exact Hes.
  - intros Hpar.
    assert (Hl : lookup fs p = None).
    { destruct (lookup fs p) as [n|] eqn:Hl; [|reflexivity]. exfalso. apply Hpar.
      apply parent_is_dir; [exact Hp|rewrite Hl; eauto]. }
    assert (HR : Remove p fs = inr ENOENT).
    { unfold Remove. rewrite Hl. destruct p; reflexivity. }
    rewrite HR. unfold WriteFile. rewrite Hl.
    destruct p as [|y p']; [reflexivity|].
    destruct (lookup fs (Filepath.Dir (y :: p'))) as [[b|es]|] eqn:Hd; try reflexivity.
    exfalso. apply Hpar. apply stat_dir_iff. eauto.
  - intros e es Hl.
    assert (HR : Remove p fs = inr ENOTEMPTY).
    { unfold Remove. rewrite Hl. destruct p; [congruence|reflexivity]. }
    rewrite HR. unfold WriteFile. rewrite Hl. destruct p; reflexivity.
Qed.

Lemma write_creates_or_replaces_the_file_witness :
  (stat tree_two_files (Filepath.Dir ["root"; "new.txt"]) = Some KDir ->
   (forall e es, lookup tree_two_files ["root"; "new.txt"] <> Some (Dir (e :: es))) ->
   stat (write (mkSlice [mkWriteOp ["root"; "new.txt"] (bytes "fresh")] 1)
           tree_two_files) ["root"; "new.txt"]
   = Some (KFile (bytes "fresh")))
  /\ (stat tree_two_files (Filepath.Dir ["root"; "new.txt"]) <> Some KDir ->
      write (mkSlice [mkWriteOp ["root"; "new.txt"] (bytes "fresh")] 1) tree_two_files
      = tree_two_files)
  /\ (forall e es, lookup tree_two_files ["root"; "new.txt"] = Some (Dir (e :: es)) ->
      write (mkSlice [mkWriteOp ["root"; "new.txt"] (bytes "fresh")] 1) tree_two_files
      = tree_two_files).
Proof.
  apply (write_creates_or_replaces_the_file
           (mkWriteOp ["root"; "new.txt"] (bytes "fresh")) 1 tree_two_files).
  discriminate.
Defined.

(** * What [read] returns *)

(** X17: [read] returns one record for every path of the list that is not
    empty and leads to a file, with the bytes of that file, in the order of
    the list; the other paths (empty, missing, directories) are passed
    over. *)
Theorem read_returns_the_files_of_the_list :
  forall (rt : Runtime) (items : slice path) (fs : node),
    elems (read items fs) = omap (read_one fs) (elems items)
    /\ (forall r, r ∈ elems (read items fs)
                  <-> rPath r ∈ elems items /\ rPath r <> []
                      /\ stat fs (rPath r) = Some (KFile (rContents r)))
    /\ len (read items fs) <= len items.
Proof.
  intros rt items fs. rewrite read_elems. split; [reflexivity|]. split.
  - intros r. rewrite list_elem_of_omap. split.
    + intros (q & Hq & Hr). apply read_one_Some in Hr as (Hne & <- & Hst). auto.
    + intros (Hq & Hne & Hst). exists (rPath r). split; [exact Hq|].
      apply read_one_Some. auto.
  - unfold len. rewrite read_elems.
    induction (elems items) as [|q l IH]; [reflexivity|].
    cbn [omap list_omap]. destruct (read_one fs q); cbn [length]; lia.
Qed.

(** * What a run leaves alone *)

Lemma names_plain_dir (es : list (string * node)) :
  names_plain (Dir es) = true
  <-> Forall (fun e => no_slash (fst e) = true /\ names_plain (snd e) = true) es.
Proof.
  cbn [names_plain]. induction es as [|[c ch] es IH].
  - split; [constructor|reflexivity].
  - rewrite Forall_cons, <- IH, !andb_true_iff. cbn [fst snd]. tauto.
Qed.

Lemma rename_of_in_place replace reg (d : path) (c : string) :
  no_slash c = true -> no_slash replace = true ->
  Forall (renames_in_place d) (rename_of replace reg (d ++ [c]) c).
Proof.
  intros Hc Hr. unfold rename_of.
  destruct (FindSubmatch reg c) as [match0|] eqn:Hm; [|constructor].
  apply Forall_cons_2; [|constructor].
  exists [], c, (newname replace reg c). cbn [Old New]. rewrite app_nil_r, Dir_snoc.
  assert (Hn : no_slash (newname replace reg c) = true).
  { unfold newname. rewrite Hm. apply Replace_no_slash; assumption. }
  split; [reflexivity|]. split; [exact Hn|]. apply Join_single. exact Hn.
Qed.

Lemma renames_in_place_below (d : path) (c : string) (op : RenameOp) :
  renames_in_place (d ++ [c]) op -> renames_in_place d op.
Proof.
  intros (rel & nm & c' & Ho & Hc & Hn). exists (c :: rel), nm, c'.
  rewrite <- !app_assoc in *. auto.
Qed.

Lemma plan_in_place replace reg ignoreMap (n : node) :
  forall d name,
    names_plain n = true -> no_slash name = true -> no_slash replace = true ->
    Forall (renames_in_place d) (plan replace reg ignoreMap (d ++ [name]) name n).
Proof.
  induction n as [b|es IH] using node_ind'; intros d name Hn Hname Hr.
  - cbn [plan]. apply rename_of_in_place; assumption.
  - rewrite plan_dir. destruct (skipped ignoreMap name true); [constructor|].
    apply Forall_app. split; [apply rename_of_in_place; assumption|].
    apply names_plain_dir in Hn.
    induction es as [|[c ch] es IHes]; [constructor|].
    apply Forall_cons in IH as [IHch IH]. apply Forall_cons in Hn as [[Hc Hch] Hn].
    cbn [plan_children fst snd] in *. apply Forall_app. split; [|apply IHes; assumption].
    eapply Forall_impl; [apply (IHch (d ++ [name]) c); assumption|].
    intros op. apply renames_in_place_below.
Qed.

Lemma exec_renames_frame (q : path) (ops : list RenameOp) :
  Forall (fun op => forall fs fs', Rename (Old op) (New op) fs = inl fs' ->
                                   stat fs' q = stat fs q) ops ->
  forall fs fs' e, exec_renames ops fs = (fs', e) -> stat fs' q = stat fs q.
Proof.
  induction 1 as [|op ops Hop Hops IH]; intros fs fs' e H.
  - injection H as <- _. reflexivity.
  - cbn [exec_renames] in H.
    destruct (Rename (Old op) (New op) fs) as [fs1|err] eqn:HR.
    + rewrite (IH _ _ _ H). apply (Hop _ _ HR).
    + injection H as <- _. reflexivity.
Qed.

Lemma exec_renames_snoc (a : list RenameOp) (x : RenameOp) (fs : node) :
  exec_renames (a ++ [x]) fs
  = match exec_renames a fs with
    | (fs1, Some err) => (fs1, Some err)
    | (fs1, None) =>
        match Rename (Old x) (New x) fs1 with
        | inl fs' => (fs', None)
        | inr e => (fs1, Some (CouldntRename (Old x) (New x) e))
        end
    end.
Proof.
  revert fs. induction a as [|op a IH]; intros fs; [reflexivity|].
  cbn [app exec_renames].
  destruct (Rename (Old op) (New op) fs) as [fs1|e]; [apply IH|reflexivity].
Qed.

Lemma is_prefix_app_false (p r q : path) :
  is_prefix p q = false -> is_prefix (p ++ r) q = false.
Proof.
  intros H. destruct (is_prefix (p ++ r) q) eqn:E; [|reflexivity].
  apply is_prefix_spec in E as [s ->]. rewrite <- app_assoc in H.
  assert (is_prefix p (p ++ r ++ s) = true) by (apply is_prefix_spec; eauto).
  congruence.
Qed.

Lemma plan_children_in_place replace reg ignoreMap (p : path)
  (es : list (string * node)) :
  names_plain (Dir es) = true -> no_slash replace = true ->
  Forall (renames_in_place p) (plan_children replace reg ignoreMap p es).
Proof.
  intros Hn Hr. apply names_plain_dir in Hn.
  induction es as [|[c ch] es IH]; [constructor|].
  apply Forall_cons in Hn as [[Hc Hch] Hn]. cbn [plan_children fst snd] in *.
  apply Forall_app. split; [|apply IH; exact Hn].
  apply plan_in_place; assumption.
Qed.

Lemma Rename_join_step (d : path) (nm c' : string) (fs fs' : node) :
  no_slash c' = true ->
  Rename (d ++ [nm]) (Filepath.join_step d c') fs = inl fs' ->
  valid_name c' = true /\ Filepath.join_step d c' = d ++ [c'].
Proof.
  intros Hc HR. unfold Filepath.join_step in *.
  destruct (decide (c' = EmptyString)) as [E1|E1].
  { destruct (Rename_onto_ancestor d nm [] fs) as [e He]. congruence. }
  destruct (decide (c' = ".")) as [E2|E2].
  { destruct (Rename_onto_ancestor d nm [] fs) as [e He]. congruence. }
  destruct (decide (c' = "..")) as [E3|E3].
  { exfalso. destruct (removelast_prefix d) as [E|[x Hx]].
    - rewrite E in HR. destruct (Rename_onto_ancestor [] nm [] fs) as [e He].
      cbn in *. congruence.
    - remember (removelast d) as d' eqn:Hd'. clear Hd'. rewrite Hx in HR.
      rewrite <- app_assoc in HR.
      destruct (Rename_onto_ancestor d' x [nm] fs) as [e He]. cbn in *. congruence. }
  split; [|reflexivity].
  unfold valid_name. rewrite Hc, !bool_decide_eq_false_2 by assumption. reflexivity.
Qed.

(** A rename in place that succeeds changes nothing outside the
    directory [d]. *)
Lemma rename_in_place_harmless (d : path) (op : RenameOp) (q : path) :
  renames_in_place d op ->
  is_prefix d q = false ->
  forall fs fs', Rename (Old op) (New op) fs = inl fs' -> stat fs' q = stat fs q.
Proof.
  intros (rel & nm & c' & Ho & Hc & Hn) Hq fs fs' HR.
  rewrite Ho, Hn, app_assoc in HR.
  destruct (Rename_join_step _ _ _ _ _ Hc HR) as [_ Hj]. rewrite Hj in HR.
  apply Rename_inl in HR as [[_ ->]|(_ & _ & _ & n & _ & _ & _ & Hst)];
    [reflexivity|].
  rewrite Hst, <- !app_assoc, !is_prefix_app_false by exact Hq. reflexivity.
Qed.

Lemma rename_of_root replace reg (d : path) (c : string) :
  no_slash c = true -> no_slash replace = true ->
  rename_of replace reg (d ++ [c]) c = []
  \/ exists c', no_slash c' = true
                /\ rename_of replace reg (d ++ [c]) c
                   = [mkRenameOp (d ++ [c]) (Filepath.join_step d c')].
Proof.
  intros Hc Hr. unfold rename_of.
  destruct (FindSubmatch reg c) as [match0|] eqn:Hm; [right|left; reflexivity].
  assert (Hn : no_slash (newname replace reg c) = true).
  { unfold newname. rewrite Hm. apply Replace_no_slash; assumption. }
  exists (newname replace reg c). split; [exact Hn|].
  rewrite Dir_snoc, (Join_single _ _ Hn). reflexivity.
Qed.

Lemma Rename_root (new : path) (fs fs' : node) :
  Rename [] new fs = inl fs' -> new = [].
Proof.
  intros H. destruct new as [|c new]; [reflexivity|]. exfalso.
  unfold Rename in H. change (lookup fs []) with (Some fs) in H.
  destruct (lookup fs (c :: new)) as [[b|es]|]; [|discriminate H|];
    (destruct (decide ([] = c :: new)) as [E|_]; [discriminate E|]);
    destruct fs as [b0|es0]; cbn [isDir is_prefix andb] in H; try discriminate H;
    destruct (Filepath.Dir (c :: new)); cbn [lookup] in H; discriminate H.
Qed.

(** The renames of [renameDirs], whatever their outcome, leave the
    paths outside the start directory and outside the path returned as
    they were; the path returned is the start directory or a name next to
    it. *)
Lemma renameDirs_frame {rt : Runtime} (dir : path) (replace : string) (reg : Regexp)
  (ignoreMap : gmap string bool) (fs t : node) (np : path) (e : option error)
  (fs' : node) :
  lookup fs dir = Some t ->
  names_plain t = true ->
  no_slash (Filepath.Base dir) = true ->
  no_slash replace = true ->
  renameDirs dir replace reg ignoreMap fs = Ok (np, e, fs') ->
  (np = dir \/ exists c', valid_name c' = true /\ np = Filepath.Dir dir ++ [c'])
  /\ forall q, is_prefix dir q = false -> is_prefix np q = false ->
               stat fs' q = stat fs q.
Proof.
  intros Ht Hn Hb Hr H. unfold renameDirs in H.
  destruct (Walk dir (renameDirs_visit replace reg ignoreMap) Slice.empty fs)
    as [renames| |] eqn:HW; try discriminate H.
  cbn [mbind result_bind] in H.
  pose proof (Walk_plan replace reg ignoreMap dir fs renames t Ht HW) as HP.
  unfold len in H. rewrite rename_loop_all, HP in H. clear HP HW renames.
  destruct (list_eq_dec dir []) as [->|Hdir].
  { split; [|intros q Hq; discriminate Hq].
    destruct (plan_head replace reg ignoreMap t [] (Filepath.Base []))
      as (hd & rest & Hplan & Hhd & Hrest).
    rewrite Hplan in H.
    destruct (exec_renames (rev (hd ++ rest)) fs) as [fs1 [err|]] eqn:Hex;
      [injection H as <- _ _; auto|].
    destruct Hhd as [->|[new ->]].
    - cbn [app] in H. destruct rest as [|r0 l]; [injection H as <- _ _; auto|].
      apply Forall_cons in Hrest as [(c & rel & Ho) _].
      rewrite decide_False in H by (rewrite Ho; discriminate).
      injection H as <- _ _; auto.
    - cbn [app Old New] in H. rewrite decide_True in H by reflexivity.
      injection H as <- _ _. left.
      rewrite rev_app_distr in Hex. cbn [rev app] in Hex.
      rewrite exec_renames_snoc in Hex.
      destruct (exec_renames (rev rest) fs) as [fs2 [err|]]; [discriminate Hex|].
      cbn [Old New] in Hex.
      destruct (Rename [] new fs2) as [fs3|err] eqn:HR; [|discriminate Hex].
      apply (Rename_root _ _ _ HR). }
  destruct (Dir_prefix dir Hdir) as [name Hname].
  assert (Hbase : Filepath.Base dir = name) by (rewrite Hname; apply Base_snoc).
  rewrite Hbase in *. set (d := Filepath.Dir dir) in *.
  assert (Hplan : exists hd rest,
             plan replace reg ignoreMap dir name t = hd ++ rest
             /\ (hd = [] \/ hd = rename_of replace reg dir name)
             /\ Forall (renames_in_place dir) rest).
  { destruct t as [b|es].
    - exists (rename_of replace reg dir name), []. rewrite app_nil_r.
      split; [reflexivity|]. split; [right; reflexivity|constructor].
    - rewrite plan_dir. destruct (skipped ignoreMap name true).
      + exists [], []. split; [reflexivity|]. split; [left; reflexivity|constructor].
      + exists (rename_of replace reg dir name),
          (plan_children replace reg ignoreMap dir es).
        split; [reflexivity|]. split; [right; reflexivity|].
        apply plan_children_in_place; assumption. }
  destruct Hplan as (hd & rest & Hplan & Hhd & Hrest). rewrite Hplan in H.
  clear Hplan.
  assert (Hframe : forall q fs1 e1,
             is_prefix dir q = false ->
             exec_renames (rev rest) fs = (fs1, e1) -> stat fs1 q = stat fs q).
  { intros q fs1 e1 Hq. apply exec_renames_frame. apply Forall_rev.
    eapply Forall_impl; [exact Hrest|]. intros op Hop.
    apply (rename_in_place_harmless dir op q Hop Hq). }
  assert (Hnot : forall r0 l, rest = r0 :: l -> Old r0 <> dir).
  { intros r0 l ->. apply Forall_cons in Hrest as [(rel & nm & c' & Ho & _) _].
    rewrite Ho. intros E. rewrite <- (app_nil_r dir) in E at 2.
    apply app_inv_head in E. destruct rel; discriminate E. }
  assert (Hhd' : hd = [] \/ exists c', no_slash c' = true
                           /\ hd = [mkRenameOp dir (Filepath.join_step d c')]).
  { pose proof (rename_of_root replace reg d name Hb Hr) as Hroot.
    rewrite <- Hname in Hroot.
    destruct Hhd as [-> | ->]; [left; reflexivity|]. exact Hroot. }
  clear Hhd. destruct Hhd' as [->|(c' & Hc & ->)].
  - cbn [app] in H.
    assert (Hnp : np = dir).
    { destruct (exec_renames (rev rest) fs) as [fs1 [err|]];
        [injection H as <- _ _; reflexivity|].
      destruct rest as [|r0 l]; [injection H as <- _ _; reflexivity|].
      rewrite decide_False in H by (apply (Hnot r0 l); reflexivity).
      injection H as <- _ _; reflexivity. }
    split; [left; exact Hnp|]. intros q Hq _.
    destruct (exec_renames (rev rest) fs) as [fs1 e1] eqn:Hex.
    assert (fs' = fs1) as -> by (destruct e1; injection H as _ _ <-; reflexivity).
    apply (Hframe q fs1 e1 Hq eq_refl).
  - cbn [app rev Old New] in H. rewrite exec_renames_snoc in H. cbn [Old New] in H.
    rewrite decide_True in H by reflexivity.
    destruct (exec_renames (rev rest) fs) as [fs1 [err|]] eqn:Hex.
    + injection H as <- _ <-. split; [left; reflexivity|].
      intros q Hq _. apply (Hframe q _ _ Hq eq_refl).
    + destruct (Rename dir (Filepath.join_step d c') fs1) as [fs2|err] eqn:HR.
      * injection H as <- _ <-.
        pose proof HR as HR'. rewrite Hname in HR' at 1.
        apply (Rename_join_step d name c' fs1 fs2 Hc) in HR' as [Hv Hj].
        split; [right; exists c'; auto|]. intros q Hq Hq'.
        rewrite <- (Hframe q _ _ Hq eq_refl).
        apply Rename_inl in HR as [[_ ->]|(_ & _ & _ & n & _ & _ & _ & Hst)];
          [reflexivity|].
        rewrite Hst, Hq, Hq'. reflexivity.
      * injection H as <- _ <-. split; [left; reflexivity|].
        intros q Hq _. apply (Hframe q _ _ Hq eq_refl).
Qed.

(** The content stage changes nothing outside the directory it
    walks. *)
Lemma replaceContents_frame {rt : Runtime} (dir : path) (replace : string)
  (reg : Regexp) (extMap ignoreMap : gmap string bool) (fs : node)
  (e : option error) (fs' : node) :
  replaceContents dir replace reg extMap ignoreMap fs = Ok (e, fs') ->
  forall q, is_prefix dir q = false -> stat fs' q = stat fs q.
Proof.
  intros H q Hq. unfold replaceContents in H.
  assert (HW : exists readPaths,
             Walk dir (replaceContents_visit extMap ignoreMap) Slice.empty fs
             = Ok readPaths
             /\ Forall (fun p => exists rel, p = dir ++ rel) (elems readPaths)).
  { destruct (lookup fs dir) as [t|] eqn:Hl.
    - destruct (Walk_files extMap ignoreMap dir fs t Hl) as (readPaths & HW & HF).
      exists readPaths. split; [exact HW|]. rewrite HF. apply Forall_forall.
      intros p Hp. apply (files_of_below extMap ignoreMap t dir _ p Hp).
    - exists Slice.empty. split; [|constructor]. unfold Walk. rewrite Hl. reflexivity. }
  destruct HW as (readPaths & HW & HF). rewrite HW in H.
  cbn [mbind result_bind] in H.
  destruct (brokerRead readPaths fs) as [reads| |] eqn:Hr; try discriminate H.
  cbn [mbind result_bind] in H.
  destruct (brokerUpdate reads reg replace) as [writes| |] eqn:Hup; try discriminate H.
  cbn [mbind result_bind] in H.
  destruct (brokerWrite writes fs) as [fs1| |] eqn:Hwr; try discriminate H.
  cbn [mbind result_bind] in H. injection H as _ <-.
  apply brokerRead_Ok in Hr. rewrite read_elems in Hr.
  apply brokerUpdate_Ok in Hup as (junk & Hup & Hjunk). rewrite Hr in Hup.
  apply brokerWrite_Ok in Hwr. rewrite Hwr. apply write_frame.
  rewrite Hup. apply Forall_app. split.
  - apply Forall_forall. intros w Hw. right.
    apply list_elem_of_omap in Hw as (r & Hrd & Hw).
    apply list_elem_of_omap in Hrd as (p & Hp & Hrd).
    apply write_for_path in Hw as [-> _].
    apply read_one_Some in Hrd as (_ & -> & _).
    rewrite Forall_forall in HF. destruct (HF p Hp) as [rel ->].
    apply is_prefix_app_false. exact Hq.
  - eapply Forall_impl; [exact Hjunk|]. intros w Hw. left. exact Hw.
Qed.

(** X18: a run changes nothing outside the start directory and the name
    the start directory is renamed to, when the names of the tree and the
    replacement have no [/] in them: every other path of the file system
    is found as it was, whether the run succeeds or stops on a failed
    rename. *)
Theorem run_changes_nothing_outside_the_start_directory :
  forall (rt : Runtime) (dir : path) (find replace ignoredirs exts : string)
         (c : bool) (fs t : node) (e : option error) (fs' : node),
    lookup fs dir = Some t ->
    names_plain t = true ->
    no_slash (Filepath.Base dir) = true ->
    no_slash replace = true ->
    run dir find replace ignoredirs exts c fs = Ok (e, fs') ->
    exists newpath,
      (newpath = dir
       \/ exists c', valid_name c' = true /\ newpath = Filepath.Dir dir ++ [c'])
      /\ forall q, is_prefix dir q = false -> is_prefix newpath q = false ->
                   stat fs' q = stat fs q.
Proof.
  intros rt dir find replace ignoredirs exts c fs t e fs' Ht Hn Hb Hr H.
  unfold run in H.
  destruct (MustCompile (pattern_of find)) as [reg| |]; try discriminate H.
  cbn [mbind result_bind] in H.
  destruct (renameDirs dir replace reg (splitToMap (ToLower ignoredirs) "," "") fs)
    as [[[np e1] fs1]| |] eqn:HR; try discriminate H.
  cbn [mbind result_bind] in H.
  destruct (renameDirs_frame dir replace reg _ fs t np e1 fs1 Ht Hn Hb Hr HR)
    as [Hnp Hframe].
  exists np. split; [exact Hnp|]. intros q Hq Hq'.
  destruct e1 as [err|].
  - injection H as _ <-. apply Hframe; assumption.
  - rewrite (replaceContents_frame _ _ _ _ _ _ _ _ H q Hq'). apply Hframe; assumption.
Qed.

Lemma run_changes_nothing_outside_the_start_directory_witness :
  exists newpath,
    (newpath = ["root"; "Foo"]
     \/ exists c', valid_name c' = true
                   /\ newpath = Filepath.Dir ["root"; "Foo"] ++ [c'])
    /\ forall q, is_prefix ["root"; "Foo"] q = false -> is_prefix newpath q = false ->
                 stat (Dir [("root", Dir [("bar", Dir [("bar.txt", File (bytes "x"))])])]) q
                 = stat tree_mixed q.
Proof.
  apply (run_changes_nothing_outside_the_start_directory go_runtime ["root"; "Foo"]
           "foo" "bar" defaultIgnores "txt" false tree_mixed
           (Dir [("foo.txt", File (bytes "x"))]) None).
  - reflexivity.
  - reflexivity.
  - reflexivity.
  - reflexivity.
  - vm_compute. reflexivity.
Defined.

(** * The entries [renameDirs] plans to rename *)

Section PlanElem.
Variables (replace : string) (reg : Regexp) (ignoreMap : gmap string bool).

Lemma plan_children_elem p es op :
  op ∈ plan_children replace reg ignoreMap p es
  <-> exists c ch, (c, ch) ∈ es /\ op ∈ plan replace reg ignoreMap (p ++ [c]) c ch.
Proof.
  induction es as [|[c ch] es IH]; cbn [plan_children].
  - split; [intros H; inversion H|intros (c & ch & H & _); inversion H].
  - rewrite elem_of_app, IH. split.
    + intros [H|(c' & ch' & Hin & H)].
      * exists c, ch. split; [left|exact H].
      * exists c', ch'. split; [right; exact Hin|exact H].
    + intros (c' & ch' & Hin & H). apply elem_of_cons in Hin as [[= -> ->]|Hin].
      * left. exact H.
      * right. eauto.
Qed.

Lemma plan_elem (n : node) :
  forall p name op,
    names_unique n = true ->
    op ∈ plan replace reg ignoreMap p name n
    <-> exists rel m,
        lookup n rel = Some m
        /\ reached ignoreMap name n rel = true
        /\ skipped ignoreMap (List.last rel name) (isDir m) = false
        /\ op ∈ rename_of replace reg (p ++ rel) (List.last rel name).
Proof.
  induction n as [b|es IH] using node_ind'; intros p name op Hu.
  - cbn [plan]. split.
    + intros H. exists [], (File b). rewrite app_nil_r. cbn [List.last isDir].
      unfold skipped. rewrite andb_false_r. auto.
    + intros (rel & m & Hlk & _ & _ & H). destruct rel as [|c rel]; [|discriminate].
      rewrite app_nil_r in H. exact H.
  - apply names_unique_dir in Hu as [Hnd Hch]. rewrite plan_dir.
    rewrite Forall_forall in IH, Hch.
    destruct (skipped ignoreMap name true) eqn:Hs.
    + split; [intros H; inversion H|].
      intros (rel & m & Hlk & Hr & Hsk & _). destruct rel as [|c rel].
      * injection Hlk as <-. cbn [List.last isDir] in Hsk. congruence.
      * cbn [reached] in Hr. rewrite Hs in Hr. discriminate.
    + rewrite elem_of_app, plan_children_elem. split.
      * intros [H|(c & ch & Hin & H)].
        -- exists [], (Dir es). rewrite app_nil_r. cbn [List.last isDir]. auto.
        -- apply (IH _ Hin) in H as (rel & m & Hlk & Hr & Hsk & H);
             [|apply (Hch _ Hin)].
           assert (Ha : assoc es c = Some ch).
           { apply assoc_first; [exact Hnd|]. apply list_elem_of_In. exact Hin. }
           exists (c :: rel), m. cbn [reached lookup].
           rewrite Hs, Ha, last_cons_default. rewrite <- app_assoc in H. auto.
      * intros (rel & m & Hlk & Hr & Hsk & H). destruct rel as [|c rel].
        -- left. rewrite app_nil_r in H. exact H.
        -- right. cbn [reached lookup] in Hr, Hlk. rewrite Hs in Hr.
           cbn [negb andb] in Hr.
           destruct (assoc es c) as [ch|] eqn:Ha; [|discriminate].
           assert (Hin : (c, ch) ∈ es) by (apply list_elem_of_In, assoc_In; exact Ha).
           exists c, ch. split; [exact Hin|].
           apply (IH _ Hin); [apply (Hch _ Hin)|].
           exists rel, m. rewrite last_cons_default in *. rewrite <- app_assoc. auto.
Qed.

End PlanElem.

Lemma ordered_NoDup (l : list RenameOp) : ordered l -> NoDup (map Old l).
Proof.
  induction l as [|x l IH]; [constructor|]. intros [Hx Hl]. cbn [map].
  apply NoDup_cons. split; [|apply IH; exact Hl].
  intros Hin. apply list_elem_of_fmap in Hin as (y & Heq & Hy).
  rewrite Forall_forall in Hx. specialize (Hx y Hy).
  rewrite <- Heq, is_prefix_refl in Hx. discriminate Hx.
Qed.

(** The renames a walk records, entry by entry. *)
Lemma Walk_rename_members :
  forall (rt : Runtime) (replace : string) (reg : Regexp)
         (ignoreMap : gmap string bool) (dir : path) (fs t : node)
         (renames : slice RenameOp),
    lookup fs dir = Some t ->
    names_unique t = true ->
    Walk dir (renameDirs_visit replace reg ignoreMap) Slice.empty fs = Ok renames ->
    NoDup (map Old (elems renames))
    /\ forall op,
      op ∈ elems renames
      <-> exists rel m,
          Old op = dir ++ rel
          /\ lookup fs (Old op) = Some m
          /\ reached ignoreMap (Filepath.Base dir) t rel = true
          /\ skipped ignoreMap (Filepath.Base (Old op)) (isDir m) = false
          /\ is_Some (FindSubmatch reg (Filepath.Base (Old op)))
          /\ New op = Filepath.Join (Filepath.Dir (Old op))
                        (newname replace reg (Filepath.Base (Old op))).
Proof.
  intros rt replace reg ignoreMap dir fs t renames Ht Hu HW.
  rewrite (Walk_plan replace reg ignoreMap dir fs renames t Ht HW).
  split; [apply ordered_NoDup, plan_ordered; exact Hu|]. intros op.
  rewrite (plan_elem replace reg ignoreMap t dir _ op Hu).
  assert (Hro : forall P nm,
             op ∈ rename_of replace reg P nm
             <-> is_Some (FindSubmatch reg nm)
                 /\ op = mkRenameOp P (Filepath.Join (Filepath.Dir P)
                                         (newname replace reg nm))).
  { intros P nm. unfold rename_of. destruct (FindSubmatch reg nm) as [m0|].
    - rewrite list_elem_of_singleton. split; [intros ->; eauto|tauto].
    - split; [intros H; inversion H|]. intros [[x Hx] _]. discriminate. }
  unfold Filepath.Base. split.
  - intros (rel & m & Hlk & Hr & Hsk & H). apply Hro in H as [Hm ->].
    exists rel, m. cbn [Old New]. rewrite lookup_app, Ht, last_app_default.
    repeat split; auto.
  - intros (rel & m & Ho & Hlk & Hr & Hsk & Hm & Hn). exists rel, m.
    rewrite Ho, lookup_app, Ht, last_app_default in *.
    split; [exact Hlk|]. split; [exact Hr|]. split; [exact Hsk|].
    apply Hro. split; [exact Hm|]. destruct op as [o n']. cbn [Old New] in *.
    subst. reflexivity.
Qed.

(** X19: the renames [renameDirs] records are one for every entry that
    the walk gets to without entering an ignored directory, that is not an
    ignored directory itself, and whose name matches: no path is recorded
    twice, and the new path puts the new name in the directory of the
    entry. *)
Theorem walk_plans_a_rename_for_every_matching_entry :
  forall (rt : Runtime) (replace : string) (reg : Regexp)
         (ignoreMap : gmap string bool) (dir : path) (fs t : node)
         (renames : slice RenameOp),
    lookup fs dir = Some t ->
    names_unique t = true ->
    Walk dir (renameDirs_visit replace reg ignoreMap) Slice.empty fs = Ok renames ->
    NoDup (map Old (elems renames))
    /\ forall op,
      op ∈ elems renames
      <-> exists rel m,
          Old op = dir ++ rel
          /\ lookup fs (Old op) = Some m
          /\ reached ignoreMap (Filepath.Base dir) t rel = true
          /\ skipped ignoreMap (Filepath.Base (Old op)) (isDir m) = false
          /\ is_Some (FindSubmatch reg (Filepath.Base (Old op)))
          /\ New op = Filepath.Join (Filepath.Dir (Old op))
                        (newname replace reg (Filepath.Base (Old op))).
Proof.
  intros rt replace reg ignoreMap dir fs t renames Ht Hu HW.
  exact (Walk_rename_members rt replace reg ignoreMap dir fs t renames Ht Hu HW).
Qed.

Lemma walk_plans_a_rename_for_every_matching_entry_witness :
  NoDup (map Old (elems (mkSlice [mkRenameOp ["proj"; "node_modules"; "foo.txt"]
                                    ["proj"; "node_modules"; "bar.txt"]] 1)))
  /\ (mkRenameOp ["proj"; "node_modules"; "foo.txt"] ["proj"; "node_modules"; "bar.txt"]
  ∈ elems (mkSlice [mkRenameOp ["proj"; "node_modules"; "foo.txt"]
                      ["proj"; "node_modules"; "bar.txt"]] 1)
  <-> exists rel m,
      Old (mkRenameOp ["proj"; "node_modules"; "foo.txt"]
             ["proj"; "node_modules"; "bar.txt"]) = ["proj"] ++ rel
      /\ lookup tree_vcs
           (Old (mkRenameOp ["proj"; "node_modules"; "foo.txt"]
                   ["proj"; "node_modules"; "bar.txt"])) = Some m
      /\ reached (splitToMap (ToLower defaultIgnores) "," "") (Filepath.Base ["proj"])
           (Dir [(".git", Dir [("foo.txt", File (bytes "foo"))]);
                 ("node_modules", Dir [("foo.txt", File (bytes "foo"))])]) rel = true
      /\ skipped (splitToMap (ToLower defaultIgnores) "," "")
           (Filepath.Base (Old (mkRenameOp ["proj"; "node_modules"; "foo.txt"]
                                  ["proj"; "node_modules"; "bar.txt"]))) (isDir m)
         = false
      /\ is_Some (FindSubmatch regexp_foo
                    (Filepath.Base (Old (mkRenameOp ["proj"; "node_modules"; "foo.txt"]
                                           ["proj"; "node_modules"; "bar.txt"]))))
      /\ New (mkRenameOp ["proj"; "node_modules"; "foo.txt"]
                ["proj"; "node_modules"; "bar.txt"])
         = Filepath.Join
             (Filepath.Dir (Old (mkRenameOp ["proj"; "node_modules"; "foo.txt"]
                                   ["proj"; "node_modules"; "bar.txt"])))
             (newname "bar" regexp_foo
                (Filepath.Base (Old (mkRenameOp ["proj"; "node_modules"; "foo.txt"]
                                       ["proj"; "node_modules"; "bar.txt"]))))).
Proof.
  destruct (walk_plans_a_rename_for_every_matching_entry go_runtime "bar" regexp_foo
              (splitToMap (ToLower defaultIgnores) "," "") ["proj"] tree_vcs
              (Dir [(".git", Dir [("foo.txt", File (bytes "foo"))]);
                    ("node_modules", Dir [("foo.txt", File (bytes "foo"))])])
              (mkSlice [mkRenameOp ["proj"; "node_modules"; "foo.txt"]
                          ["proj"; "node_modules"; "bar.txt"]] 1)
              eq_refl) as [Hnd Hiff].
  - vm_compute. reflexivity.
  - vm_compute. reflexivity.
  - split; [exact Hnd|apply Hiff].
Defined.

(** * The first group of the pattern *)

Lemma finish_numCap (p : parser) (re : Regexp) :
  finish p = Compiled re -> NumSubexp re = numCap p.
Proof.
  unfold finish. destruct (concat (stack p)) as [|[r|cap fl] [|it rest]];
    try discriminate. intros [= <-]. reflexivity.
Qed.

Lemma repeat_numCap (op : regex -> regex) (p p' : parser) (after : string) :
  Regexp.repeat op p after = Compiled p' -> numCap p' = numCap p.
Proof.
  unfold Regexp.repeat. intros H.
  assert (Hbody : (if lastRepeat p then SyntaxError
                   else match stack p with
                        | IRe r :: st' =>
                            if nullable r then Unsupported
                            else Compiled (mkParser (IRe (op r) :: st') (foldCase p)
                                             (numCap p) true)
                        | _ => SyntaxError
                        end) = Compiled p' -> numCap p' = numCap p).
  { destruct (lastRepeat p); [discriminate|].
    destruct (stack p) as [|[r|cap fl] st']; try discriminate.
    destruct (nullable r); [discriminate|]. intros [= <-]. reflexivity. }
  destruct after as [|b after']; [exact (Hbody H)|].
  destruct b as [[] [] [] [] [] [] [] []]; try exact (Hbody H); discriminate H.
Qed.

Lemma parseRightParen_numCap (p p' : parser) :
  parseRightParen p = Compiled p' -> numCap p' = numCap p.
Proof.
  unfold parseRightParen.
  destruct (concat (stack p)) as [|[r|cap fl] [|[r'|cap' fl'] rest]]; try discriminate.
  intros [= <-]. reflexivity.
Qed.

Ltac numCap_IH IH H :=
  apply IH in H; [cbn [numCap push] in H; lia | cbn [String.length] in *; lia].

Ltac numCap_step IH H :=
  lazymatch type of H with
  | match Regexp.repeat ?op ?p ?t with _ => _ end = _ =>
      let E := fresh "E" in
      destruct (Regexp.repeat op p t) as [p'| |] eqn:E; try discriminate H;
      apply repeat_numCap in E; apply IH in H;
      [lia | cbn [String.length] in *; lia]
  | match parseRightParen ?p with _ => _ end = _ =>
      let E := fresh "E" in
      destruct (parseRightParen p) as [p'| |] eqn:E; try discriminate H;
      apply parseRightParen_numCap in E; apply IH in H;
      [lia | cbn [String.length] in *; lia]
  | parse_go _ _ = _ => numCap_IH IH H
  | _ => idtac
  end.

(** The parser never forgets a group it has counted. *)
Lemma parse_go_numCap (n : nat) :
  forall (t : string) (p : parser) (re : Regexp),
    String.length t <= n -> parse_go p t = Compiled re -> numCap p <= NumSubexp re.
Proof.
  induction n as [|n IH]; intros t p re Hlen H.
  - destruct t; [|cbn in Hlen; lia]. cbn [parse_go] in H.
    apply finish_numCap in H. lia.
  - destruct t as [|a t1].
    { cbn [parse_go] in H. apply finish_numCap in H. lia. }
    destruct a as [[] [] [] [] [] [] [] []]; cbn [parse_go] in H;
      try discriminate H; numCap_step IH H.
    + (* a backslash *)
      destruct t1 as [|c t2]; [discriminate H|].
      destruct (is_ascii7 c && negb (isalnum c)); [|discriminate H].
      numCap_IH IH H.
    + (* an opening parenthesis *)
      destruct t1 as [|b t2]; [numCap_IH IH H|].
      destruct b as [[] [] [] [] [] [] [] []]; try (numCap_IH IH H).
      destruct t2 as [|c t3]; [discriminate H|].
      destruct c as [[] [] [] [] [] [] [] []]; try discriminate H.
      destruct t3 as [|d t4]; [discriminate H|].
      destruct d as [[] [] [] [] [] [] [] []]; try discriminate H.
      numCap_IH IH H.
Qed.

Lemma head_not_quest (find rest : string) :
  HasPrefix find "?" = false ->
  exists x t, ToLower (escape find) +:+ String ")" rest = String x t
              /\ Ascii.eqb x "?"%char = false.
Proof.
  destruct find as [|c find]; intros Hq.
  - eexists _, _. split; reflexivity.
  - cbn [HasPrefix] in Hq. cbn [escape].
    destruct (Ascii.eqb c "\"%char) eqn:E1; [eexists _, _; split; reflexivity|].
    destruct (Ascii.eqb c "."%char) eqn:E2; [eexists _, _; split; reflexivity|].
    rewrite app_cons, app_nil_l. cbn [ToLower]. rewrite app_cons.
    eexists _, _. split; [reflexivity|].
    destruct c as [[] [] [] [] [] [] [] []]; try discriminate Hq; reflexivity.
Qed.

Lemma MustCompile_Ok (pattern : string) (reg : Regexp) :
  MustCompile pattern = Ok reg <-> Compile pattern = Compiled reg.
Proof.
  unfold MustCompile. destruct (Compile pattern); split; congruence.
Qed.

Lemma FindSubmatch_length (re : Regexp) (s : string) (match0 : list string) :
  FindSubmatch re s = Some match0 -> length match0 = S (NumSubexp re).
Proof.
  induction s as [|a s IH]; cbn [FindSubmatch];
    destruct (m (prog re) _ _ ∅) as [[rest c]|].
  - intros [= <-]. unfold submatches. cbn [length].
    rewrite length_map, length_seq. reflexivity.
  - discriminate.
  - intros [= <-]. unfold submatches. cbn [length].
    rewrite length_map, length_seq. reflexivity.
  - exact IH.
Qed.

Lemma group1_Ok (match0 : list string) :
  2 <= length match0 -> exists f, group1 match0 = Ok f.
Proof.
  intros H. unfold group1. destruct match0 as [|w [|f l]]; cbn in H; try lia.
  exists f. reflexivity.
Qed.

Lemma group1_Panic (match0 : list string) :
  length match0 = 1 -> group1 match0 = Panic "index out of range".
Proof.
  intros H. destruct match0 as [|w [|f l]]; try discriminate H. reflexivity.
Qed.

(** X20: for a search term that does not begin with [?], the pattern [run]
    compiles has its group: every match has a first submatch, so that
    [matches[0][1]] is in range and [update] returns on every list. *)
Theorem first_group_is_there :
  forall (find : string) (reg : Regexp),
    HasPrefix find "?" = false ->
    MustCompile (pattern_of find) = Ok reg ->
    1 <= NumSubexp reg
    /\ (forall s match0, FindSubmatch reg s = Some match0 ->
                         exists f, group1 match0 = Ok f)
    /\ (forall (rt : Runtime) (items : slice ReadOp) (replace : string),
          exists writes, update items reg replace = Ok writes).
Proof.
  intros find reg Hq Hc. apply MustCompile_Ok in Hc.
  assert (Hn : 1 <= NumSubexp reg).
  { rewrite pattern_of_escape in Hc. unfold Compile in Hc.
    destruct (head_not_quest find ".*)" Hq) as (x & t & Hx & Hxq).
    change ("(?i:.*(" +:+ ToLower (escape find) +:+ ").*)")
      with (String "(" (String "?" (String "i" (String ":" (String "." (String "*"
             (String "(" (ToLower (escape find) +:+ String ")" ".*)"))))))))
      in Hc.
    rewrite Hx in Hc.
    assert (Hstep : parse_go (mkParser [] false 0 false)
                      (String "(" (String "?" (String "i" (String ":" (String "."
                         (String "*" (String "(" (String x t))))))))
                    = parse_go (mkParser [ILeftParen 1 true; IRe (Star AnyNotNL);
                                          ILeftParen 0 false] true 1 false)
                        (String x t)).
    { destruct x as [[] [] [] [] [] [] [] []]; try discriminate Hxq; reflexivity. }
    rewrite Hstep in Hc.
    apply (parse_go_numCap _ _ _ _ (le_n _)) in Hc. exact Hc. }
  split; [exact Hn|].
  assert (Hg : forall s match0, FindSubmatch reg s = Some match0 ->
                                exists f, group1 match0 = Ok f).
  { intros s match0 Hm. apply group1_Ok.
    rewrite (FindSubmatch_length _ _ _ Hm). lia. }
  split; [exact Hg|].
  intros rt items replace.
  destruct (update_ok items reg replace) as (w & Hw & _); [|eauto].
  apply Forall_forall. intros r _ match0 Hm.
  destruct (Hg _ _ Hm) as [f Hf]. unfold group1 in Hf.
  destruct (match0 !! 1); [eauto|discriminate Hf].
Qed.

Lemma first_group_is_there_witness :
  1 <= NumSubexp regexp_foo
  /\ (forall s match0, FindSubmatch regexp_foo s = Some match0 ->
                       exists f, group1 match0 = Ok f)
  /\ (forall (rt : Runtime) (items : slice ReadOp) (replace : string),
        exists writes, update items regexp_foo replace = Ok writes).
Proof.
  apply (first_group_is_there "foo" regexp_foo).
  - reflexivity.
  - vm_compute. reflexivity.
Defined.

(** X21: a search term that begins with [?i:] makes of the parentheses
    [run] puts around it a flag group: the pattern compiles without a
    capturing group, and at the first name that matches the walk of
    [renameDirs] panics on [matches[0][1]]. *)
Theorem flag_group_term_loses_the_group :
  forall (t : string),
    literal_term t = true ->
    exists reg,
      MustCompile (pattern_of ("?i:" +:+ t)) = Ok reg
      /\ NumSubexp reg = 0
      /\ (forall s match0, FindSubmatch reg s = Some match0 ->
                           group1 match0 = Panic "index out of range")
      /\ (forall (rt : Runtime) (replace : string) (ignoreMap : gmap string bool)
                 (p : path) (name : string) (isdir : bool) (st : slice RenameOp),
            skipped ignoreMap name isdir = false ->
            is_Some (FindSubmatch reg name) ->
            renameDirs_visit replace reg ignoreMap p (Some (mkFileInfo name isdir))
              None st = Panic "index out of range").
Proof.
  intros t Hlit.
  assert (Hc : Compile (pattern_of ("?i:" +:+ t))
               = Compiled (mkRegexp (Cat (Star AnyNotNL)
                                       (Cat (collapse (lits_acc t [])) (Star AnyNotNL)))
                             0)).
  { rewrite pattern_of_escape. unfold Compile.
    change ("(?i:.*(" +:+ ToLower (escape ("?i:" +:+ t)) +:+ ").*)")
      with (String "(" (String "?" (String "i" (String ":" (String "." (String "*"
             (String "(" (String "?" (String "i" (String ":"
                (ToLower (escape t) +:+ String ")" ".*)"))))))))))).
    transitivity (parse_go (mkParser [ILeftParen 0 true; IRe (Star AnyNotNL);
                                      ILeftParen 0 false] true 0 false)
                    (ToLower (escape t) +:+ String ")" ".*)")); [reflexivity|].
    destruct (parse_go_literal t Hlit
                [ILeftParen 0 true; IRe (Star AnyNotNL); ILeftParen 0 false] 0 false
                (String ")" ".*)")) as [lr' ->].
    cbn [parse_go]. unfold parseRightParen, concat. cbn [stack].
    rewrite operands_push_lits. cbn. reflexivity. }
  eexists. split; [apply MustCompile_Ok; exact Hc|]. split; [reflexivity|].
  assert (Hg : forall s match0,
             FindSubmatch (mkRegexp (Cat (Star AnyNotNL)
                                       (Cat (collapse (lits_acc t [])) (Star AnyNotNL)))
                             0) s = Some match0 ->
             group1 match0 = Panic "index out of range").
  { intros s match0 Hm. apply group1_Panic.
    rewrite (FindSubmatch_length _ _ _ Hm). reflexivity. }
  split; [exact Hg|].
  intros rt replace ignoreMap p name isdir st Hs [match0 Hm].
  unfold renameDirs_visit. cbn [Name IsDir]. unfold skipped in Hs. rewrite Hs, Hm.
  rewrite (Hg _ _ Hm). reflexivity.
Qed.

Lemma flag_group_term_loses_the_group_witness :
  exists reg,
    MustCompile (pattern_of ("?i:" +:+ "foo")) = Ok reg
    /\ NumSubexp reg = 0
    /\ (forall s match0, FindSubmatch reg s = Some match0 ->
                         group1 match0 = Panic "index out of range")
    /\ (forall (rt : Runtime) (replace : string) (ignoreMap : gmap string bool)
               (p : path) (name : string) (isdir : bool) (st : slice RenameOp),
          skipped ignoreMap name isdir = false ->
          is_Some (FindSubmatch reg name) ->
          renameDirs_visit replace reg ignoreMap p (Some (mkFileInfo name isdir))
            None st = Panic "index out of range").
Proof.
  apply (flag_group_term_loses_the_group "foo"). reflexivity.
Defined.

(** With the term [?i:foo] a run over a file called [fooFOO.txt]
    panics. *)
Example flag_group_term_panics_the_run :
  run (rt := go_runtime) ["root"] "?i:foo" "bar" defaultIgnores "txt" false tree_twice
  = Panic "index out of range".
Proof. vm_compute. reflexivity. Qed.

(** * One run and the next *)






(** * The writers side by side *)

Lemma write_calls (l : list WriteOp) (c : nat) (fs : node) :
  write (mkSlice l c) fs = run_calls (calls_of l) fs.
Proof.
  unfold write, run_calls. cbn [elems]. revert fs.
  induction l as [|w l IH]; intros fs; [reflexivity|].
  cbn [fold_left calls_of flat_map app call]. rewrite <- IH. reflexivity.
Qed.

Lemma run_calls_app (a b : list syscall) (fs : node) :
  run_calls (a ++ b) fs = run_calls b (run_calls a fs).
Proof. apply fold_left_app. Qed.

Lemma is_prefix_comparable (p1 : path) :
  forall p2 q,
    is_prefix p1 q = true -> is_prefix p2 q = true ->
    is_prefix p1 p2 = true \/ is_prefix p2 p1 = true.
Proof.
  induction p1 as [|a p1 IH]; intros p2 q H1 H2; [left; reflexivity|].
  destruct p2 as [|b p2]; [right; reflexivity|].
  destruct q as [|x q]; [discriminate H1|]. cbn [is_prefix] in *.
  destruct (decide (a = x)) as [->|]; [|discriminate H1].
  destruct (decide (b = x)) as [->|]; [|discriminate H2].
  rewrite decide_True by reflexivity. apply (IH p2 q); assumption.
Qed.

Lemma is_prefix_Dir (p : path) : is_prefix (Filepath.Dir p) p = true.
Proof.
  destruct (decide (p = [])) as [->|Hp]; [reflexivity|].
  destruct (Dir_prefix p Hp) as [c Hc]. apply is_prefix_spec. eauto.
Qed.

Lemma is_prefix_snoc (p q : path) (c : string) :
  is_prefix p (q ++ [c]) = true -> is_prefix p q = true \/ p = q ++ [c].
Proof.
  intros H. apply is_prefix_spec in H as [r Hr].
  destruct (decide (r = [])) as [->|Hne].
  - right. rewrite app_nil_r in Hr. auto.
  - left. destruct (exists_last Hne) as (r' & x & ->).
    rewrite app_assoc in Hr. apply app_inj_tail in Hr as [-> _].
    apply is_prefix_spec. eauto.
Qed.

(** A call that is enabled overwrites what is at and below its path; one
    that is not changes nothing. *)
Lemma call_enabled (op : syscall) (fs : node) :
  enabled op fs ->
  forall q, stat (call op fs) q
            = if is_prefix (path_of op) q then effect op q else stat fs q.
Proof.
  intros [Hp Hen] q. destruct op as [p|p data]; cbn [path_of call effect] in *.
  - unfold Remove. destruct p as [|y p']; [congruence|].
    destruct (lookup fs (y :: p')) as [[b|[|[c0 n0] es]]|] eqn:Hl.
    + apply stat_detach. discriminate.
    + apply stat_detach. discriminate.
    + exfalso. specialize (Hen c0). unfold stat in Hen.
      rewrite lookup_app, Hl in Hen. cbn in Hen.
      rewrite decide_True in Hen by reflexivity. discriminate Hen.
    + destruct (is_prefix (y :: p') q) eqn:E; [|reflexivity].
      apply is_prefix_spec in E as [r ->]. unfold stat.
      rewrite lookup_app, Hl. reflexivity.
  - destruct Hen as [Hnd Hdir]. unfold WriteFile.
    destruct p as [|y p']; [congruence|].
    pose proof Hdir as Hdir'. apply stat_dir_iff in Hdir' as [es Hes]. rewrite Hes.
    destruct (lookup fs (y :: p')) as [[b|es']|] eqn:Hl.
    + apply stat_attach; [discriminate|exact Hdir].
    + exfalso. apply Hnd. unfold stat. rewrite Hl. reflexivity.
    + apply stat_attach; [discriminate|exact Hdir].
Qed.

Lemma call_disabled (op : syscall) (fs : node) :
  ~ enabled op fs -> call op fs = fs.
Proof.
  intros Hn. destruct op as [p|p data]; cbn [call].
  - unfold Remove. destruct p as [|y p']; [reflexivity|].
    destruct (lookup fs (y :: p')) as [[b|[|e es]]|] eqn:Hl; try reflexivity;
      exfalso; apply Hn; (split; [discriminate|]); intros c; unfold stat;
      rewrite lookup_app, Hl; reflexivity.
  - unfold WriteFile. destruct p as [|y p']; [reflexivity|].
    destruct (lookup fs (y :: p')) as [[b|es]|] eqn:Hl; [|reflexivity|];
      (destruct (lookup fs (Filepath.Dir (y :: p'))) as [[b'|es']|] eqn:Hd;
       try reflexivity; exfalso; apply Hn; split; [discriminate|]; split;
       [unfold stat; rewrite Hl; discriminate|unfold stat; rewrite Hd; reflexivity]).
Qed.

Lemma enabled_dec (op : syscall) (fs : node) : enabled op fs \/ ~ enabled op fs.
Proof.
  destruct (decide (path_of op = [])) as [Hp|Hp]; [right; intros [H _]; exact (H Hp)|].
  destruct op as [p|p data]; cbn [path_of] in Hp; unfold enabled; cbn [path_of].
  - destruct (lookup fs p) as [[b|[|[c0 n0] es]]|] eqn:Hl.
    + left. split; [exact Hp|]. intros c. unfold stat. rewrite lookup_app, Hl. reflexivity.
    + left. split; [exact Hp|]. intros c. unfold stat. rewrite lookup_app, Hl. reflexivity.
    + right. intros [_ H]. specialize (H c0). unfold stat in H.
      rewrite lookup_app, Hl in H. cbn in H.
      rewrite decide_True in H by reflexivity. discriminate H.
    + left. split; [exact Hp|]. intros c. unfold stat. rewrite lookup_app, Hl. reflexivity.
  - destruct (stat fs p) as [[b|]|] eqn:Hs;
      destruct (stat fs (Filepath.Dir p)) as [[b'|]|] eqn:Hd;
      try (right; intros (_ & H1 & H2); congruence);
      left; (split; [exact Hp|]); split; congruence.
Qed.

Lemma enabled_same (op : syscall) (a b : node) :
  same_files a b -> enabled op a -> enabled op b.
Proof.
  intros Hab [Hp He]. split; [exact Hp|]. destruct op as [p|p data].
  - intros c. rewrite <- Hab. apply He.
  - rewrite <- !Hab. exact He.
Qed.

Lemma same_files_sym (a b : node) : same_files a b -> same_files b a.
Proof. intros H q. symmetry. apply H. Qed.

Lemma same_files_trans (a b c : node) :
  same_files a b -> same_files b c -> same_files a c.
Proof. intros H1 H2 q. rewrite H1. apply H2. Qed.

Lemma call_same (op : syscall) (a b : node) :
  same_files a b -> same_files (call op a) (call op b).
Proof.
  intros Hab. destruct (enabled_dec op a) as [Ha|Ha].
  - pose proof (enabled_same op a b Hab Ha) as Hb. intros q.
    rewrite (call_enabled op a Ha), (call_enabled op b Hb), Hab. reflexivity.
  - assert (Hb : ~ enabled op b).
    { intros Hb. apply Ha. apply (enabled_same op b a); [apply same_files_sym|];
        assumption. }
    rewrite (call_disabled op a Ha), (call_disabled op b Hb). exact Hab.
Qed.

Lemma run_calls_same (tr : list syscall) :
  forall a b, same_files a b -> same_files (run_calls tr a) (run_calls tr b).
Proof.
  induction tr as [|op tr IH]; intros a b Hab; [exact Hab|].
  cbn [run_calls fold_left]. apply IH. apply call_same. exact Hab.
Qed.

(** A call leaves alone what is not at or below its path. *)
Lemma call_frame (op : syscall) (fs : node) (q : path) :
  path_of op = [] \/ is_prefix (path_of op) q = false ->
  stat (call op fs) q = stat fs q.
Proof.
  intros H. destruct (enabled_dec op fs) as [He|He].
  - rewrite (call_enabled op fs He). destruct H as [H|H].
    + destruct He as [Hp _]. contradiction.
    + rewrite H. reflexivity.
  - rewrite (call_disabled op fs He). reflexivity.
Qed.

(** Whether a call is enabled is not changed by a call on a path that
    lies apart. *)
Lemma enabled_frame (op1 op2 : syscall) (fs : node) :
  indep (path_of op1) (path_of op2) ->
  enabled op1 (call op2 fs) <-> enabled op1 fs.
Proof.
  intros Hi.
  destruct (decide (path_of op1 = [])) as [Hp1|Hp1].
  { split; intros [H _]; contradiction. }
  assert (Hfr : forall q,
             is_prefix q (path_of op1) = true \/ (exists c, q = path_of op1 ++ [c]) ->
             stat (call op2 fs) q = stat fs q).
  { intros q Hq. apply call_frame.
    destruct Hi as [Hi|[Hi|[H12 H21]]]; [contradiction|left; exact Hi|]. right.
    destruct (is_prefix (path_of op2) q) eqn:E; [|reflexivity]. exfalso.
    destruct Hq as [Hq|[c ->]].
    - rewrite (is_prefix_trans _ _ _ E Hq) in H21. discriminate.
    - apply is_prefix_snoc in E as [E|E]; [congruence|].
      rewrite E in H12. rewrite (proj2 (is_prefix_spec _ _)) in H12 by eauto.
      discriminate. }
  unfold enabled. destruct op1 as [p|p data]; cbn [path_of] in *.
  - split; intros [Hp H]; (split; [exact Hp|]); intros c;
      [rewrite <- Hfr by eauto|rewrite Hfr by eauto]; apply H.
  - rewrite (Hfr p) by (left; apply is_prefix_refl).
    rewrite (Hfr (Filepath.Dir p)) by (left; apply is_prefix_Dir). reflexivity.
Qed.

Lemma indep_sym (p q : path) : indep p q -> indep q p.
Proof. unfold indep. tauto. Qed.

(** Calls on paths that lie apart can change places. *)
Lemma call_comm (op1 op2 : syscall) (fs : node) :
  indep (path_of op1) (path_of op2) ->
  same_files (call op1 (call op2 fs)) (call op2 (call op1 fs)).
Proof.
  intros Hi.
  pose proof (enabled_frame op1 op2 fs Hi) as H1.
  pose proof (enabled_frame op2 op1 fs (indep_sym _ _ Hi)) as H2.
  destruct (enabled_dec op1 fs) as [E1|E1]; destruct (enabled_dec op2 fs) as [E2|E2].
  - intros q.
    rewrite (call_enabled op1 _ (proj2 H1 E1)), (call_enabled op2 _ (proj2 H2 E2)).
    rewrite (call_enabled op2 _ E2), (call_enabled op1 _ E1).
    destruct (is_prefix (path_of op1) q) eqn:P1;
      destruct (is_prefix (path_of op2) q) eqn:P2; try reflexivity.
    exfalso. destruct E1 as [N1 _]. destruct E2 as [N2 _].
    destruct Hi as [Hi|[Hi|[H12 H21]]]; [contradiction|contradiction|].
    destruct (is_prefix_comparable _ _ _ P1 P2); congruence.
  - assert (E2' : ~ enabled op2 (call op1 fs)) by tauto.
    rewrite (call_disabled op2 fs E2), (call_disabled op2 _ E2'). intros q. reflexivity.
  - assert (E1' : ~ enabled op1 (call op2 fs)) by tauto.
    rewrite (call_disabled op1 fs E1), (call_disabled op1 _ E1'). intros q. reflexivity.
  - assert (E1' : ~ enabled op1 (call op2 fs)) by tauto.
    assert (E2' : ~ enabled op2 (call op1 fs)) by tauto.
    rewrite (call_disabled op1 _ E1'), (call_disabled op2 _ E2').
    rewrite (call_disabled op1 fs E1), (call_disabled op2 fs E2). intros q. reflexivity.
Qed.

(** A call can be moved behind calls on paths that lie apart from its
    own. *)
Lemma call_past (op : syscall) (m : list syscall) :
  Forall (fun x => indep (path_of op) (path_of x)) m ->
  forall rest fs,
    same_files (run_calls (op :: m ++ rest) fs) (run_calls (m ++ op :: rest) fs).
Proof.
  induction 1 as [|x m Hx Hm IH]; intros rest fs; [intros q; reflexivity|].
  cbn [app]. change (run_calls (op :: x :: m ++ rest) fs)
    with (run_calls (m ++ rest) (call x (call op fs))).
  change (run_calls (x :: m ++ op :: rest) fs)
    with (run_calls (m ++ op :: rest) (call x fs)).
  eapply same_files_trans; [|apply (IH rest (call x fs))].
  change (run_calls (op :: m ++ rest) (call x fs))
    with (run_calls (m ++ rest) (call op (call x fs))).
  apply run_calls_same. apply same_files_sym. apply call_comm. exact Hx.
Qed.

Lemma concat_all_nil {A : Type} (ls : list (list A)) :
  Forall (fun l => l = []) ls -> List.concat ls = [].
Proof.
  induction 1 as [|l ls Hl Hls IH]; [reflexivity|]. cbn. rewrite Hl, IH. reflexivity.
Qed.

Lemma workers_apart_before (l1 : list (list syscall)) (x : list syscall)
  (l2 : list (list syscall)) :
  workers_apart (l1 ++ x :: l2) ->
  Forall (fun a => forall u v, u ∈ a -> v ∈ x -> indep (path_of u) (path_of v)) l1.
Proof.
  induction l1 as [|a l1 IH]; intros H; [constructor|].
  cbn [app] in H. inversion H as [|? ? Ha Hrest]; subst.
  constructor; [|apply IH; exact Hrest].
  rewrite Forall_app, Forall_cons in Ha. destruct Ha as (_ & Ha & _). exact Ha.
Qed.

Lemma workers_apart_tail (l1 : list (list syscall)) (op : syscall)
  (t : list syscall) (l2 : list (list syscall)) :
  workers_apart (l1 ++ (op :: t) :: l2) -> workers_apart (l1 ++ t :: l2).
Proof.
  induction l1 as [|a l1 IH]; intros H; cbn [app] in *;
    inversion H as [|? ? Ha Hrest]; subst; constructor.
  - eapply Forall_impl; [exact Ha|]. intros b Hb x y Hx Hy.
    apply Hb; [right; exact Hx|exact Hy].
  - exact Hrest.
  - rewrite Forall_app, Forall_cons in Ha |- *. destruct Ha as (H1 & H2 & H3).
    split; [exact H1|]. split; [|exact H3].
    intros x y Hx Hy. apply H2; [exact Hx|right; exact Hy].
  - apply IH. exact Hrest.
Qed.

(** Workers whose paths lie apart, run side by side: in whatever way
    their calls are interleaved, the files are those that the workers
    leave when they run one after another. *)
Lemma interleaving_sequential (ls : list (list syscall)) (tr : list syscall) :
  interleaving ls tr ->
  workers_apart ls ->
  forall fs, same_files (run_calls tr fs) (run_calls (List.concat ls) fs).
Proof.
  induction 1 as [ls Hnil|l1 op t l2 tr Hi IH]; intros Hap fs.
  - rewrite (concat_all_nil ls Hnil). intros q. reflexivity.
  - change (run_calls (op :: tr) fs) with (run_calls tr (call op fs)).
    eapply same_files_trans; [apply IH, (workers_apart_tail _ _ _ _ Hap)|].
    rewrite !concat_app. cbn [List.concat]. rewrite <- ?app_assoc.
    change (run_calls (List.concat l1 ++ t ++ List.concat l2) (call op fs))
      with (run_calls (op :: List.concat l1 ++ t ++ List.concat l2) fs).
    cbn [app]. apply call_past.
    apply workers_apart_before in Hap. apply Forall_forall. intros x Hx.
    apply list_elem_of_In, in_concat in Hx as (a & Ha & Hxa).
    rewrite Forall_forall in Hap. apply indep_sym.
    apply (Hap a); [apply list_elem_of_In; exact Ha|apply list_elem_of_In; exact Hxa|left].
Qed.

Lemma apart_app (l1 l2 : list path) :
  apart (l1 ++ l2) = true ->
  apart l2 = true
  /\ forall p q, p ∈ l1 -> q ∈ l2 -> is_prefix p q = false /\ is_prefix q p = false.
Proof.
  induction l1 as [|a l1 IH]; cbn [app apart].
  - intros H. split; [exact H|]. intros p q Hp. inversion Hp.
  - intros H. apply andb_true_iff in H as [Ha H]. destruct (IH H) as [H2 Hc].
    split; [exact H2|]. intros p q Hp Hq.
    apply elem_of_cons in Hp as [->|Hp]; [|apply Hc; assumption].
    rewrite forallb_forall in Ha. specialize (Ha q).
    rewrite in_app_iff in Ha. specialize (Ha (or_intror (proj1 (list_elem_of_In _ _) Hq))).
    apply andb_true_iff in Ha as [Ha1 Ha2].
    apply negb_true_iff in Ha1, Ha2. auto.
Qed.

Lemma calls_of_path (l : list WriteOp) (x : syscall) :
  x ∈ calls_of l -> exists w, w ∈ l /\ path_of x = wPath w.
Proof.
  unfold calls_of. intros H. apply list_elem_of_In, in_flat_map in H as (w & Hw & Hx).
  exists w. split; [apply list_elem_of_In; exact Hw|].
  destruct Hx as [<-|[<-|[]]]; reflexivity.
Qed.

Lemma calls_of_concat (gs : list (list WriteOp)) :
  List.concat (map calls_of gs) = calls_of (List.concat gs).
Proof.
  induction gs as [|g gs IH]; [reflexivity|].
  cbn [map List.concat]. rewrite IH. unfold calls_of. rewrite flat_map_app. reflexivity.
Qed.

Lemma groups_apart (gs : list (list WriteOp)) :
  apart (List.filter (fun p => negb (bool_decide (p = [])))
           (map wPath (List.concat gs))) = true ->
  workers_apart (map calls_of gs).
Proof.
  induction gs as [|g gs IH]; intros H; [constructor|].
  cbn [List.concat map] in *. rewrite map_app, List.filter_app in H.
  apply apart_app in H as [H2 Hc]. constructor; [|apply IH; exact H2].
  apply Forall_forall. intros b Hb x y Hx Hy.
  apply list_elem_of_fmap in Hb as (g' & -> & Hg').
  apply calls_of_path in Hx as (w & Hw & ->).
  apply calls_of_path in Hy as (w' & Hw' & ->).
  destruct (decide (wPath w = [])) as [E|E]; [left; exact E|].
  destruct (decide (wPath w' = [])) as [E'|E']; [right; left; exact E'|].
  right. right. apply Hc.
  - apply list_elem_of_In, filter_In. split.
    + apply in_map, list_elem_of_In, Hw.
    + rewrite bool_decide_eq_false_2 by exact E. reflexivity.
  - apply list_elem_of_In, filter_In. split.
    + apply in_map, in_concat. exists g'. split; apply list_elem_of_In; assumption.
    + rewrite bool_decide_eq_false_2 by exact E'. reflexivity.
Qed.

(** X5: for records whose paths lie apart (no two share a path and none
    leads through another), so that the workers of the pool write files
    of their own, [brokerWrite] writes what [write] writes on the whole
    list, pooled or not, unless the list is pooled and its groups reach
    beyond the capacity of its array: then it panics.  The workers run
    side by side: in whatever way their calls of [Remove] and [WriteFile]
    are interleaved, each worker's in its own order, the files are those
    that [write] leaves on the whole list. *)
Theorem brokerWrite_writes_the_list_or_panics :
  forall (items : slice WriteOp) (fs : node),
    apart (List.filter (fun p => negb (bool_decide (p = [])))
             (map wPath (elems items))) = true ->
    brokerWrite items fs
    = (if pooled items
          && (capacity items <? GOPROCESSES * (len items / GOPROCESSES + 1))
       then Panic "slice bounds out of range"
       else Ok (write items fs))
    /\ forall (gs : list (slice WriteOp)) (tr : list syscall),
         groups items = Ok gs ->
         interleaving (map (fun g => calls_of (elems g)) gs) tr ->
         same_files (run_calls tr fs) (write items fs).
Proof.
  intros items fs Hap. split.
  - destruct (pooled items) eqn:Hp; cbn [andb].
    + destruct (capacity items <? GOPROCESSES * (len items / GOPROCESSES + 1)) eqn:Hc.
      * apply Nat.ltb_lt in Hc. unfold brokerWrite.
        rewrite Hp, (groups_beyond items Hc). reflexivity.
      * apply Nat.ltb_ge in Hc. apply brokerWrite_in_range; assumption.
    + unfold brokerWrite. rewrite Hp. reflexivity.
  - intros gs tr Hg Hi. apply groups_Ok in Hg as [Hle ->].
    rewrite <- (map_map (fun g => elems g) calls_of) in Hi.
    pose proof (concat_groups items (len items / GOPROCESSES + 1)) as Hcat.
    destruct (take_backing items (GOPROCESSES * (len items / GOPROCESSES + 1))
                (groups_cover _)) as [z Hz].
    rewrite Hz in Hcat.
    assert (Hjunk : Forall (fun w => wPath w = []) (replicate z (@zero WriteOp _))).
    { apply Forall_forall. intros w Hw. apply elem_of_replicate in Hw as [-> _].
      reflexivity. }
    eapply same_files_trans.
    + apply (interleaving_sequential _ _ Hi). apply groups_apart. rewrite Hcat.
      rewrite map_app, List.filter_app.
      match goal with
      | |- apart (_ ++ ?junk) = true => assert (Hnone : junk = [])
      end.
      { clear. induction z as [|z IH]; [reflexivity|exact IH]. }
      rewrite Hnone, app_nil_r. exact Hap.
    + rewrite calls_of_concat, Hcat, <- (write_calls _ 0).
      rewrite (write_app _ _ 0 0 0), (write_no_path _ 0 _ Hjunk).
      rewrite (write_elems (mkSlice (elems items) 0) items) by reflexivity.
      intros q. reflexivity.
Qed.

Lemma brokerWrite_writes_the_list_or_panics_witness :
  brokerWrite (mkSlice (map (fun p => mkWriteOp p (bytes "bar")) paths_hundred) 144)
    tree_hundred
  = if pooled (mkSlice (map (fun p => mkWriteOp p (bytes "bar")) paths_hundred) 144)
       && (capacity (mkSlice (map (fun p => mkWriteOp p (bytes "bar")) paths_hundred) 144)
           <? GOPROCESSES
              * (len (mkSlice (map (fun p => mkWriteOp p (bytes "bar")) paths_hundred) 144)
                 / GOPROCESSES + 1))
    then Panic "slice bounds out of range"
    else Ok (write (mkSlice (map (fun p => mkWriteOp p (bytes "bar")) paths_hundred) 144)
               tree_hundred).
Proof.
  destruct (brokerWrite_writes_the_list_or_panics
              (mkSlice (map (fun p => mkWriteOp p (bytes "bar")) paths_hundred) 144)
              tree_hundred) as [H _].
  - vm_compute. reflexivity.
  - exact H.
Defined.

(** * The files of the writers *)

Lemma apart_spec (l : list path) :
  apart l = true
  <-> NoDup l /\ forall p q, p ∈ l -> q ∈ l -> p <> q -> is_prefix p q = false.
Proof.
  induction l as [|a l IH]; cbn [apart].
  - split; [|reflexivity]. intros _. split; [constructor|].
    intros p q Hp. inversion Hp.
  - rewrite andb_true_iff, IH, forallb_forall. split.
    + intros [Ha [Hnd Hl]].
      assert (Hal : forall q, q ∈ l -> is_prefix a q = false /\ is_prefix q a = false).
      { intros q Hq. apply list_elem_of_In in Hq. specialize (Ha q Hq).
        apply andb_true_iff in Ha as [H1 H2]. apply negb_true_iff in H1, H2. auto. }
      split.
      * apply NoDup_cons. split; [|exact Hnd]. intros Hin.
        destruct (Hal a Hin) as [H _]. rewrite is_prefix_refl in H. discriminate H.
      * intros p q Hp Hq Hne.
        apply elem_of_cons in Hp as [->|Hp]; apply elem_of_cons in Hq as [->|Hq].
        -- congruence.
        -- apply Hal. exact Hq.
        -- apply Hal. exact Hp.
        -- apply Hl; assumption.
    + intros [Hnd Hl]. apply NoDup_cons in Hnd as [Ha Hnd]. split.
      * intros q Hq. apply list_elem_of_In in Hq.
        assert (Hne : a <> q) by (intros ->; exact (Ha Hq)).
        rewrite (Hl a q), (Hl q a); try reflexivity; try congruence;
          try (left; reflexivity); right; exact Hq.
      * split; [exact Hnd|]. intros p q Hp Hq. apply Hl; right; assumption.
Qed.

Lemma Permutation_List_filter {A : Type} (f : A -> bool) (l l' : list A) :
  Permutation l l' -> Permutation (List.filter f l) (List.filter f l').
Proof.
  induction 1 as [|x l l' HP IH|x y l|l l' l'' HP1 IH1 HP2 IH2]; cbn [List.filter].
  - constructor.
  - destruct (f x); [constructor|]; exact IH.
  - destruct (f x), (f y); try reflexivity. constructor.
  - etransitivity; eassumption.
Qed.

Lemma NoDup_List_filter {A : Type} (f : A -> bool) (l : list A) :
  NoDup l -> NoDup (List.filter f l).
Proof.
  induction l as [|x l IH]; intros H; [constructor|].
  apply NoDup_cons in H as [Hx H]. cbn [List.filter].
  destruct (f x); [|apply IH; exact H].
  apply NoDup_cons. split; [|apply IH; exact H].
  intros Hin. apply Hx. apply list_elem_of_In, filter_In in Hin as [Hin _].
  apply list_elem_of_In. exact Hin.
Qed.

Lemma apart_Permutation (l l' : list path) :
  Permutation l l' -> apart l = true -> apart l' = true.
Proof.
  intros HP. rewrite !apart_spec. intros [Hnd H]. split.
  - rewrite <- HP. exact Hnd.
  - intros p q Hp Hq. rewrite <- HP in Hp, Hq. apply H; assumption.
Qed.

(** The paths of the records made from the files of a list lie apart:
    they lead to different files, and no file is inside of another. *)
Lemma written_paths_apart (reg : Regexp) (replace : string) (fs : node)
  (F : list path) (W junk : list WriteOp) :
  NoDup F ->
  (forall q, q ∈ F -> q <> [] /\ exists b, stat fs q = Some (KFile b)) ->
  Permutation W (omap (write_for reg replace) (omap (read_one fs) F) ++ junk) ->
  Forall (fun w => wPath w = []) junk ->
  apart (List.filter (fun p => negb (bool_decide (p = []))) (map wPath W)) = true
  /\ forall w, w ∈ W -> wPath w <> [] -> wPath w ∈ F.
Proof.
  intros Hnd HF HP Hjunk.
  set (W0 := omap (write_for reg replace) (omap (read_one fs) F)) in *.
  assert (Hpaths : forall w, w ∈ W0 -> wPath w ∈ F).
  { intros w Hw. apply list_elem_of_omap in Hw as (r & Hr & Hw).
    apply list_elem_of_omap in Hr as (q & Hq & Hr).
    apply read_one_Some in Hr as (_ & Hp & _).
    apply write_for_path in Hw as [-> _]. rewrite Hp. exact Hq. }
  assert (Hin : forall w, w ∈ W -> wPath w <> [] -> wPath w ∈ F).
  { intros w Hw Hne. rewrite HP in Hw. apply elem_of_app in Hw as [Hw|Hw].
    - apply Hpaths. exact Hw.
    - rewrite Forall_forall in Hjunk. destruct (Hne (Hjunk w Hw)). }
  split; [|exact Hin].
  apply (apart_Permutation
           (List.filter (fun p => negb (bool_decide (p = []))) (map wPath (W0 ++ junk)))).
  { apply Permutation_List_filter, Permutation_map. symmetry. exact HP. }
  rewrite map_app, List.filter_app.
  match goal with
  | |- apart (_ ++ ?rest) = true => assert (Hnone : rest = [])
  end.
  { clear -Hjunk. induction Hjunk as [|w junk Hw _ IH]; [reflexivity|].
    cbn [map List.filter]. rewrite Hw. exact IH. }
  rewrite Hnone, app_nil_r. apply apart_spec. split.
  - apply NoDup_List_filter. apply (NoDup_omap _ rPath wPath).
    + intros r w Hw. apply write_for_path in Hw as [-> _]. reflexivity.
    + apply (NoDup_omap _ id rPath).
      * intros q r Hr. apply read_one_Some in Hr as (_ & -> & _). reflexivity.
      * rewrite map_id. exact Hnd.
  - intros p q Hp Hq Hne.
    assert (HpF : forall x, x ∈ List.filter (fun p => negb (bool_decide (p = [])))
                                  (map wPath W0) -> x ∈ F).
    { intros x Hx. apply list_elem_of_In, filter_In in Hx as [Hx _].
      apply in_map_iff in Hx as (w & <- & Hw). apply Hpaths, list_elem_of_In, Hw. }
    destruct (HF p (HpF p Hp)) as [_ [b Hb]].
    destruct (HF q (HpF q Hq)) as [_ [b' Hb']].
    destruct (is_prefix p q) eqn:E; [|reflexivity]. exfalso.
    apply is_prefix_spec in E as [r ->].
    assert (Hlp : lookup fs p = Some (File b)).
    { unfold stat in Hb. destruct (lookup fs p) as [[x|es]|]; try discriminate Hb.
      cbn in Hb. congruence. }
    assert (r = []) as ->.
    { apply (lookup_below_file fs p r b Hlp). apply stat_is_Some. rewrite Hb'. eauto. }
    rewrite app_nil_r in Hne. congruence.
Qed.

Lemma brokerWrite_apart (items : slice WriteOp) (fs : node) :
  apart (List.filter (fun p => negb (bool_decide (p = [])))
           (map wPath (elems items))) = true ->
  brokerWrite items fs
  = if pooled items
       && (capacity items <? GOPROCESSES * (len items / GOPROCESSES + 1))
    then Panic "slice bounds out of range"
    else Ok (write items fs).
Proof.
  intros Hap. destruct (pooled items) eqn:Hp; cbn [andb].
  - destruct (capacity items <? GOPROCESSES * (len items / GOPROCESSES + 1)) eqn:Hc.
    + apply Nat.ltb_lt in Hc. unfold brokerWrite.
      rewrite Hp, (groups_beyond items Hc). reflexivity.
    + apply Nat.ltb_ge in Hc. apply brokerWrite_in_range; assumption.
  - unfold brokerWrite. rewrite Hp. reflexivity.
Qed.

(** X22: the records [replaceContents] hands to [brokerWrite] lead to
    files of the tree, no two to the same file and none through
    another: no two workers of the pool remove or write the same file.
    The stage then writes every record, unless the groups reach beyond
    the capacity of the list and it panics. *)
Theorem writers_never_share_a_file :
  forall (rt : Runtime) (dir : path) (replace : string) (reg : Regexp)
         (extMap ignoreMap : gmap string bool) (fs t : node)
         (readPaths : slice path) (reads : slice ReadOp) (writes : slice WriteOp),
    isDir fs = true ->
    lookup fs dir = Some t ->
    names_unique t = true ->
    Walk dir (replaceContents_visit extMap ignoreMap) Slice.empty fs = Ok readPaths ->
    brokerRead readPaths fs = Ok reads ->
    brokerUpdate reads reg replace = Ok writes ->
    apart (List.filter (fun p => negb (bool_decide (p = [])))
             (map wPath (elems writes))) = true
    /\ (forall w, w ∈ elems writes -> wPath w <> [] ->
                  wPath w ∈ files_of extMap ignoreMap dir (Filepath.Base dir) t
                  /\ exists b, stat fs (wPath w) = Some (KFile b))
    /\ replaceContents dir replace reg extMap ignoreMap fs
       = if pooled writes
            && (capacity writes <? GOPROCESSES * (len writes / GOPROCESSES + 1))
         then Panic "slice bounds out of range"
         else Ok (None, write writes fs).
Proof.
  intros rt dir replace reg extMap ignoreMap fs t readPaths reads writes
    Hroot Ht Hu HW Hr Hup.
  destruct (Walk_files extMap ignoreMap dir fs t Ht) as (readPaths' & HW' & HF).
  rewrite HW in HW'. injection HW' as <-.
  pose proof Hr as Hr'. pose proof Hup as Hup'.
  apply brokerRead_Ok in Hr'. rewrite read_elems, HF in Hr'.
  apply brokerUpdate_Ok in Hup' as (junk & Hup' & Hjunk). rewrite Hr' in Hup'.
  set (F := files_of extMap ignoreMap dir (Filepath.Base dir) t) in *.
  assert (Hfiles : forall q, q ∈ F -> q <> [] /\ exists b, stat fs q = Some (KFile b)).
  { intros q Hq. apply (files_of_elem extMap ignoreMap t dir _ q Hu) in Hq
      as (rel & b & -> & _ & Hlk & _).
    assert (Hl : lookup fs (dir ++ rel) = Some (File b)).
    { rewrite lookup_app, Ht. exact Hlk. }
    split.
    - intros Hnil. rewrite Hnil in Hl. cbn in Hl. injection Hl as ->. discriminate.
    - exists b. unfold stat. rewrite Hl. reflexivity. }
  destruct (written_paths_apart reg replace fs F (elems writes) junk
              (files_of_NoDup extMap ignoreMap t dir _ Hu) Hfiles Hup' Hjunk)
    as [Hap Hin].
  split; [exact Hap|]. split.
  - intros w Hw Hne. split; [apply Hin; assumption|]. apply Hfiles, Hin; assumption.
  - unfold replaceContents. rewrite HW. cbn [mbind result_bind].
    rewrite Hr. cbn [mbind result_bind]. rewrite Hup. cbn [mbind result_bind].
    rewrite (brokerWrite_apart writes fs Hap).
    destruct (pooled writes && _); reflexivity.
Qed.

Lemma writers_never_share_a_file_witness :
  apart (List.filter (fun p => negb (bool_decide (p = [])))
           (map wPath
              (elems (mkSlice [mkWriteOp ["root"; "a.txt"] (bytes "jello OldName, oldname");
                               mkWriteOp ["root"; "b.txt"] (bytes "notjing jere")] 2))))
  = true.
Proof.
  apply (writers_never_share_a_file go_runtime ["root"] "j"
           (mkRegexp (literal_prog "h") 1) (splitToMap "txt" "," ".")
           (splitToMap (ToLower defaultIgnores) "," "") tree_two_files
           (Dir [("a.txt", File (bytes "Hello OldName, oldname"));
                 ("b.txt", File (bytes "nothing here"))])
           (mkSlice [["root"; "a.txt"]; ["root"; "b.txt"]] 2)
           (mkSlice [mkReadOp ["root"; "a.txt"] (bytes "Hello OldName, oldname");
                     mkReadOp ["root"; "b.txt"] (bytes "nothing here")] 2)).
  - reflexivity.
  - reflexivity.
  - vm_compute. reflexivity.
  - vm_compute. reflexivity.
  - vm_compute. reflexivity.
  - vm_compute. reflexivity.
Defined.
